(** * The plugin command bridge of figmad-mcp

    A shallow embedding of [src/services/plugin-bridge/server.ts]
    (class [PluginBridge]) together with the parts of [lib/errors.ts],
    [lib/logger.ts] and [lib/utils.ts] it calls, and the properties of the
    request/response correlation layer proved about it.  The second part
    of the definitions adds what surrounds the bridge: more of
    [lib/utils.ts], [lib/config.ts], the retry of the API client, the
    methods that wrap [sendCommand], the dispatcher of the peer
    ([plugin/code.ts]) and the way a tool reports an error.

    The bridge is single-threaded, event-driven code.  Its heap is made
    explicit as a [World]: the fields of the bridge object, the sockets and
    servers handed out by the [ws] library, the timers of the event loop,
    the promises created by [sendCommand] (as the log of the calls made to
    their continuations), the console and the clock.  Every method and every
    event handler is a function on worlds. *)

From Stdlib Require Import NArith ZArith Ascii DecimalString DecimalPos DecimalN.
From stdpp Require Import base decidable option list strings gmap.

Local Open Scope N_scope.
Local Open Scope list_scope.
Local Set Warnings "-register-all".

(** ** [Map<string, V>]

    A JavaScript [Map] iterates in insertion order, [set] on a present key
    overwrites the value in place, [delete] removes the key.  The table of
    pending commands is iterated by [stop], so the order is kept. *)

Module JsMap.
Section jsmap.
Context {V : Type}.

Definition t : Type := list (string * V).

Definition empty : t := [].

Fixpoint get (k : string) (m : t) : option V :=
  match m with
  | [] => None
  | (k', v) :: m' => if decide (k' = k) then Some v else get k m'
  end.

Definition has (k : string) (m : t) : bool := bool_decide (is_Some (get k m)).

Fixpoint set (k : string) (v : V) (m : t) : t :=
  match m with
  | [] => [(k, v)]
  | (k', v') :: m' =>
      if decide (k' = k) then (k', v) :: m' else (k', v') :: set k v m'
  end.

Fixpoint delete (k : string) (m : t) : t :=
  match m with
  | [] => []
  | (k', v) :: m' =>
      if decide (k' = k) then delete k m' else (k', v) :: delete k m'
  end.

Definition clear (m : t) : t := [].

Definition size (m : t) : nat := length m.

Definition keys (m : t) : list string := m.*1.

(** A map holds each key once. *)
Definition wf (m : t) : Prop := NoDup (keys m).

End jsmap.
Global Arguments t : clear implicits.
End JsMap.

(** ** Values on the wire ([types/commands.ts]) *)

(** JSON payloads: the bridge never looks inside them. *)
Inductive Json :=
| JNull
| JBool (b : bool)
| JNumber (n : Z)
| JString (s : string)
| JArray (items : list Json)
| JObject (fields : list (string * Json)).

(** [PluginResult]: a union of object types, the last of which is
    [Record<string, unknown>]; a result, when present, is an object. *)
Definition PluginResult : Type := list (string * Json).

(** [Omit<PluginCommand, 'id' | 'timestamp'>], the argument of [sendCommand]. *)
Record CommandInput := {
  in_type : string;
  in_params : Json
}.

(** [PluginCommand], the outbound frame. *)
Record PluginCommand := {
  cmd_type : string;
  cmd_params : Json;
  cmd_id : string;
  cmd_timestamp : N
}.

(** [PluginResponse], the inbound frame, at its declared type.  An optional
    field that is missing is [None]. *)
Record PluginResponse := {
  resp_id : string;
  resp_success : bool;
  resp_result : option PluginResult;
  resp_error : option string
}.

(** ** [lib/utils.ts] *)

(** The decimal text of a non-negative integer inside a template literal. *)
Definition number_to_string (n : N) : string :=
  NilZero.string_of_uint (N.to_uint n).

(** [s.substring(from, to)] for [from <= to]; both ends are clamped to the
    length of [s]. *)
Definition js_substring (from to : nat) (s : string) : string :=
  String.substring from (to - from) s.

(** [generateId()]: [now] is the value of [Date.now()] and [rnd] the text
    [Math.random().toString(36)]. *)
Definition generateId (now : N) (rnd : string) : string :=
  number_to_string now +:+ "-" +:+ js_substring 2 9 rnd.

(** ** [lib/errors.ts] *)

Record JsError := {
  name : string;
  message : string;
  code : option string
}.

Global Instance JsError_eq_dec : EqDecision JsError.
Proof. solve_decision. Defined.

(** [new Error(message)] *)
Definition Error (msg : string) : JsError :=
  {| name := "Error"; message := msg; code := None |}.

Definition FigmadError (msg code : string) : JsError :=
  {| name := "FigmadError"; message := msg; code := Some code |}.

Definition PluginBridgeError (msg : string) : JsError :=
  let super := FigmadError msg "PLUGIN_BRIDGE_ERROR" in
  {| name := "PluginBridgeError"; message := message super; code := code super |}.

Definition PluginNotConnectedError : JsError :=
  let super :=
    PluginBridgeError
      "Figma plugin is not connected. Please open Figma and run the figmad plugin." in
  {| name := "PluginNotConnectedError"; message := message super; code := code super |}.

Definition PluginTimeoutError (commandType : string) (timeoutMs : N) : JsError :=
  let super :=
    PluginBridgeError
      ("Plugin command '" +:+ commandType +:+ "' timed out after "
         +:+ number_to_string timeoutMs +:+ "ms") in
  {| name := "PluginTimeoutError"; message := message super; code := code super |}.

(** [a || b] on an optional string: the empty string is falsy. *)
Definition or_else (a : option string) (b : string) : string :=
  match a with
  | Some s => if decide (s = "") then b else s
  | None => b
  end.

(** ** [lib/logger.ts] *)

Inductive LogLevel := LDebug | LInfo | LWarn | LError.

Definition LOG_LEVELS (l : LogLevel) : N :=
  match l with
  | LDebug => 0
  | LInfo => 1
  | LWarn => 2
  | LError => 3
  end.

(** The second argument of a logging call. *)
Inductive LogData :=
| NoData
| DataId (id : string)
| DataError (e : option JsError).

(** One line written to the console, before [formatMessage] adds the time. *)
Record LogRecord := {
  log_prefix : string;
  log_level : LogLevel;
  log_message : string;
  log_data : LogData
}.

Module Logger.

Record t := {
  minLevel : LogLevel;
  prefix : string
}.

Definition shouldLog (lg : t) (level : LogLevel) : bool :=
  LOG_LEVELS (minLevel lg) <=? LOG_LEVELS level.

Definition write (lg : t) (level : LogLevel) (msg : string) (data : LogData)
    (console : list LogRecord) : list LogRecord :=
  if shouldLog lg level
  then console ++ [{| log_prefix := prefix lg; log_level := level;
                      log_message := msg; log_data := data |}]
  else console.

Definition child (lg : t) (pre : string) : t :=
  {| minLevel := minLevel lg; prefix := prefix lg +:+ ":" +:+ pre |}.

(** The module-level [logger]; [isDebug] is [process.env.DEBUG === 'true']. *)
Definition root (isDebug : bool) : t :=
  {| minLevel := if isDebug then LDebug else LInfo; prefix := "figmad" |}.

Definition createLogger (isDebug : bool) (pre : string) : t :=
  child (root isDebug) pre.

End Logger.

(** ** The [ws] library, as far as the bridge uses it *)

Inductive ReadyState := CONNECTING | OPEN | CLOSING | CLOSED.

Global Instance ReadyState_eq_dec : EqDecision ReadyState.
Proof. solve_decision. Defined.

(** A [WebSocket] object: its ready state, the frames handed to [send]
    (the argument of [JSON.stringify], in order) and the number of calls
    of [close] made on it. *)
Record WebSocket := {
  readyState : ReadyState;
  outbox : list PluginCommand;
  closeCalls : nat
}.

(** [ws.close()] starts the closing handshake of a socket that is not
    closed yet. *)
Definition WebSocket_close (s : WebSocket) : WebSocket :=
  {| readyState := match readyState s with
                   | CLOSED => CLOSED
                   | _ => CLOSING
                   end;
     outbox := outbox s;
     closeCalls := S (closeCalls s) |}.

Definition WebSocket_send (frame : PluginCommand) (s : WebSocket) : WebSocket :=
  {| readyState := readyState s;
     outbox := outbox s ++ [frame];
     closeCalls := closeCalls s |}.

(** A [WebSocketServer]: the port it was created on and whether [close]
    was called.  [close] stops the listener; it is not a call of [close]
    on the sockets the server has accepted. *)
Record WebSocketServer := {
  srv_port : N;
  srv_closed : bool
}.

Definition WebSocketServer_close (s : WebSocketServer) : WebSocketServer :=
  {| srv_port := srv_port s; srv_closed := true |}.

(** ** The bridge object and its surroundings *)

Definition COMMAND_TIMEOUT_MS : N := 30000.

(** [PendingCommand]: [resolve] and [reject] are the continuations of a
    promise, named by the handle of the promise they settle; [timeout] is
    the handle returned by [setTimeout]. *)
Record PendingCommand := {
  resolve : nat;
  reject : nat;
  timeout : nat
}.

(** The fields of [PluginBridge]; [wss] and [client] are handles into the
    servers and sockets of the world, [None] is [null]. *)
Record PluginBridge := {
  wss : option nat;
  client : option nat;
  pendingCommands : JsMap.t PendingCommand;
  port : N;
  isRunning : bool
}.

(** The closure passed to [setTimeout] by [sendCommand]: it captures [id],
    [command.type] and [reject]. *)
Record TimeoutCallback := {
  cb_id : string;
  cb_type : string;
  cb_reject : nat
}.

Inductive TimerState := Armed | Cleared | Fired.

Global Instance TimerState_eq_dec : EqDecision TimerState.
Proof. solve_decision. Defined.

Record Timer := {
  callback : TimeoutCallback;
  delay : N;
  due : N;
  status : TimerState
}.

(** Which code called the continuation. *)
Inductive Caller := ByResponse | ByTimeout | ByStop.

Global Instance Caller_eq_dec : EqDecision Caller.
Proof. solve_decision. Defined.

Inductive Outcome :=
| Resolved (result : PluginResult)
| Rejected (e : JsError).

(** One call of [resolve] or [reject]. *)
Record Call := {
  promise : nat;
  caller : Caller;
  outcome : Outcome
}.

Record World := {
  bridge : PluginBridge;
  sockets : list WebSocket;
  servers : list WebSocketServer;
  timers : list Timer;
  promises : nat;
  calls : list Call;
  logger : Logger.t;
  console : list LogRecord;
  now : N
}.

(** Field updates. *)

Definition set_wss (x : option nat) (b : PluginBridge) : PluginBridge :=
  {| wss := x; client := client b; pendingCommands := pendingCommands b;
     port := port b; isRunning := isRunning b |}.

Definition set_client (x : option nat) (b : PluginBridge) : PluginBridge :=
  {| wss := wss b; client := x; pendingCommands := pendingCommands b;
     port := port b; isRunning := isRunning b |}.

Definition set_pendingCommands (x : JsMap.t PendingCommand) (b : PluginBridge) : PluginBridge :=
  {| wss := wss b; client := client b; pendingCommands := x;
     port := port b; isRunning := isRunning b |}.

Definition set_isRunning (x : bool) (b : PluginBridge) : PluginBridge :=
  {| wss := wss b; client := client b; pendingCommands := pendingCommands b;
     port := port b; isRunning := x |}.

Definition set_bridge (x : PluginBridge) (w : World) : World :=
  {| bridge := x; sockets := sockets w; servers := servers w; timers := timers w;
     promises := promises w; calls := calls w; logger := logger w;
     console := console w; now := now w |}.

Definition set_sockets (x : list WebSocket) (w : World) : World :=
  {| bridge := bridge w; sockets := x; servers := servers w; timers := timers w;
     promises := promises w; calls := calls w; logger := logger w;
     console := console w; now := now w |}.

Definition set_servers (x : list WebSocketServer) (w : World) : World :=
  {| bridge := bridge w; sockets := sockets w; servers := x; timers := timers w;
     promises := promises w; calls := calls w; logger := logger w;
     console := console w; now := now w |}.

Definition set_timers (x : list Timer) (w : World) : World :=
  {| bridge := bridge w; sockets := sockets w; servers := servers w; timers := x;
     promises := promises w; calls := calls w; logger := logger w;
     console := console w; now := now w |}.

Definition set_promises (x : nat) (w : World) : World :=
  {| bridge := bridge w; sockets := sockets w; servers := servers w; timers := timers w;
     promises := x; calls := calls w; logger := logger w;
     console := console w; now := now w |}.

Definition set_calls (x : list Call) (w : World) : World :=
  {| bridge := bridge w; sockets := sockets w; servers := servers w; timers := timers w;
     promises := promises w; calls := x; logger := logger w;
     console := console w; now := now w |}.

Definition set_console (x : list LogRecord) (w : World) : World :=
  {| bridge := bridge w; sockets := sockets w; servers := servers w; timers := timers w;
     promises := promises w; calls := calls w; logger := logger w;
     console := x; now := now w |}.

Definition set_now (x : N) (w : World) : World :=
  {| bridge := bridge w; sockets := sockets w; servers := servers w; timers := timers w;
     promises := promises w; calls := calls w; logger := logger w;
     console := console w; now := x |}.

(** *** Calls into the surroundings *)

(** [logger.debug], [logger.info], [logger.warn], [logger.error]. *)
Definition log (level : LogLevel) (msg : string) (data : LogData) (w : World) : World :=
  set_console (Logger.write (logger w) level msg data (console w)) w.

(** [setTimeout(cb, ms)]: a new armed timer, due [ms] after now. *)
Definition setTimeout (cb : TimeoutCallback) (ms : N) (w : World) : nat * World :=
  (length (timers w),
   set_timers (timers w ++ [{| callback := cb; delay := ms; due := now w + ms;
                               status := Armed |}]) w).

Definition disarm (st : TimerState) (t : Timer) : Timer :=
  {| callback := callback t; delay := delay t; due := due t;
     status := match status t with Armed => st | s => s end |}.

(** [clearTimeout(t)]: an armed timer will not fire; otherwise nothing. *)
Definition clearTimeout (t : nat) (w : World) : World :=
  set_timers (alter (disarm Cleared) t (timers w)) w.

(** A call of the [resolve] continuation of promise [p]. *)
Definition call_resolve (by_ : Caller) (p : nat) (result : PluginResult) (w : World) : World :=
  set_calls (calls w ++ [{| promise := p; caller := by_; outcome := Resolved result |}]) w.

(** A call of the [reject] continuation of promise [p]. *)
Definition call_reject (by_ : Caller) (p : nat) (e : JsError) (w : World) : World :=
  set_calls (calls w ++ [{| promise := p; caller := by_; outcome := Rejected e |}]) w.

Definition socket_close (ws : nat) (w : World) : World :=
  set_sockets (alter WebSocket_close ws (sockets w)) w.

Definition socket_send (ws : nat) (frame : PluginCommand) (w : World) : World :=
  set_sockets (alter (WebSocket_send frame) ws (sockets w)) w.

Definition server_close (h : nat) (w : World) : World :=
  set_servers (alter WebSocketServer_close h (servers w)) w.

(** ** [class PluginBridge] *)

(** [constructor(port: number = 9001)] *)
Definition new_PluginBridge (p : option N) : PluginBridge :=
  {| wss := None; client := None; pendingCommands := JsMap.empty;
     port := default 9001 p; isRunning := false |}.

(** The world before the first call: the bridge just constructed, the
    module logger [createLogger('plugin-bridge')], nothing else. *)
Definition boot (isDebug : bool) (p : option N) : World :=
  {| bridge := new_PluginBridge p; sockets := []; servers := []; timers := [];
     promises := 0%nat; calls := []; logger := Logger.createLogger isDebug "plugin-bridge";
     console := []; now := 0 |}.

(** [start()].  The promise it returns is settled by the handlers
    [on_listening] and [on_server_error]; it is not a pending command and
    is not recorded. *)
Definition start (w : World) : World :=
  if isRunning (bridge w) then w
  else
    let h := length (servers w) in
    let w := set_servers (servers w ++ [{| srv_port := port (bridge w);
                                           srv_closed := false |}]) w in
    set_bridge (set_wss (Some h) (bridge w)) w.

(** [wss.on('listening', ...)] *)
Definition on_listening (w : World) : World :=
  let w := set_bridge (set_isRunning true (bridge w)) w in
  log LInfo ("Plugin bridge listening on port " +:+ number_to_string (port (bridge w)))
    NoData w.

(** [wss.on('error', ...)] *)
Definition on_server_error (w : World) : World :=
  log LError "WebSocket server error" (DataError None) w.

(** [stop()] *)
Definition stop (w : World) : World :=
  let w := match wss (bridge w) with
           | Some h => set_bridge (set_wss None (bridge w)) (server_close h w)
           | None => w
           end in
  let w := set_bridge (set_client None (bridge w)) w in
  let w := set_bridge (set_isRunning false (bridge w)) w in
  let w := foldl (λ w entry,
                    let pending := entry.2 in
                    let w := clearTimeout (timeout pending) w in
                    call_reject ByStop (reject pending) (Error "Plugin bridge stopped") w)
                 w (pendingCommands (bridge w)) in
  let w := set_bridge (set_pendingCommands (JsMap.clear (pendingCommands (bridge w)))
                         (bridge w)) w in
  log LInfo "Plugin bridge stopped" NoData w.

(** [handleResponse(response)] *)
Definition handleResponse (response : PluginResponse) (w : World) : World :=
  match JsMap.get (resp_id response) (pendingCommands (bridge w)) with
  | None =>
      log LWarn ("Received response for unknown command: " +:+ resp_id response) NoData w
  | Some pending =>
      let w := clearTimeout (timeout pending) w in
      let w := set_bridge (set_pendingCommands
                             (JsMap.delete (resp_id response) (pendingCommands (bridge w)))
                             (bridge w)) w in
      match resp_success response, resp_result response with
      | true, Some result => call_resolve ByResponse (resolve pending) result w
      | _, _ =>
          call_reject ByResponse (reject pending)
            (Error (or_else (resp_error response) "Unknown plugin error")) w
      end
  end.

(** [handleConnection(ws)], without the three handlers it installs on [ws],
    which follow. *)
Definition handleConnection (ws : nat) (w : World) : World :=
  let w := match client (bridge w) with
           | Some old =>
               let w := log LWarn "New connection replacing existing client" NoData w in
               socket_close old w
           | None => w
           end in
  let w := set_bridge (set_client (Some ws) (bridge w)) w in
  log LInfo "Figma plugin connected" NoData w.

(** [ws.on('message', ...)].  [data] is the frame as [JSON.parse] sees it:
    [None] when [JSON.parse] throws, which the [catch] logs; otherwise the
    value it returns, which the handler takes to be a [PluginResponse]. *)
Definition on_message (data : option PluginResponse) (w : World) : World :=
  match data with
  | Some message => handleResponse message w
  | None => log LError "Failed to parse plugin message" (DataError None) w
  end.

(** [ws.on('close', ...)] *)
Definition on_close (ws : nat) (w : World) : World :=
  if decide (client (bridge w) = Some ws) then
    let w := set_bridge (set_client None (bridge w)) w in
    log LInfo "Figma plugin disconnected" NoData w
  else w.

(** [ws.on('error', ...)] *)
Definition on_socket_error (w : World) : World :=
  log LError "WebSocket client error" (DataError None) w.

(** [isConnected()] *)
Definition isConnected (w : World) : bool :=
  match client (bridge w) with
  | Some ws =>
      match sockets w !! ws with
      | Some s => bool_decide (readyState s = OPEN)
      | None => false
      end
  | None => false
  end.

(** The callback of the timer started by [sendCommand]. *)
Definition on_timeout (cb : TimeoutCallback) (w : World) : World :=
  let w := set_bridge (set_pendingCommands
                         (JsMap.delete (cb_id cb) (pendingCommands (bridge w)))
                         (bridge w)) w in
  call_reject ByTimeout (cb_reject cb) (PluginTimeoutError (cb_type cb) COMMAND_TIMEOUT_MS) w.

(** [sendCommand(command)].  An [async] function: a [throw] rejects the
    promise it returns, here the left result; otherwise it returns the new
    promise, here the right result.  [rnd] is the text of
    [Math.random().toString(36)] drawn by [generateId]. *)
Definition sendCommand (command : CommandInput) (rnd : string) (w : World)
    : (JsError + nat) * World :=
  if negb (isConnected w) then (inl PluginNotConnectedError, w)
  else
    let id := generateId (now w) rnd in
    let fullCommand :=
      {| cmd_type := in_type command; cmd_params := in_params command;
         cmd_id := id; cmd_timestamp := now w |} in
    let p := promises w in
    let w := set_promises (S p) w in
    let '(timeout, w) :=
      setTimeout {| cb_id := id; cb_type := in_type command; cb_reject := p |}
        COMMAND_TIMEOUT_MS w in
    let w := set_bridge (set_pendingCommands
                           (JsMap.set id {| resolve := p; reject := p; timeout := timeout |}
                              (pendingCommands (bridge w)))
                           (bridge w)) w in
    let w := match client (bridge w) with
             | Some ws => socket_send ws fullCommand w
             | None => w
             end in
    let w := log LDebug ("Sent command: " +:+ in_type command) (DataId id) w in
    (inr p, w).

(** The typed wrappers all go through [sendCommand]. *)
Definition deleteNode (nodeId rnd : string) (w : World) : (JsError + nat) * World :=
  sendCommand {| in_type := "DELETE_NODE";
                 in_params := JObject [("nodeId", JString nodeId)] |} rnd w.

Definition getSelection (rnd : string) (w : World) : (JsError + nat) * World :=
  sendCommand {| in_type := "GET_SELECTION"; in_params := JObject [] |} rnd w.

(** ** The event loop

    What can happen to a bridge: the application calls a method, the [ws]
    library emits an event on a server or a socket, a timer fires, time
    passes.  An event that has no handler, or a timer that is not due, does
    nothing. *)

Inductive Event :=
| CallStart
| CallStop
| CallSendCommand (command : CommandInput) (rnd : string)
| ServerListening (h : nat)
| ServerError (h : nat)
| ServerConnection (h : nat)
| SocketMessage (ws : nat) (data : option PluginResponse)
| SocketClose (ws : nat)
| SocketError (ws : nat)
| TimerFires (t : nat)
| Tick (ms : N).

(** A connection hands the bridge a new open socket. *)
Definition accept (w : World) : nat * World :=
  (length (sockets w),
   set_sockets (sockets w ++ [{| readyState := OPEN; outbox := []; closeCalls := 0 |}]) w).

(** The event loop runs the callback of an armed timer that is due; the
    timer is then spent. *)
Definition fire (t : nat) (w : World) : World :=
  match timers w !! t with
  | Some tm =>
      if decide (status tm = Armed) then
        if due tm <=? now w then
          on_timeout (callback tm) (set_timers (alter (disarm Fired) t (timers w)) w)
        else w
      else w
  | None => w
  end.

(** A socket whose connection has ended, before its ['close'] event. *)
Definition closed (s : WebSocket) : WebSocket :=
  {| readyState := CLOSED; outbox := outbox s; closeCalls := closeCalls s |}.

(** One turn of the event loop. *)
Definition step (w : World) (e : Event) : World :=
  match e with
  | CallStart => start w
  | CallStop => stop w
  | CallSendCommand command rnd => (sendCommand command rnd w).2
  | ServerListening h =>
      if decide (is_Some (servers w !! h)) then on_listening w else w
  | ServerError h =>
      if decide (is_Some (servers w !! h)) then on_server_error w else w
  | ServerConnection h =>
      if decide (is_Some (servers w !! h)) then
        let '(ws, w) := accept w in handleConnection ws w
      else w
  | SocketMessage ws data =>
      if decide (is_Some (sockets w !! ws)) then on_message data w else w
  | SocketClose ws =>
      if decide (is_Some (sockets w !! ws)) then
        on_close ws (set_sockets (alter closed ws (sockets w)) w)
      else w
  | SocketError ws =>
      if decide (is_Some (sockets w !! ws)) then on_socket_error w else w
  | TimerFires t => fire t w
  | Tick ms => set_now (now w + ms) w
  end.

Definition run (w : World) (es : list Event) : World := foldl step w es.

(** The worlds a bridge can be in. *)
Definition reachable (w : World) : Prop :=
  ∃ isDebug p es, w = run (boot isDebug p) es.

Local Close Scope N_scope.

(** ** Reading the log of continuation calls *)

(** The calls made so far to the continuations of promise [p]. *)
Definition settlements (p : nat) (w : World) : list Call :=
  filter (λ c, promise c = p) (calls w).

(** [isSettledBy tm c]: [c] is the one call that ends the command whose
    timer is [tm]: made by the timeout callback when the timer has fired,
    by [handleResponse] or [stop] when the timer was cleared. *)
Definition isSettledBy (tm : Timer) (c : Call) : Prop :=
  promise c = cb_reject (callback tm) ∧
  match status tm with
  | Armed => False
  | Fired =>
      caller c = ByTimeout ∧
      outcome c = Rejected (PluginTimeoutError (cb_type (callback tm)) COMMAND_TIMEOUT_MS)
  | Cleared =>
      (caller c = ByStop ∧ outcome c = Rejected (Error "Plugin bridge stopped")) ∨
      (caller c = ByResponse ∧
       ((∃ r, outcome c = Resolved r) ∨ (∃ m, outcome c = Rejected (Error m))))
  end.

(** The state every run of the bridge keeps: each [sendCommand] creates one
    promise and one timer, under the same handle; a promise has no call
    while its timer is armed and exactly one once it is not; the entries of
    the table are commands whose timers are armed. *)
Record consistent (w : World) : Prop := {
  c_alloc : length (timers w) = promises w;
  c_timer : ∀ t tm, timers w !! t = Some tm →
    cb_reject (callback tm) = t ∧ delay tm = COMMAND_TIMEOUT_MS;
  c_armed : ∀ t tm, timers w !! t = Some tm → status tm = Armed → settlements t w = [];
  c_done : ∀ t tm, timers w !! t = Some tm → status tm ≠ Armed →
    ∃ c, settlements t w = [c] ∧ isSettledBy tm c;
  c_future : ∀ p, (promises w ≤ p)%nat → settlements p w = [];
  c_table : ∀ id pe, JsMap.get id (pendingCommands (bridge w)) = Some pe →
    resolve pe = timeout pe ∧ reject pe = timeout pe ∧
    ∃ tm, timers w !! timeout pe = Some tm ∧ status tm = Armed ∧ cb_id (callback tm) = id;
  c_wf : JsMap.wf (pendingCommands (bridge w))
}.

(** Ids are not reused while pending: every armed timer belongs to the
    entry the table holds under its id. *)
Definition tracked (w : World) : Prop :=
  ∀ t tm, timers w !! t = Some tm → status tm = Armed →
    ∃ pe, JsMap.get (cb_id (callback tm)) (pendingCommands (bridge w)) = Some pe ∧
          timeout pe = t.

(** No timer is due later than one timeout window from now. *)
Definition timely (w : World) : Prop :=
  ∀ t tm, timers w !! t = Some tm → (due tm ≤ now w + COMMAND_TIMEOUT_MS)%N.

(** [sendCommand] draws an id that no pending entry holds. *)
Definition fresh_event (w : World) (e : Event) : Prop :=
  match e with
  | CallSendCommand _ rnd =>
      JsMap.get (generateId (now w) rnd) (pendingCommands (bridge w)) = None
  | _ => True
  end.

(** A run in which no id is drawn while an entry still holds it. *)
Fixpoint fresh_run (w : World) (es : list Event) : Prop :=
  match es with
  | [] => True
  | e :: es' => fresh_event w e ∧ fresh_run (step w e) es'
  end.

(** ** Auxiliary notions used in the statements and proofs *)

(** The part of the world the invariant reads. *)
Definition core (w : World) :=
  (pendingCommands (bridge w), timers w, promises w, calls w).

(** The world with another table. *)
Definition with_pending (m : JsMap.t PendingCommand) (w : World) : World :=
  set_bridge (set_pendingCommands m (bridge w)) w.

(** What a response asks for: resolve with its result, or reject. *)
Definition response_outcome (response : PluginResponse) : Outcome :=
  match resp_success response, resp_result response with
  | true, Some result => Resolved result
  | _, _ => Rejected (Error (or_else (resp_error response) "Unknown plugin error"))
  end.

(** What [sendCommand] does when a peer is connected. *)
Definition registered (command : CommandInput) (rnd : string) (w : World) : World :=
  let id := generateId (now w) rnd in
  let p := promises w in
  let t := length (timers w) in
  with_pending
    (JsMap.set id {| resolve := p; reject := p; timeout := t |} (pendingCommands (bridge w)))
    (set_timers
       (timers w ++ [{| callback := {| cb_id := id; cb_type := in_type command;
                                       cb_reject := p |};
                        delay := COMMAND_TIMEOUT_MS;
                        due := (now w + COMMAND_TIMEOUT_MS)%N;
                        status := Armed |}])
       (set_promises (S p) w)).

(** The body of the loop of [stop]. *)
Definition drain_step (w : World) (entry : string * PendingCommand) : World :=
  call_reject ByStop (reject entry.2) (Error "Plugin bridge stopped")
    (clearTimeout (timeout entry.2) w).

(** The call [stop] makes for an entry of the table. *)
Definition stop_call (pe : PendingCommand) : Call :=
  {| promise := reject pe; caller := ByStop;
     outcome := Rejected (Error "Plugin bridge stopped") |}.

(** A timer keeps its callback, its delay and its due time; once it is not
    armed its status stays. *)
Definition ages (tm tm' : Timer) : Prop :=
  callback tm' = callback tm ∧ delay tm' = delay tm ∧ due tm' = due tm ∧
  (status tm ≠ Armed → status tm' = status tm).

(** Nothing that could end the command with id [id] and promise [p]: no
    [stop], no response bearing [id], its timer not fired. *)
Definition quiet (id : string) (p : nat) (e : Event) : Prop :=
  match e with
  | CallStop => False
  | TimerFires t => t ≠ p
  | SocketMessage _ (Some r) => resp_id r ≠ id
  | _ => True
  end.

(** One timeout window passes and every timer that is still armed fires. *)
Definition expire (w : World) : World :=
  run w (Tick COMMAND_TIMEOUT_MS :: (TimerFires <$> seq 0 (length (timers w)))).

(** Every timer is due. *)
Definition overdue (w : World) : Prop :=
  ∀ t tm, timers w !! t = Some tm → (due tm ≤ now w)%N.

(** The client is a socket the bridge was handed. *)
Definition client_valid (w : World) : Prop :=
  ∀ ws, client (bridge w) = Some ws → (ws < length (sockets w))%nat.

(** The call [handleResponse] makes for a response whose id is pending. *)
Definition response_call (response : PluginResponse) (pe : PendingCommand) : Call :=
  match resp_success response, resp_result response with
  | true, Some result =>
      {| promise := resolve pe; caller := ByResponse; outcome := Resolved result |}
  | _, _ =>
      {| promise := reject pe; caller := ByResponse;
         outcome := Rejected (Error (or_else (resp_error response) "Unknown plugin error")) |}
  end.

(** [part] occurs in [whole]. *)
Definition contains (part whole : string) : Prop :=
  ∃ before after, whole = before +:+ part +:+ after.

(** * Around the bridge *)

(** ** More of [lib/utils.ts] *)

(** [truncate(str, maxLength)], for an integer [maxLength].  The end of
    [substring] is clamped at 0 when [maxLength - 3] is negative. *)
Definition truncate (str : string) (maxLength : Z) : string :=
  if (Z.of_nat (String.length str) <=? maxLength)%Z then str
  else js_substring 0 (Z.to_nat (maxLength - 3)) str +:+ "...".

(** Every character of [s] is in the class [P]. *)
Fixpoint string_forall (P : Ascii.ascii → bool) (s : string) : bool :=
  match s with
  | String c s' => P c && string_forall P s'
  | EmptyString => true
  end.

(** The character class [[0-9]]. *)
Definition isDigit (c : Ascii.ascii) : bool :=
  let n := Ascii.nat_of_ascii c in ((48 <=? n) && (n <=? 57))%nat.

(** The character class [[a-zA-Z0-9]]. *)
Definition isAlnum (c : Ascii.ascii) : bool :=
  let n := Ascii.nat_of_ascii c in
  ((48 <=? n) && (n <=? 57) || (65 <=? n) && (n <=? 90) || (97 <=? n) && (n <=? 122))%nat.

(** The longest run of [[a-zA-Z0-9]] at the start of [s]: what the greedy
    [[a-zA-Z0-9]+] takes. *)
Fixpoint alnum_run (s : string) : string :=
  match s with
  | String c s' => if isAlnum c then String c (alnum_run s') else EmptyString
  | EmptyString => EmptyString
  end.

(** [s] without the literal text [lit] at its start, when it starts with it. *)
Fixpoint strip_literal (lit s : string) : option string :=
  match lit, s with
  | EmptyString, _ => Some s
  | String c lit', String d s' => if decide (c = d) then strip_literal lit' s' else None
  | String _ _, EmptyString => None
  end.

(** The regular expression [/lit([a-zA-Z0-9]+)/] tried at the start of
    [s]: the capture group, when it matches there. *)
Definition match_here (lit s : string) : option string :=
  match strip_literal lit s with
  | Some rest =>
      match alnum_run rest with
      | EmptyString => None
      | key => Some key
      end
  | None => None
  end.

(** [s.match(/lit([a-zA-Z0-9]+)/)]: the first position of [s], from the
    left, where the expression matches; the result is [match[1]]. *)
Fixpoint regex_search (lit s : string) : option string :=
  match match_here lit s with
  | Some key => Some key
  | None =>
      match s with
      | String _ s' => regex_search lit s'
      | EmptyString => None
      end
  end.

(** The literal parts of the two [patterns] of [extractFileKeyFromUrl]. *)
Definition patterns : list string := ["figma.com/file/"; "figma.com/design/"].

(** The loop over the patterns: the first pattern that matches decides. *)
Fixpoint first_match (ps : list string) (url : string) : option string :=
  match ps with
  | [] => None
  | pattern :: ps' =>
      match regex_search pattern url with
      | Some key => Some key
      | None => first_match ps' url
      end
  end.

(** [extractFileKeyFromUrl(url)] *)
Definition extractFileKeyFromUrl (url : string) : option string :=
  first_match patterns url.

(** The options of [retry]; a field left out is [None]. *)
Record RetryOptions := {
  maxAttempts : option nat;
  delayMs : option Z;
  backoff : option bool
}.

(** What one call of [retry] did: what it returned ([inr]) or threw
    ([inl]; [lastError] is [undefined], here [None], when [fn] was never
    called), how often it called [fn], and the delays it slept, in order. *)
Record RetryRun (E T : Type) := {
  rr_result : option E + T;
  rr_calls : nat;
  rr_sleeps : list Z
}.
Global Arguments rr_result {E T} _.
Global Arguments rr_calls {E T} _.
Global Arguments rr_sleeps {E T} _.

(** The loop of [retry], from [attempt] on, with [remaining] attempts left
    ([attempt + remaining = maxAttempts + 1]).  [fn k] is what the [k]-th
    call of [fn] does: it throws ([inl]) or returns ([inr]).  The options
    are whole numbers, as the callers pass: [maxAttempts] a count from 0
    on, [delayMs] an integer; the delay with backoff is the exact product,
    which is the product JavaScript computes as long as it stays within
    2^53. *)
Fixpoint retry_loop {E T} (fn : nat → E + T) (maxAttempts : nat) (delayMs : Z)
    (backoff : bool) (remaining attempt : nat) (lastError : option E) : RetryRun E T :=
  match remaining with
  | O => {| rr_result := inl lastError; rr_calls := 0; rr_sleeps := [] |}
  | S remaining' =>
      if (attempt <=? maxAttempts)%nat then
        match fn attempt with
        | inr value => {| rr_result := inr value; rr_calls := 1; rr_sleeps := [] |}
        | inl error =>
            let slept :=
              if (attempt <? maxAttempts)%nat then
                [if backoff then (delayMs * Z.of_nat attempt)%Z else delayMs]
              else [] in
            let rest := retry_loop fn maxAttempts delayMs backoff remaining' (S attempt)
                          (Some error) in
            {| rr_result := rr_result rest; rr_calls := S (rr_calls rest);
               rr_sleeps := slept ++ rr_sleeps rest |}
        end
      else {| rr_result := inl lastError; rr_calls := 0; rr_sleeps := [] |}
  end.

(** The delay [retry] sleeps after the failed attempt number [attempt]. *)
Definition retry_delay (delayMs : Z) (backoff : bool) (attempt : nat) : Z :=
  if backoff then (delayMs * Z.of_nat attempt)%Z else delayMs.

(** [retry(fn, options)] *)
Definition retry {E T} (fn : nat → E + T) (options : RetryOptions) : RetryRun E T :=
  let n := default 3%nat (maxAttempts options) in
  retry_loop fn n (default 1000%Z (delayMs options)) (default true (backoff options))
    n 1 None.

(** [requestWithRetry] of [services/figma-api/client.ts]; [request k] is
    what the [k]-th call of [this.request] does. *)
Definition requestWithRetry {E T} (request : nat → E + T) : RetryRun E T :=
  retry request {| maxAttempts := Some 3%nat; delayMs := Some 1000%Z; backoff := Some true |}.

(** ** [lib/config.ts] *)

(** [process.env] *)
Abbreviation Env := (gmap string string).

(** [getEnvOrThrow(key)]: an unset or empty variable throws. *)
Definition getEnvOrThrow (key : string) (env : Env) : JsError + string :=
  match env !! key with
  | Some value =>
      if decide (value = "") then
        inl (Error ("Missing required environment variable: " +:+ key))
      else inr value
  | None => inl (Error ("Missing required environment variable: " +:+ key))
  end.

(** [getEnvOrDefault(key, defaultValue)] *)
Definition getEnvOrDefault (key defaultValue : string) (env : Env) : string :=
  or_else (env !! key) defaultValue.

(** [c.toLowerCase()] on a character of the model, a code unit below 256:
    A-Z, and the capital letters of Latin-1 (all of 192..222 but the
    multiplication sign 215). *)
Definition lower (c : Ascii.ascii) : Ascii.ascii :=
  let n := Ascii.nat_of_ascii c in
  if ((65 <=? n) && (n <=? 90) || (192 <=? n) && (n <=? 222) && negb (n =? 215))%nat
  then Ascii.ascii_of_nat (n + 32) else c.

Fixpoint toLowerCase (s : string) : string :=
  match s with
  | String c s' => String (lower c) (toLowerCase s')
  | EmptyString => EmptyString
  end.

(** [getEnvBool(key, defaultValue)] *)
Definition getEnvBool (key : string) (defaultValue : bool) (env : Env) : bool :=
  match env !! key with
  | Some value =>
      if decide (value = "") then defaultValue
      else bool_decide (toLowerCase value = "true") || bool_decide (value = "1")
  | None => defaultValue
  end.

(** The white space [parseInt] skips, among the code units below 256:
    tab, the line terminators, space and the no-break space. *)
Definition isWhiteSpace (c : Ascii.ascii) : bool :=
  let n := Ascii.nat_of_ascii c in
  ((9 <=? n) && (n <=? 13) || (n =? 32) || (n =? 160))%nat.

Fixpoint skip_white_space (s : string) : string :=
  match s with
  | String c s' => if isWhiteSpace c then skip_white_space s' else s
  | EmptyString => EmptyString
  end.

Fixpoint digit_run (s : string) : string :=
  match s with
  | String c s' => if isDigit c then String c (digit_run s') else EmptyString
  | EmptyString => EmptyString
  end.

(** [parseInt(s, 10)]: leading white space, a sign, then the digits up to
    the first other character; [None] is [NaN].  The value is the integer
    the digits denote (which a JavaScript number holds exactly below 2^53). *)
Definition parseInt (s : string) : option Z :=
  let s := skip_white_space s in
  let '(sign, s) :=
    match s with
    | String "-"%char s' => ((-1)%Z, s')
    | String "+"%char s' => (1%Z, s')
    | _ => (1%Z, s)
    end in
  match NilZero.uint_of_string (digit_run s) with
  | Some d => Some (sign * Z.of_N (N.of_uint d))%Z
  | None => None
  end.

(** [getEnvNumber(key, defaultValue)] *)
Definition getEnvNumber (key : string) (defaultValue : Z) (env : Env) : Z :=
  match env !! key with
  | Some value =>
      if decide (value = "") then defaultValue
      else default defaultValue (parseInt value)
  | None => defaultValue
  end.

Record Config := {
  figmaAccessToken : string;
  pluginBridgePort : Z;
  debug : bool;
  captureDir : string
}.

(** [getConfig()]: [config] is the module variable that caches the result;
    the new value of the variable is returned with the result. *)
Definition getConfig (config : option Config) (env : Env)
    : (JsError + Config) * option Config :=
  match config with
  | Some c => (inr c, config)
  | None =>
      match getEnvOrThrow "FIGMA_ACCESS_TOKEN" env with
      | inl e => (inl e, None)
      | inr token =>
          let c := {| figmaAccessToken := token;
                      pluginBridgePort := getEnvNumber "PLUGIN_BRIDGE_PORT" 9001 env;
                      debug := getEnvBool "DEBUG" false env;
                      captureDir := getEnvOrDefault "CAPTURE_DIR" "./captures" env |} in
          (inr c, Some c)
      end
  end.

(** [isDebug()] *)
Definition isDebug (config : option Config) (env : Env) : (JsError + bool) * option Config :=
  match getConfig config env with
  | (inr c, config') => (inr (debug c), config')
  | (inl e, config') => (inl e, config')
  end.

(** The module-level [logger] of [lib/logger.ts], made when the module is
    loaded under the environment [env]. *)
Definition module_logger (env : Env) : Logger.t :=
  Logger.root (bool_decide (env !! "DEBUG" = Some "true")).

(** ** The methods of the bridge that wrap [sendCommand] *)

Inductive BridgeMethod :=
| CreateFrame (params : Json)
| CreateRectangle (params : Json)
| CreateText (params : Json)
| CreateEllipse (params : Json)
| UpdateNode (params : Json)
| DeleteNode (nodeId : string)
| SetFills (params : Json)
| SetStrokes (params : Json)
| SetEffects (params : Json)
| ApplyAutoLayout (params : Json)
| GroupNodes (params : Json)
| GetSelection
| SetSelection (nodeIds : list string)
| GetCurrentPage
| CreatePage (name : string).

(** The argument each method passes to [sendCommand]. *)
Definition command_of (m : BridgeMethod) : CommandInput :=
  match m with
  | CreateFrame params => {| in_type := "CREATE_FRAME"; in_params := params |}
  | CreateRectangle params => {| in_type := "CREATE_RECTANGLE"; in_params := params |}
  | CreateText params => {| in_type := "CREATE_TEXT"; in_params := params |}
  | CreateEllipse params => {| in_type := "CREATE_ELLIPSE"; in_params := params |}
  | UpdateNode params => {| in_type := "UPDATE_NODE"; in_params := params |}
  | DeleteNode nodeId =>
      {| in_type := "DELETE_NODE"; in_params := JObject [("nodeId", JString nodeId)] |}
  | SetFills params => {| in_type := "SET_FILLS"; in_params := params |}
  | SetStrokes params => {| in_type := "SET_STROKES"; in_params := params |}
  | SetEffects params => {| in_type := "SET_EFFECTS"; in_params := params |}
  | ApplyAutoLayout params => {| in_type := "APPLY_AUTO_LAYOUT"; in_params := params |}
  | GroupNodes params => {| in_type := "GROUP_NODES"; in_params := params |}
  | GetSelection => {| in_type := "GET_SELECTION"; in_params := JObject [] |}
  | SetSelection nodeIds =>
      {| in_type := "SET_SELECTION";
         in_params := JObject [("nodeIds", JArray (JString <$> nodeIds))] |}
  | GetCurrentPage => {| in_type := "GET_CURRENT_PAGE"; in_params := JObject [] |}
  | CreatePage name =>
      {| in_type := "CREATE_PAGE"; in_params := JObject [("name", JString name)] |}
  end.

Definition invoke (m : BridgeMethod) (rnd : string) (w : World) : (JsError + nat) * World :=
  sendCommand (command_of m) rnd w.

(** ** The peer: [handleCommand] of [plugin/code.ts] *)

(** The cases of the [switch] of [executeCommand]. *)
Definition plugin_command_types : list string :=
  ["CREATE_FRAME"; "CREATE_RECTANGLE"; "CREATE_ELLIPSE"; "CREATE_TEXT"; "CREATE_LINE";
   "UPDATE_NODE"; "DELETE_NODE"; "SET_FILLS"; "SET_STROKES"; "SET_EFFECTS";
   "APPLY_AUTO_LAYOUT"; "GROUP_NODES"; "GET_SELECTION"; "SET_SELECTION";
   "GET_CURRENT_PAGE"; "CREATE_PAGE"; "MOVE_NODE"; "RESIZE_NODE"; "CLONE_NODE"].

(** [executeCommand(command)].  The handlers work on the document through
    the host's API; [handlers type params] is what the handler of [type]
    does with [params]: it returns its result object ([inr]) or throws
    ([inl], with the text of the error). *)
Definition executeCommand (handlers : string → Json → string + PluginResult)
    (command : PluginCommand) : string + PluginResult :=
  if decide (cmd_type command ∈ plugin_command_types) then
    handlers (cmd_type command) (cmd_params command)
  else inl ("Unknown command type: " +:+ cmd_type command).

(** [handleCommand(command)] *)
Definition handleCommand (handlers : string → Json → string + PluginResult)
    (command : PluginCommand) : PluginResponse :=
  match executeCommand handlers command with
  | inr result =>
      {| resp_id := cmd_id command; resp_success := true;
         resp_result := Some result; resp_error := None |}
  | inl text =>
      {| resp_id := cmd_id command; resp_success := false;
         resp_result := None; resp_error := Some text |}
  end.

(** ** How a failed tool call is reported: [formatErrorForMcp] of
    [lib/errors.ts] and the [catch] of the tool handlers of [server.ts] *)

(** [formatErrorForMcp(error)] for a thrown [Error] object made by one of
    the constructors of [lib/errors.ts] or by [new Error], as a pair of
    [code] and [message].  Such an error is an instance of [FigmadError]
    exactly when it has a [code]: the constructor of [FigmadError] sets it,
    and [new Error] sets none.  (An [Error] given a [code] by hand, and a
    thrown value that is not an [Error], are outside the model.) *)
Definition formatErrorForMcp (error : JsError) : string * string :=
  match code error with
  | Some c => (c, message error)
  | None => ("UNKNOWN_ERROR", message error)
  end.

(** The text a tool handler returns, with [isError], when the tool threw
    [error]. *)
Definition tool_error_text (error : JsError) : string :=
  let '(code, message) := formatErrorForMcp error in
  "Error [" +:+ code +:+ "]: " +:+ message.

(** What a call of [reject] made by the bridge looks like to the caller of
    a tool, by the place in the bridge that made it. *)
Definition reported_by_cause (c : Call) : Prop :=
  match outcome c with
  | Resolved _ => True
  | Rejected e =>
      match caller c with
      | ByTimeout =>
          ∃ commandType,
            tool_error_text e =
            "Error [PLUGIN_BRIDGE_ERROR]: Plugin command '" +:+ commandType +:+
            "' timed out after 30000ms"
      | ByResponse =>
          ∃ text, text ≠ "" ∧ tool_error_text e = "Error [UNKNOWN_ERROR]: " +:+ text
      | ByStop => tool_error_text e = "Error [UNKNOWN_ERROR]: Plugin bridge stopped"
      end
  end.

(** * Properties *)

(** ** Facts about [JsMap] *)

Module JsMapFacts.
Section jsmap.
Context {V : Type}.
Implicit Types (m : JsMap.t V) (k : string) (v : V).
Import JsMap.

Lemma get_set_eq k v m : get k (set k v m) = Some v.
Proof.
  induction m as [|[k' v'] m IH]; simpl.
  - by rewrite decide_True.
  - destruct (decide (k' = k)) as [->|Hne]; simpl.
    + by rewrite decide_True.
    + by rewrite decide_False.
Qed.

Lemma get_set_ne k k' v m : k ≠ k' → get k' (set k v m) = get k' m.
Proof.
  intros Hne. induction m as [|[k0 v0] m IH]; simpl.
  - by rewrite decide_False.
  - destruct (decide (k0 = k)) as [->|Hk]; simpl.
    + by rewrite !decide_False.
    + destruct (decide (k0 = k')); [done | apply IH].
Qed.

Lemma get_delete_eq k m : get k (delete k m) = None.
Proof.
  induction m as [|[k' v'] m IH]; simpl; [done|].
  destruct (decide (k' = k)) as [->|Hne]; simpl; [done|].
  by rewrite decide_False.
Qed.

Lemma get_delete_ne k k' m : k ≠ k' → get k' (delete k m) = get k' m.
Proof.
  intros Hne. induction m as [|[k0 v0] m IH]; simpl; [done|].
  destruct (decide (k0 = k)) as [->|Hk]; simpl.
  - by rewrite decide_False.
  - destruct (decide (k0 = k')); [done | apply IH].
Qed.

Lemma get_delete_Some k k' v m : get k' (delete k m) = Some v → k ≠ k' ∧ get k' m = Some v.
Proof.
  intros H. destruct (decide (k = k')) as [->|Hne].
  - by rewrite get_delete_eq in H.
  - by rewrite get_delete_ne in H.
Qed.

Lemma delete_absent k m : get k m = None → delete k m = m.
Proof.
  induction m as [|[k' v'] m IH]; simpl; [done|].
  destruct (decide (k' = k)); [done|]. intros H. by rewrite IH.
Qed.

Lemma delete_comm k k' m : delete k (delete k' m) = delete k' (delete k m).
Proof.
  induction m as [|[k0 v0] m IH]; simpl; [done|].
  destruct (decide (k0 = k')) as [E1|H1], (decide (k0 = k)) as [E2|H2];
    simpl; subst; rewrite ?decide_True, ?decide_False by done; try done.
  by rewrite IH.
Qed.

Lemma get_Some_elem_of k v m : get k m = Some v → (k, v) ∈ m.
Proof.
  induction m as [|[k' v'] m IH]; simpl; [done|].
  destruct (decide (k' = k)) as [->|Hne].
  - intros [= ->]. left.
  - intros H. right. by apply IH.
Qed.

Lemma elem_of_get k v m : wf m → (k, v) ∈ m → get k m = Some v.
Proof.
  unfold wf, keys. induction m as [|[k' v'] m IH]; simpl.
  - by intros _ ?%elem_of_nil.
  - rewrite NoDup_cons. intros [Hnin Hnd] [[= -> ->]|Hin]%elem_of_cons.
    + by rewrite decide_True.
    + rewrite decide_False; [by apply IH|].
      intros ->. apply Hnin. apply list_elem_of_fmap. by exists (k, v).
Qed.

Lemma keys_set_absent k v m : get k m = None → set k v m = m ++ [(k, v)].
Proof.
  induction m as [|[k' v'] m IH]; simpl; [done|].
  destruct (decide (k' = k)); [done|]. intros H. by rewrite IH.
Qed.

Lemma elem_of_keys_get k m : k ∈ keys m ↔ is_Some (get k m).
Proof.
  unfold keys. induction m as [|[k' v'] m IH]; simpl.
  - split; [by intros ?%elem_of_nil | by intros [? ?]].
  - rewrite elem_of_cons. destruct (decide (k' = k)) as [->|Hne].
    + split; [by eexists | by left].
    + rewrite <- IH. split; [intros [?|?]; [congruence|done] | by right].
Qed.

Lemma keys_set_present k v m : is_Some (get k m) → keys (set k v m) = keys m.
Proof.
  unfold keys. induction m as [|[k' v'] m IH]; simpl.
  - by intros [? ?].
  - destruct (decide (k' = k)); [done|]. intros H. rewrite fmap_cons. f_equal. by apply IH.
Qed.

Lemma wf_empty : wf (@empty V).
Proof. constructor. Qed.

Lemma wf_set k v m : wf m → wf (set k v m).
Proof.
  unfold wf. intros Hwf. destruct (get k m) as [v0|] eqn:E.
  - by rewrite keys_set_present.
  - rewrite keys_set_absent by done. unfold keys in *. rewrite fmap_app. simpl.
    apply NoDup_app. split_and!; [done | | apply NoDup_singleton].
    intros x Hx ->%list_elem_of_singleton.
    apply elem_of_keys_get in Hx. rewrite E in Hx. by destruct Hx.
Qed.

Lemma keys_delete_sub k k' m : k' ∈ keys (delete k m) → k' ∈ keys m.
Proof.
  rewrite !elem_of_keys_get. intros [v H]. apply get_delete_Some in H as [_ H]. by eexists.
Qed.

Lemma wf_delete k m : wf m → wf (delete k m).
Proof.
  unfold wf, keys. induction m as [|[k' v'] m IH]; simpl; [done|].
  rewrite NoDup_cons. intros [Hnin Hnd].
  destruct (decide (k' = k)); [by apply IH|]. simpl.
  apply NoDup_cons. split; [|by apply IH].
  intros Hin. apply Hnin. by apply (keys_delete_sub k).
Qed.

End jsmap.
End JsMapFacts.

(** ** Basic facts *)

Lemma settlements_snoc p w c :
  filter (λ c, promise c = p) (calls w ++ [c]) =
  settlements p w ++ (if decide (promise c = p) then [c] else []).
Proof.
  unfold settlements. by rewrite filter_app.
Qed.

Lemma settlements_call_reject by_ q e p w :
  settlements p (call_reject by_ q e w) =
  settlements p w ++
    (if decide (q = p) then [{| promise := q; caller := by_; outcome := Rejected e |}] else []).
Proof. unfold settlements at 1. simpl. by rewrite settlements_snoc. Qed.

Lemma settlements_call_resolve by_ q r p w :
  settlements p (call_resolve by_ q r w) =
  settlements p w ++
    (if decide (q = p) then [{| promise := q; caller := by_; outcome := Resolved r |}] else []).
Proof. unfold settlements at 1. simpl. by rewrite settlements_snoc. Qed.

Lemma disarm_status st tm : st ≠ Armed → status (disarm st tm) ≠ Armed.
Proof. unfold disarm. simpl. by destruct (status tm). Qed.

Lemma disarm_armed st tm : status tm = Armed → status (disarm st tm) = st.
Proof. unfold disarm. simpl. by intros ->. Qed.

Lemma disarm_not_armed st tm : status tm ≠ Armed → disarm st tm = tm.
Proof. unfold disarm. destruct tm as [cb d du s]. simpl. by destruct s. Qed.

Lemma consistent_core w w' : core w = core w' → consistent w → consistent w'.
Proof.
  unfold core. intros [= Hp Ht Hn Hc] [].
  split; unfold settlements in *; rewrite <- ?Hp, <- ?Ht, <- ?Hn, <- ?Hc; done.
Qed.

Lemma tracked_core w w' : core w = core w' → tracked w → tracked w'.
Proof.
  unfold core, tracked. intros [= Hp Ht Hn Hc] H. rewrite <- Hp, <- Ht. done.
Qed.

Lemma consistent_boot isDebug p : consistent (boot isDebug p).
Proof.
  split; simpl; try done.
  apply JsMapFacts.wf_empty.
Qed.

(** ** The invariant is kept by every method and handler *)

Lemma with_pending_id w : with_pending (pendingCommands (bridge w)) w = w.
Proof. by destruct w as [[] ? ? ? ? ? ? ? ?]. Qed.

Lemma consistent_settle w w' t tm c st :
  consistent w →
  timers w !! t = Some tm → status tm = Armed → st ≠ Armed →
  timers w' = alter (disarm st) t (timers w) →
  promises w' = promises w →
  calls w' = calls w ++ [c] →
  isSettledBy (disarm st tm) c →
  (∀ id pe, JsMap.get id (pendingCommands (bridge w')) = Some pe →
     JsMap.get id (pendingCommands (bridge w)) = Some pe ∧ id ≠ cb_id (callback tm)) →
  JsMap.wf (pendingCommands (bridge w')) →
  consistent w'.
Proof.
  intros Hw Ht Harmed Hst Htimers Hprom Hcalls Hc Htable Hwf.
  assert (Hpc : promise c = t).
  { destruct Hc as [-> _]. simpl. by apply (c_timer _ Hw). }
  assert (Hsett : ∀ p, settlements p w' =
            settlements p w ++ (if decide (t = p) then [c] else [])).
  { intros p. unfold settlements at 1. rewrite Hcalls, settlements_snoc, Hpc. done. }
  split.
  - rewrite Htimers, length_alter, Hprom. apply Hw.
  - intros t' tm'. rewrite Htimers. destruct (decide (t = t')) as [<-|Hne].
    + rewrite list_lookup_alter_eq, Ht. intros [= <-]. simpl. by apply (c_timer _ Hw).
    + rewrite list_lookup_alter_ne by done. apply (c_timer _ Hw).
  - intros t' tm'. rewrite Htimers, Hsett. destruct (decide (t = t')) as [<-|Hne].
    + rewrite list_lookup_alter_eq, Ht. intros [= <-] Hs.
      by apply (disarm_status st tm) in Hs.
    + rewrite list_lookup_alter_ne by done. intros H1 H2.
      rewrite (c_armed _ Hw _ _ H1 H2). done.
  - intros t' tm'. rewrite Htimers, Hsett. destruct (decide (t = t')) as [<-|Hne].
    + rewrite list_lookup_alter_eq, Ht. intros [= <-] _.
      exists c. by rewrite (c_armed _ Hw _ _ Ht Harmed).
    + rewrite list_lookup_alter_ne by done. intros H1 H2.
      destruct (c_done _ Hw _ _ H1 H2) as (c' & -> & ?). exists c'. by rewrite app_nil_r.
  - intros p. rewrite Hprom, Hsett. intros Hp. rewrite (c_future _ Hw _ Hp).
    apply lookup_lt_Some in Ht. rewrite (c_alloc _ Hw) in Ht.
    rewrite decide_False by lia. done.
  - intros id pe [Hget Hid]%Htable.
    destruct (c_table _ Hw _ _ Hget) as (? & ? & tm' & Htm' & Ha & Hcb).
    split; [done|]. split; [done|]. exists tm'. split; [|done].
    rewrite Htimers, list_lookup_alter_ne; [done|].
    intros E. rewrite <- E, Ht in Htm'. injection Htm' as <-. congruence.
  - done.
Qed.

Lemma handleResponse_pending response w pe :
  JsMap.get (resp_id response) (pendingCommands (bridge w)) = Some pe →
  resolve pe = reject pe →
  handleResponse response w =
  set_calls (calls w ++ [{| promise := reject pe; caller := ByResponse;
                            outcome := response_outcome response |}])
    (with_pending (JsMap.delete (resp_id response) (pendingCommands (bridge w)))
       (clearTimeout (timeout pe) w)).
Proof.
  intros Hget Hres. unfold handleResponse, response_outcome. rewrite Hget.
  destruct (resp_success response), (resp_result response);
    unfold call_resolve, call_reject; rewrite ?Hres; done.
Qed.

Lemma handleResponse_unknown response w :
  JsMap.get (resp_id response) (pendingCommands (bridge w)) = None →
  handleResponse response w =
  log LWarn ("Received response for unknown command: " +:+ resp_id response) NoData w.
Proof. intros Hget. unfold handleResponse. by rewrite Hget. Qed.

Lemma consistent_handleResponse response w : consistent w → consistent (handleResponse response w).
Proof.
  intros Hw.
  destruct (JsMap.get (resp_id response) (pendingCommands (bridge w))) as [pe|] eqn:Hget.
  2: { rewrite handleResponse_unknown by done. by apply (consistent_core w). }
  destruct (c_table _ Hw _ _ Hget) as (Hres & Hrej & tm & Htm & Harmed & Hid).
  rewrite (handleResponse_pending _ _ pe) by congruence.
  eapply (consistent_settle w _ (timeout pe) tm _ Cleared Hw Htm Harmed); try done.
  - split; simpl.
    + rewrite (proj1 (c_timer _ Hw _ _ Htm)). done.
    + rewrite Harmed. right. split; [done|].
      unfold response_outcome.
      destruct (resp_success response), (resp_result response); simpl; eauto.
  - simpl. intros id pe' [Hne H]%JsMapFacts.get_delete_Some. split; [done|]. congruence.
  - simpl. apply JsMapFacts.wf_delete, Hw.
Qed.

Lemma fire_armed t tm w :
  timers w !! t = Some tm → status tm = Armed → (due tm <=? now w)%N = true →
  fire t w =
  set_calls (calls w ++ [{| promise := cb_reject (callback tm); caller := ByTimeout;
                            outcome := Rejected (PluginTimeoutError (cb_type (callback tm))
                                                   COMMAND_TIMEOUT_MS) |}])
    (with_pending (JsMap.delete (cb_id (callback tm)) (pendingCommands (bridge w)))
       (set_timers (alter (disarm Fired) t (timers w)) w)).
Proof.
  intros Ht Ha Hd. unfold fire. rewrite Ht, decide_True, Hd by done. done.
Qed.

Lemma fire_idle t w :
  (∀ tm, timers w !! t = Some tm → status tm = Armed → (due tm <=? now w)%N = false) →
  fire t w = w.
Proof.
  intros H. unfold fire. destruct (timers w !! t) as [tm|] eqn:Ht; [|done].
  destruct (decide (status tm = Armed)); [|done]. by rewrite H.
Qed.

Lemma consistent_fire t w : consistent w → consistent (fire t w).
Proof.
  intros Hw. unfold fire.
  destruct (timers w !! t) as [tm|] eqn:Ht; [|done].
  destruct (decide (status tm = Armed)) as [Ha|]; [|done].
  destruct (due tm <=? now w)%N eqn:Hd; [|done].
  eapply (consistent_settle w _ t tm _ Fired Hw Ht Ha); try done.
  - split; simpl; [done|]. by rewrite Ha.
  - simpl. intros id pe' [Hne H]%JsMapFacts.get_delete_Some. done.
  - simpl. apply JsMapFacts.wf_delete, Hw.
Qed.

Lemma sendCommand_connected command rnd w :
  isConnected w = true →
  ∃ ws, client (bridge w) = Some ws ∧
    sendCommand command rnd w =
    (inr (promises w),
     log LDebug ("Sent command: " +:+ in_type command) (DataId (generateId (now w) rnd))
       (socket_send ws {| cmd_type := in_type command; cmd_params := in_params command;
                          cmd_id := generateId (now w) rnd; cmd_timestamp := now w |}
          (registered command rnd w))).
Proof.
  intros Hc. unfold sendCommand. rewrite Hc. simpl.
  unfold isConnected in Hc. destruct (client (bridge w)) as [ws|] eqn:E; [|done].
  exists ws. done.
Qed.

Lemma sendCommand_not_connected command rnd w :
  isConnected w = false → sendCommand command rnd w = (inl PluginNotConnectedError, w).
Proof. intros Hc. unfold sendCommand. by rewrite Hc. Qed.

Lemma consistent_registered command rnd w : consistent w → consistent (registered command rnd w).
Proof.
  intros Hw. pose proof (c_alloc _ Hw) as Hlen.
  set (id := generateId (now w) rnd).
  split; simpl.
  - rewrite length_app. simpl. lia.
  - intros t tm [[_ H]|[-> <-]]%lookup_snoc_Some; [by apply Hw|]. simpl. by rewrite Hlen.
  - intros t tm [[_ H]|[-> <-]]%lookup_snoc_Some ?.
    + by apply (c_armed _ Hw t tm).
    + apply (c_future _ Hw). lia.
  - intros t tm [[_ H]|[-> <-]]%lookup_snoc_Some; [by apply Hw|]. done.
  - intros p Hp. apply (c_future _ Hw). lia.
  - intros id' pe. destruct (decide (id = id')) as [<-|Hne].
    + fold id. rewrite JsMapFacts.get_set_eq. intros [= <-]. simpl.
      split; [done|]. split; [done|]. eexists. split.
      * rewrite lookup_app_r by done. rewrite Nat.sub_diag. reflexivity.
      * done.
    + fold id. rewrite JsMapFacts.get_set_ne by done. intros H.
      destruct (c_table _ Hw _ _ H) as (? & ? & tm & Htm & ? & ?).
      split; [done|]. split; [done|]. exists tm. split; [|done].
      by apply lookup_app_l_Some.
  - apply JsMapFacts.wf_set, Hw.
Qed.

Lemma consistent_sendCommand command rnd w :
  consistent w → consistent (sendCommand command rnd w).2.
Proof.
  intros Hw. destruct (isConnected w) eqn:Hc.
  - destruct (sendCommand_connected command rnd w Hc) as (ws & _ & ->). simpl.
    by apply (consistent_core (registered command rnd w)), consistent_registered.
  - by rewrite sendCommand_not_connected.
Qed.

Lemma drain_with_pending m w l :
  foldl drain_step (with_pending m w) l = with_pending m (foldl drain_step w l).
Proof. revert w. induction l as [|e l IH]; intros w; simpl; [done|]. by rewrite <- IH. Qed.

Lemma stop_unfold w :
  ∃ w0, core w0 = core w ∧ bridge w0 = set_isRunning false (set_client None (set_wss None (bridge w))) ∧
    sockets w0 = sockets w ∧ logger w0 = logger w ∧ console w0 = console w ∧ now w0 = now w ∧
    stop w = log LInfo "Plugin bridge stopped" NoData
               (with_pending [] (foldl drain_step w0 (pendingCommands (bridge w)))).
Proof.
  unfold stop. destruct (wss (bridge w)) as [h|] eqn:E.
  - eexists (set_bridge _ (server_close h w)). split_and!; [| |done..]; try done.
  - eexists (set_bridge _ w). split_and!; [| |done..]; try done.
    simpl. unfold set_isRunning, set_client, set_wss. simpl. by rewrite E.
Qed.

Lemma drain_calls l w :
  calls (foldl drain_step w l) = calls w ++ ((λ e, stop_call e.2) <$> l).
Proof.
  revert w. induction l as [|e l IH]; intros w; simpl.
  - by rewrite app_nil_r.
  - rewrite IH. simpl. by rewrite <- app_assoc.
Qed.

Lemma disarm_idemp st tm : disarm st (disarm st tm) = disarm st tm.
Proof. unfold disarm. destruct tm as [cb d du s]. simpl. by destruct s, st. Qed.

Lemma drain_timers l w t :
  timers (foldl drain_step w l) !! t =
  if decide (t ∈ (λ e, timeout e.2) <$> l) then disarm Cleared <$> timers w !! t
  else timers w !! t.
Proof.
  revert w. induction l as [|e l IH]; intros w.
  - destruct (decide _) as [H|]; [by apply elem_of_nil in H|done].
  - cbn [foldl]. rewrite IH, fmap_cons. cbn [drain_step call_reject clearTimeout set_calls set_timers timers].
    destruct (decide (timeout e.2 = t)) as [<-|Hne].
    + rewrite list_lookup_alter_eq. rewrite (decide_True (P := _ ∈ _ :: _)) by left.
      destruct (decide _); [|done].
      destruct (timers w !! timeout e.2); simpl; [|done]. by rewrite disarm_idemp.
    + rewrite list_lookup_alter_ne by done.
      destruct (decide (t ∈ _ <$> l)) as [Hin|Hnin].
      * rewrite decide_True; [done|]. by right.
      * rewrite decide_False; [done|]. rewrite not_elem_of_cons. done.
Qed.

Lemma drain_frame l w :
  bridge (foldl drain_step w l) = bridge w ∧
  sockets (foldl drain_step w l) = sockets w ∧
  servers (foldl drain_step w l) = servers w ∧
  promises (foldl drain_step w l) = promises w ∧
  logger (foldl drain_step w l) = logger w ∧
  console (foldl drain_step w l) = console w ∧
  now (foldl drain_step w l) = now w.
Proof.
  revert w. induction l as [|e l IH]; intros w; simpl; [done|].
  destruct (IH (drain_step w e)) as (-> & -> & -> & -> & -> & -> & ->). done.
Qed.

Lemma consistent_drain l w :
  consistent (with_pending l w) → consistent (with_pending [] (foldl drain_step w l)).
Proof.
  revert w. induction l as [|[id pe] l IH]; intros w Hw; simpl; [done|].
  apply IH.
  assert (Hget : JsMap.get id (pendingCommands (bridge (with_pending ((id, pe) :: l) w)))
                 = Some pe).
  { simpl. by rewrite decide_True. }
  destruct (c_table _ Hw _ _ Hget) as (Hres & Hrej & tm & Htm & Harmed & Hid).
  pose proof (c_wf _ Hw) as Hwf. simpl in Hwf. unfold JsMap.wf, JsMap.keys in Hwf.
  rewrite fmap_cons in Hwf. apply NoDup_cons in Hwf as [Hnin Hwf].
  eapply (consistent_settle _ _ (timeout pe) tm _ Cleared Hw Htm Harmed); try done.
  - split; simpl.
    + rewrite (proj1 (c_timer _ Hw _ _ Htm)). done.
    + rewrite Harmed. by left.
  - simpl. intros id' pe' H. rewrite Hid.
    assert (id ≠ id').
    { intros <-. apply Hnin. apply JsMapFacts.elem_of_keys_get. by eexists. }
    by rewrite decide_False.
Qed.

Lemma consistent_stop w : consistent w → consistent (stop w).
Proof.
  intros Hw. destruct (stop_unfold w) as (w0 & Hcore & Hb & _ & _ & _ & _ & ->).
  eapply (consistent_core (with_pending [] (foldl drain_step w0 (pendingCommands (bridge w))))).
  { done. }
  apply consistent_drain.
  apply (consistent_core w); [|done].
  unfold core in *. simpl. injection Hcore as _ -> -> ->. done.
Qed.

Lemma consistent_step w e : consistent w → consistent (step w e).
Proof.
  intros Hw. destruct e; simpl.
  - unfold start. destruct (isRunning (bridge w)); [done|]. by apply (consistent_core w).
  - by apply consistent_stop.
  - by apply consistent_sendCommand.
  - destruct (decide _); [|done]. by apply (consistent_core w).
  - destruct (decide _); [|done]. by apply (consistent_core w).
  - destruct (decide _); [|done]. unfold handleConnection. simpl.
    destruct (client (bridge w)); by apply (consistent_core w).
  - destruct (decide _); [|done]. destruct data; simpl.
    + by apply consistent_handleResponse.
    + by apply (consistent_core w).
  - destruct (decide _); [|done]. unfold on_close. simpl.
    destruct (decide _); by apply (consistent_core w).
  - destruct (decide _); [|done]. by apply (consistent_core w).
  - by apply consistent_fire.
  - by apply (consistent_core w).
Qed.

Lemma consistent_run es w : consistent w → consistent (run w es).
Proof.
  revert w. induction es as [|e es IH]; intros w Hw; simpl; [done|].
  by apply IH, consistent_step.
Qed.

Lemma reachable_consistent w : reachable w → consistent w.
Proof. intros (d & p & es & ->). apply consistent_run, consistent_boot. Qed.

(** *** Fresh ids *)

Lemma tracked_settle w w' t tm st :
  tracked w →
  timers w !! t = Some tm → status tm = Armed → st ≠ Armed →
  timers w' = alter (disarm st) t (timers w) →
  pendingCommands (bridge w') =
    JsMap.delete (cb_id (callback tm)) (pendingCommands (bridge w)) →
  tracked w'.
Proof.
  intros Hw Ht Ha Hst Htimers Hpending t' tm'. rewrite Htimers, Hpending.
  destruct (decide (t = t')) as [<-|Hne].
  - rewrite list_lookup_alter_eq, Ht. intros [= <-] Hs.
    by apply (disarm_status st tm) in Hs.
  - rewrite list_lookup_alter_ne by done. intros Ht' Ha'.
    destruct (Hw _ _ Ht' Ha') as (pe' & Hget' & Hto').
    exists pe'. split; [|done]. rewrite JsMapFacts.get_delete_ne; [done|].
    intros E. destruct (Hw _ _ Ht Ha) as (pe & Hget & Hto).
    rewrite E in Hget. congruence.
Qed.

Lemma tracked_handleResponse response w :
  consistent w → tracked w → tracked (handleResponse response w).
Proof.
  intros Hc Hw.
  destruct (JsMap.get (resp_id response) (pendingCommands (bridge w))) as [pe|] eqn:Hget.
  2: { rewrite handleResponse_unknown by done. by apply (tracked_core w). }
  destruct (c_table _ Hc _ _ Hget) as (Hres & Hrej & tm & Htm & Harmed & Hid).
  rewrite (handleResponse_pending _ _ pe) by congruence.
  eapply (tracked_settle w _ (timeout pe) tm Cleared Hw Htm Harmed); try done.
  simpl. by rewrite Hid.
Qed.

Lemma tracked_fire t w : tracked w → tracked (fire t w).
Proof.
  intros Hw. unfold fire.
  destruct (timers w !! t) as [tm|] eqn:Ht; [|done].
  destruct (decide (status tm = Armed)) as [Ha|]; [|done].
  destruct (due tm <=? now w)%N eqn:Hd; [|done].
  by eapply (tracked_settle w _ t tm Fired Hw Ht Ha).
Qed.

Lemma tracked_registered command rnd w :
  JsMap.get (generateId (now w) rnd) (pendingCommands (bridge w)) = None →
  tracked w → tracked (registered command rnd w).
Proof.
  intros Hfresh Hw t tm. simpl.
  intros [[_ H]|[-> <-]]%lookup_snoc_Some Ha; simpl.
  - destruct (Hw _ _ H Ha) as (pe & Hget & Hto). exists pe. split; [|done].
    rewrite JsMapFacts.get_set_ne; [done|]. intros E. rewrite E in Hfresh. congruence.
  - rewrite JsMapFacts.get_set_eq. by eexists.
Qed.

Lemma stop_timers w t :
  timers (stop w) !! t =
  if decide (t ∈ (λ e, timeout e.2) <$> pendingCommands (bridge w))
  then disarm Cleared <$> timers w !! t else timers w !! t.
Proof.
  destruct (stop_unfold w) as (w0 & Hcore & _ & _ & _ & _ & _ & ->). simpl.
  rewrite drain_timers. by injection Hcore as _ -> _ _.
Qed.

Lemma stop_pending w : pendingCommands (bridge (stop w)) = [].
Proof. by destruct (stop_unfold w) as (w0 & _ & _ & _ & _ & _ & _ & ->). Qed.

Lemma stop_calls w :
  calls (stop w) = calls w ++ ((λ e, stop_call e.2) <$> pendingCommands (bridge w)).
Proof.
  destruct (stop_unfold w) as (w0 & Hcore & _ & _ & _ & _ & _ & ->). simpl.
  rewrite drain_calls. by injection Hcore as _ _ _ ->.
Qed.

Lemma stop_promises w : promises (stop w) = promises w.
Proof.
  destruct (stop_unfold w) as (w0 & Hcore & _ & _ & _ & _ & _ & ->). simpl.
  destruct (drain_frame (pendingCommands (bridge w)) w0) as (_ & _ & _ & -> & _).
  by injection Hcore as _ _ -> _.
Qed.

Lemma stop_disarms w t tm :
  tracked w → timers (stop w) !! t = Some tm → status tm ≠ Armed.
Proof.
  intros Hw. rewrite stop_timers. destruct (decide _) as [Hin|Hnin].
  - destruct (timers w !! t) as [tm0|]; [|done]. intros [= <-].
    by apply disarm_status.
  - intros Ht Ha. destruct (Hw _ _ Ht Ha) as (pe & Hget & Hto).
    apply Hnin. apply list_elem_of_fmap. exists (cb_id (callback tm), pe).
    split; [done|]. by apply JsMapFacts.get_Some_elem_of.
Qed.

Lemma tracked_stop w : tracked w → tracked (stop w).
Proof. intros Hw t tm Ht Ha. by destruct (stop_disarms w t tm Hw Ht). Qed.

Lemma tracked_step w e : consistent w → tracked w → fresh_event w e → tracked (step w e).
Proof.
  intros Hc Hw Hf. destruct e; simpl.
  - unfold start. destruct (isRunning (bridge w)); [done|]. by apply (tracked_core w).
  - by apply tracked_stop.
  - destruct (isConnected w) eqn:Hconn.
    + destruct (sendCommand_connected command rnd w Hconn) as (ws & _ & ->). simpl.
      by apply (tracked_core (registered command rnd w)), tracked_registered.
    + by rewrite sendCommand_not_connected.
  - destruct (decide _); [|done]. by apply (tracked_core w).
  - destruct (decide _); [|done]. by apply (tracked_core w).
  - destruct (decide _); [|done]. unfold handleConnection. simpl.
    destruct (client (bridge w)); by apply (tracked_core w).
  - destruct (decide _); [|done]. destruct data; simpl.
    + by apply tracked_handleResponse.
    + by apply (tracked_core w).
  - destruct (decide _); [|done]. unfold on_close. simpl.
    destruct (decide _); by apply (tracked_core w).
  - destruct (decide _); [|done]. by apply (tracked_core w).
  - by apply tracked_fire.
  - by apply (tracked_core w).
Qed.

Lemma tracked_run es w :
  consistent w → tracked w → fresh_run w es → tracked (run w es).
Proof.
  revert w. induction es as [|e es IH]; intros w Hc Hw Hf; simpl; [done|].
  destruct Hf as [Hf1 Hf2]. apply IH; [by apply consistent_step | by apply tracked_step | done].
Qed.

Lemma tracked_boot isDebug p : tracked (boot isDebug p).
Proof. intros t tm H. done. Qed.

(** *** How the timers change in one step *)

Lemma step_timers_shape w e :
  timers (step w e) = timers w ∨
  (∃ t st, timers (step w e) = alter (disarm st) t (timers w)) ∨
  (∃ cb, timers (step w e) =
           timers w ++ [{| callback := cb; delay := COMMAND_TIMEOUT_MS;
                           due := (now w + COMMAND_TIMEOUT_MS)%N; status := Armed |}]) ∨
  e = CallStop.
Proof.
  destruct e; simpl.
  - left. unfold start. by destruct (isRunning (bridge w)).
  - by right; right; right.
  - destruct (isConnected w) eqn:Hconn.
    + destruct (sendCommand_connected command rnd w Hconn) as (ws & _ & ->).
      right; right; left. by eexists.
    + left. by rewrite sendCommand_not_connected.
  - left. by destruct (decide _).
  - left. by destruct (decide _).
  - left. destruct (decide _); [|done]. unfold handleConnection. simpl.
    by destruct (client (bridge w)).
  - destruct (decide _); [|by left]. destruct data as [r|]; simpl; [|by left].
    unfold handleResponse. destruct (JsMap.get _ _) as [pe|]; [|by left].
    right; left. exists (timeout pe), Cleared.
    by destruct (resp_success r), (resp_result r).
  - left. destruct (decide _); [|done]. unfold on_close. simpl. by destruct (decide _).
  - left. by destruct (decide _).
  - unfold fire. destruct (timers w !! t) as [tm|]; [|by left].
    destruct (decide _); [|by left]. destruct (_ <=? _)%N; [|by left].
    right; left. by exists t, Fired.
  - by left.
Qed.

Lemma ages_refl tm : ages tm tm.
Proof. done. Qed.

Lemma ages_trans tm1 tm2 tm3 : ages tm1 tm2 → ages tm2 tm3 → ages tm1 tm3.
Proof.
  intros (Ha & Hb & Hc & Hd) (Ha' & Hb' & Hc' & Hd'). split_and!; try congruence.
  intros Hs. rewrite Hd'; [by apply Hd|]. rewrite Hd; done.
Qed.

Lemma ages_disarm st tm : ages tm (disarm st tm).
Proof. split_and!; try done. intros Hs. by rewrite disarm_not_armed. Qed.

Lemma step_timer_fwd w e t tm :
  timers w !! t = Some tm → ∃ tm', timers (step w e) !! t = Some tm' ∧ ages tm tm'.
Proof.
  intros Ht. destruct (step_timers_shape w e) as [->|[(t' & st & ->)|[(cb & ->)| ->]]].
  - exists tm. split; [done | apply ages_refl].
  - destruct (decide (t' = t)) as [->|Hne].
    + exists (disarm st tm). rewrite list_lookup_alter_eq, Ht. split; [done | apply ages_disarm].
    + exists tm. rewrite list_lookup_alter_ne by done. split; [done | apply ages_refl].
  - exists tm. split; [by apply lookup_app_l_Some | apply ages_refl].
  - cbn [step]. rewrite stop_timers, Ht. destruct (decide _); simpl.
    + eexists. split; [done | apply ages_disarm].
    + eexists. split; [done | apply ages_refl].
Qed.

Lemma run_timer_fwd es w t tm :
  timers w !! t = Some tm → ∃ tm', timers (run w es) !! t = Some tm' ∧ ages tm tm'.
Proof.
  revert w tm. induction es as [|e es IH]; intros w tm Ht; simpl.
  - exists tm. split; [done | apply ages_refl].
  - destruct (step_timer_fwd w e t tm Ht) as (tm1 & Ht1 & Ha1).
    destruct (IH _ _ Ht1) as (tm2 & Ht2 & Ha2).
    exists tm2. split; [done | by eapply ages_trans].
Qed.

Lemma step_timer_bwd w e t tm' :
  timers (step w e) !! t = Some tm' →
  (∃ tm, timers w !! t = Some tm ∧ ages tm tm') ∨
  due tm' = (now w + COMMAND_TIMEOUT_MS)%N.
Proof.
  destruct (step_timers_shape w e) as [->|[(t' & st & ->)|[(cb & ->)| ->]]].
  - intros Ht. left. exists tm'. split; [done | apply ages_refl].
  - destruct (decide (t' = t)) as [->|Hne].
    + rewrite list_lookup_alter_eq. destruct (timers w !! t) as [tm|]; [|done].
      intros [= <-]. left. exists tm. split; [done | apply ages_disarm].
    + rewrite list_lookup_alter_ne by done. intros Ht. left. exists tm'.
      split; [done | apply ages_refl].
  - intros [[_ Ht]|[-> <-]]%lookup_snoc_Some; [|by right].
    left. exists tm'. split; [done | apply ages_refl].
  - cbn [step]. rewrite stop_timers. destruct (timers w !! t) as [tm|]; [|by destruct (decide _)].
    intros H. left. exists tm. destruct (decide _); simpl in *; injection H as <-.
    + split; [done | apply ages_disarm].
    + split; [done | apply ages_refl].
Qed.

Lemma step_now w e : (now w ≤ now (step w e))%N.
Proof.
  destruct e; cbn [step]; try (simpl; lia).
  - unfold start. destruct (isRunning (bridge w)); simpl; lia.
  - destruct (stop_unfold w) as (w0 & _ & _ & _ & _ & _ & Hn & ->). simpl.
    destruct (drain_frame (pendingCommands (bridge w)) w0) as (_ & _ & _ & _ & _ & _ & ->).
    lia.
  - destruct (isConnected w) eqn:Hconn.
    + destruct (sendCommand_connected command rnd w Hconn) as (ws & _ & ->). simpl. lia.
    + rewrite sendCommand_not_connected by done. simpl. lia.
  - destruct (decide _); simpl; lia.
  - destruct (decide _); simpl; lia.
  - destruct (decide _); [|lia]. unfold handleConnection. simpl.
    destruct (client (bridge w)); simpl; lia.
  - destruct (decide _); [|lia]. destruct data as [r|]; simpl; [|lia].
    unfold handleResponse. destruct (JsMap.get _ _) as [pe|]; simpl; [|lia].
    destruct (resp_success r), (resp_result r); simpl; lia.
  - destruct (decide _); [|lia]. unfold on_close. simpl. destruct (decide _); simpl; lia.
  - destruct (decide _); simpl; lia.
  - unfold fire. destruct (timers w !! t) as [tm|]; [|lia].
    destruct (decide _); [|lia]. destruct (_ <=? _)%N; simpl; lia.
Qed.

Lemma timely_step w e : timely w → timely (step w e).
Proof.
  intros Hw t tm' Ht. pose proof (step_now w e).
  destruct (step_timer_bwd w e t tm' Ht) as [(tm & Htm & (_ & _ & Hd & _))| ->].
  - rewrite Hd. specialize (Hw _ _ Htm). lia.
  - lia.
Qed.

Lemma timely_run es w : timely w → timely (run w es).
Proof.
  revert w. induction es as [|e es IH]; intros w Hw; simpl; [done|].
  by apply IH, timely_step.
Qed.

Lemma timely_boot isDebug p : timely (boot isDebug p).
Proof. intros t tm H. done. Qed.

(** *** A command nobody answers *)

Lemma step_keeps_armed w e id p tm :
  consistent w →
  timers w !! p = Some tm → status tm = Armed → cb_id (callback tm) = id →
  quiet id p e →
  ∃ tm', timers (step w e) !! p = Some tm' ∧ status tm' = Armed ∧ ages tm tm'.
Proof.
  intros Hw Ht Ha Hid Hq.
  assert (Hsame : timers (step w e) = timers w ∨
                  (∃ tm0, timers (step w e) = timers w ++ [tm0]) ∨
                  (∃ t st, t ≠ p ∧ timers (step w e) = alter (disarm st) t (timers w))).
  { destruct e; cbn [step]; simpl in Hq.
    - left. unfold start. by destruct (isRunning (bridge w)).
    - done.
    - destruct (isConnected w) eqn:Hconn.
      + destruct (sendCommand_connected command rnd w Hconn) as (ws & _ & ->).
        right; left. by eexists.
      + left. by rewrite sendCommand_not_connected.
    - left. by destruct (decide _).
    - left. by destruct (decide _).
    - left. destruct (decide _); [|done]. unfold handleConnection. simpl.
      by destruct (client (bridge w)).
    - destruct (decide _); [|by left]. destruct data as [r|]; simpl; [|by left].
      destruct (JsMap.get (resp_id r) (pendingCommands (bridge w))) as [pe|] eqn:Hget.
      + destruct (c_table _ Hw _ _ Hget) as (Hres & Hrej & tm0 & Htm0 & _ & Hid0).
        rewrite (handleResponse_pending _ _ pe) by congruence.
        right; right. exists (timeout pe), Cleared. split; [|done].
        intros E. rewrite E, Ht in Htm0. injection Htm0 as <-. congruence.
      + left. by rewrite handleResponse_unknown.
    - left. destruct (decide _); [|done]. unfold on_close. simpl. by destruct (decide _).
    - left. by destruct (decide _).
    - unfold fire. destruct (timers w !! t) as [tm0|]; [|by left].
      destruct (decide _); [|by left]. destruct (_ <=? _)%N; [|by left].
      right; right. by exists t, Fired.
    - by left. }
  exists tm. destruct Hsame as [->|[(tm0 & ->)|(t & st & Hne & ->)]].
  - split_and!; [done.. | apply ages_refl].
  - split_and!; [by apply lookup_app_l_Some | done | apply ages_refl].
  - rewrite list_lookup_alter_ne by done. split_and!; [done.. | apply ages_refl].
Qed.

Lemma run_keeps_armed es w id p tm :
  consistent w →
  timers w !! p = Some tm → status tm = Armed → cb_id (callback tm) = id →
  Forall (quiet id p) es →
  ∃ tm', timers (run w es) !! p = Some tm' ∧ status tm' = Armed ∧ ages tm tm'.
Proof.
  revert w tm. induction es as [|e es IH]; intros w tm Hw Ht Ha Hid Hq; simpl.
  - exists tm. split_and!; [done.. | apply ages_refl].
  - apply Forall_cons in Hq as [Hq1 Hq2].
    destruct (step_keeps_armed w e id p tm Hw Ht Ha Hid Hq1) as (tm1 & Ht1 & Ha1 & Hg1).
    destruct (IH (step w e) tm1) as (tm2 & Ht2 & Ha2 & Hg2); try done.
    + by apply consistent_step.
    + destruct Hg1 as (-> & _). done.
    + exists tm2. split_and!; [done.. | by eapply ages_trans].
Qed.

(** *** Every timer fires in the end *)

Lemma fire_now t w : now (fire t w) = now w.
Proof.
  unfold fire. destruct (timers w !! t) as [tm|]; [|done].
  destruct (decide _); [|done]. by destruct (_ <=? _)%N.
Qed.

Lemma fire_timers t w t' :
  timers (fire t w) !! t' =
  if decide (t = t') then
    (λ tm, if (due tm <=? now w)%N then disarm Fired tm else tm) <$> timers w !! t'
  else timers w !! t'.
Proof.
  unfold fire. destruct (decide (t = t')) as [<-|Hne].
  - destruct (timers w !! t) as [tm|] eqn:Ht; [|done]. simpl.
    destruct (decide (status tm = Armed)) as [Ha|Ha].
    + destruct (_ <=? _)%N; [|done]. simpl. by rewrite list_lookup_alter_eq, Ht.
    + rewrite disarm_not_armed by done. by destruct (_ <=? _)%N.
  - destruct (timers w !! t) as [tm|] eqn:Ht; [|done].
    destruct (decide _); [|done]. destruct (_ <=? _)%N; [|done]. simpl.
    by rewrite list_lookup_alter_ne.
Qed.

Lemma overdue_fire t w : overdue w → overdue (fire t w).
Proof.
  intros Hw t' tm'. rewrite fire_timers, fire_now.
  destruct (decide (t = t')) as [<-|Hne]; [|apply Hw].
  destruct (timers w !! t) as [tm|] eqn:Ht; [|done]. simpl. intros [= <-].
  specialize (Hw _ _ Ht). by destruct (_ <=? _)%N.
Qed.

Lemma fires_disarm ts w t tm :
  overdue w → t ∈ ts → timers (run w (TimerFires <$> ts)) !! t = Some tm →
  status tm ≠ Armed.
Proof.
  revert w. induction ts as [|t0 ts IH]; intros w Hw Hin; [by apply elem_of_nil in Hin|].
  rewrite fmap_cons. cbn [run foldl step]. fold (run (fire t0 w) (TimerFires <$> ts)).
  destruct (decide (t ∈ ts)) as [Hin'|Hnin].
  { apply IH; [by apply overdue_fire | done]. }
  apply elem_of_cons in Hin as [->|?]; [|done].
  intros Ht.
  destruct (timers w !! t0) as [tm0|] eqn:Ht0.
  - assert (H1 : timers (fire t0 w) !! t0 = Some (disarm Fired tm0)).
    { rewrite fire_timers, decide_True, Ht0 by done. simpl.
      specialize (Hw _ _ Ht0). apply N.leb_le in Hw. by rewrite Hw. }
    destruct (run_timer_fwd (TimerFires <$> ts) _ _ _ H1) as (tm' & Ht' & (_ & _ & _ & Hs)).
    rewrite Ht in Ht'. injection Ht' as <-.
    rewrite Hs; by apply disarm_status.
  - assert (H1 : timers (fire t0 w) !! t0 = None).
    { by rewrite fire_timers, decide_True, Ht0. }
    exfalso. clear IH Hnin.
    assert (Hlen : length (timers (run (fire t0 w) (TimerFires <$> ts))) =
                   length (timers (fire t0 w))).
    { generalize (fire t0 w). clear. induction ts as [|t1 ts IH]; intros w; [done|].
      rewrite fmap_cons. cbn [run foldl step]. fold (run (fire t1 w) (TimerFires <$> ts)).
      rewrite IH. unfold fire. destruct (timers w !! t1) as [tm|]; [|done].
      destruct (decide _); [|done]. destruct (_ <=? _)%N; [|done]. simpl.
      by rewrite length_alter. }
    apply lookup_lt_Some in Ht. apply lookup_ge_None in H1. lia.
Qed.

Lemma consistent_settled w t tm :
  consistent w → timers w !! t = Some tm →
  status tm ≠ Armed → ∃ c, settlements t w = [c] ∧ isSettledBy tm c.
Proof. intros Hw. apply (c_done _ Hw). Qed.

Lemma expire_settles w p :
  consistent w → timely w → p < promises w →
  ∃ tm c, timers (expire w) !! p = Some tm ∧ settlements p (expire w) = [c] ∧
          isSettledBy tm c.
Proof.
  intros Hw Ht Hp. rewrite <- (c_alloc _ Hw) in Hp.
  assert (Hc : consistent (expire w)) by by apply consistent_run.
  destruct (lookup_lt_is_Some_2 _ _ Hp) as [tm0 Htm0].
  destruct (run_timer_fwd (Tick COMMAND_TIMEOUT_MS :: (TimerFires <$> seq 0 (length (timers w))))
              w p tm0 Htm0) as (tm & Htm & _).
  fold (expire w) in Htm.
  assert (Hs : status tm ≠ Armed).
  { revert Htm. unfold expire. cbn [run foldl step].
    apply fires_disarm.
    - intros t' tm' H. simpl in *. specialize (Ht _ _ H). lia.
    - apply elem_of_seq. lia. }
  destruct (c_done _ Hc _ _ Htm Hs) as (c & ? & ?). by exists tm, c.
Qed.

(** *** The logger *)

Lemma step_logger w e : logger (step w e) = logger w.
Proof.
  destruct e; cbn [step]; try done.
  - unfold start. by destruct (isRunning (bridge w)).
  - destruct (stop_unfold w) as (w0 & _ & _ & _ & Hl & _ & _ & ->). simpl.
    by destruct (drain_frame (pendingCommands (bridge w)) w0) as (_ & _ & _ & _ & -> & _).
  - destruct (isConnected w) eqn:Hconn.
    + by destruct (sendCommand_connected command rnd w Hconn) as (ws & _ & ->).
    + by rewrite sendCommand_not_connected.
  - by destruct (decide _).
  - by destruct (decide _).
  - destruct (decide _); [|done]. unfold handleConnection. simpl.
    by destruct (client (bridge w)).
  - destruct (decide _); [|done]. destruct data as [r|]; simpl; [|done].
    unfold handleResponse. destruct (JsMap.get _ _) as [pe|]; [|done].
    by destruct (resp_success r), (resp_result r).
  - destruct (decide _); [|done]. unfold on_close. simpl. by destruct (decide _).
  - by destruct (decide _).
  - unfold fire. destruct (timers w !! t) as [tm|]; [|done].
    destruct (decide _); [|done]. by destruct (_ <=? _)%N.
Qed.

Lemma run_logger es w : logger (run w es) = logger w.
Proof.
  revert w. induction es as [|e es IH]; intros w; simpl; [done|].
  by rewrite IH, step_logger.
Qed.

(** The bridge's logger prints warnings and errors whatever [DEBUG] is. *)
Lemma bridge_logger_level isDebug p es level :
  level = LInfo ∨ level = LWarn ∨ level = LError →
  Logger.shouldLog (logger (run (boot isDebug p) es)) level = true.
Proof.
  rewrite run_logger. by intros [->|[->| ->]]; destruct isDebug.
Qed.

Lemma log_shown level msg data w :
  Logger.shouldLog (logger w) level = true →
  console (log level msg data w) =
  console w ++ [{| log_prefix := Logger.prefix (logger w); log_level := level;
                   log_message := msg; log_data := data |}].
Proof. intros H. unfold log, Logger.write. simpl. by rewrite H. Qed.

(** *** What [handleResponse] and a firing timer read *)

Lemma handleResponse_core r w w' :
  core w = core w' → core (handleResponse r w) = core (handleResponse r w').
Proof.
  unfold core. intros [= Hp Ht Hn Hc]. unfold handleResponse. rewrite <- Hp.
  destruct (JsMap.get _ _) as [pe|]; simpl; [|congruence].
  destruct (resp_success r), (resp_result r); simpl; congruence.
Qed.

Lemma fire_core t w w' :
  core w = core w' → now w = now w' → core (fire t w) = core (fire t w').
Proof.
  unfold core. intros [= Hp Ht Hn Hc] Hnow. unfold fire. rewrite <- Ht, <- Hnow.
  destruct (timers w !! t) as [tm|]; [|congruence].
  destruct (decide _); [|congruence]. destruct (_ <=? _)%N; simpl; congruence.
Qed.

(** ** Sending without a peer *)

(** C2. Whatever the command type and params, [sendCommand] called while
    [isConnected()] is false fails with [PluginNotConnectedError] and
    changes nothing: the world afterwards is the world before, so the table
    of pending commands, the timers and the promises are as before, and no
    id was drawn: the outcome does not depend on the random text. *)
Theorem sendCommand_without_peer_changes_nothing command rnd w :
  isConnected w = false →
  (sendCommand command rnd w).1 = inl PluginNotConnectedError ∧
  (sendCommand command rnd w).2 = w ∧
  pendingCommands (bridge (sendCommand command rnd w).2) = pendingCommands (bridge w) ∧
  JsMap.size (pendingCommands (bridge (sendCommand command rnd w).2)) =
    JsMap.size (pendingCommands (bridge w)) ∧
  timers (sendCommand command rnd w).2 = timers w ∧
  promises (sendCommand command rnd w).2 = promises w ∧
  ∀ rnd', sendCommand command rnd' w = sendCommand command rnd w.
Proof.
  intros Hc. unfold sendCommand. rewrite Hc. simpl. done.
Qed.

Lemma sendCommand_without_peer_changes_nothing_witness :
  let w := run (boot false None) [CallStart; ServerListening 0] in
  let command := {| in_type := "CREATE_FRAME"; in_params := JObject [] |} in
  isConnected w = false ∧
  (sendCommand command "0.4fzyo82mvyr" w).1 = inl PluginNotConnectedError ∧
  (sendCommand command "0.4fzyo82mvyr" w).2 = w.
Proof.
  intros w command.
  assert (H : isConnected w = false) by reflexivity.
  split; [exact H|].
  destruct (sendCommand_without_peer_changes_nothing command "0.4fzyo82mvyr" w H)
    as (H1 & H2 & _).
  split; [exact H1 | exact H2].
Defined.

(** ** Frames that do not parse, responses nobody waits for *)

(** C6. A frame that [JSON.parse] rejects is logged as an error and
    nothing else happens: the bridge, its client, the sockets (no [close]
    is called, the ready states stay), the table, the timers and the
    promises are as before.  A parsed response whose id is not in the
    table is logged as a warning and ignored in the same way:
    [handleResponse] returns, and every pending entry, its timer and its
    continuations are untouched. *)
Theorem unparseable_or_unknown_frame_is_ignored isDebug p es :
  let w := run (boot isDebug p) es in
  (on_message None w = log LError "Failed to parse plugin message" (DataError None) w ∧
   console (on_message None w) =
     console w ++ [{| log_prefix := "figmad:plugin-bridge"; log_level := LError;
                      log_message := "Failed to parse plugin message";
                      log_data := DataError None |}] ∧
   bridge (on_message None w) = bridge w ∧
   sockets (on_message None w) = sockets w ∧
   timers (on_message None w) = timers w ∧
   calls (on_message None w) = calls w) ∧
  ∀ response,
    JsMap.get (resp_id response) (pendingCommands (bridge w)) = None →
    on_message (Some response) w = handleResponse response w ∧
    console (handleResponse response w) =
      console w ++ [{| log_prefix := "figmad:plugin-bridge"; log_level := LWarn;
                       log_message :=
                         "Received response for unknown command: " +:+ resp_id response;
                       log_data := NoData |}] ∧
    bridge (handleResponse response w) = bridge w ∧
    sockets (handleResponse response w) = sockets w ∧
    timers (handleResponse response w) = timers w ∧
    calls (handleResponse response w) = calls w ∧
    ∀ id, JsMap.get id (pendingCommands (bridge (handleResponse response w))) =
          JsMap.get id (pendingCommands (bridge w)).
Proof.
  intros w.
  assert (Hpre : Logger.prefix (logger w) = "figmad:plugin-bridge").
  { unfold w. by rewrite run_logger. }
  split.
  - split; [reflexivity|]. split; [|by repeat split].
    unfold on_message. rewrite log_shown by (apply bridge_logger_level; auto).
    by rewrite Hpre.
  - intros response Hget. split; [reflexivity|].
    rewrite handleResponse_unknown by done. split; [|by repeat split].
    rewrite log_shown by (apply bridge_logger_level; auto).
    by rewrite Hpre.
Qed.

Lemma unparseable_or_unknown_frame_is_ignored_witness :
  let w := run (boot false None)
             [CallStart; ServerListening 0; ServerConnection 0;
              CallSendCommand {| in_type := "DELETE_NODE"; in_params := JObject [] |}
                "0.4fzyo82mvyr"] in
  let late := {| resp_id := "17-zzzzzzz"; resp_success := true;
                 resp_result := Some [("nodeId", JString "1:23")];
                 resp_error := None |} in
  JsMap.get (resp_id late) (pendingCommands (bridge w)) = None ∧
  calls (handleResponse late w) = calls w ∧
  JsMap.get "0-4fzyo82" (pendingCommands (bridge (handleResponse late w))) =
    Some {| resolve := 0; reject := 0; timeout := 0 |}.
Proof.
  intros w late.
  assert (H : JsMap.get (resp_id late) (pendingCommands (bridge w)) = None) by reflexivity.
  split; [exact H|].
  destruct (unparseable_or_unknown_frame_is_ignored false None
              [CallStart; ServerListening 0; ServerConnection 0;
               CallSendCommand {| in_type := "DELETE_NODE"; in_params := JObject [] |}
                 "0.4fzyo82mvyr"]) as [_ Hu].
  destruct (Hu late H) as (_ & _ & _ & _ & _ & Hcalls & Hent).
  split; [exact Hcalls|]. rewrite Hent. reflexivity.
Defined.

(** ** Which responses resolve *)

(** C10, as the code has it.  For a response whose id is pending, the
    promise is resolved, with the result, exactly when [success] is true
    and a result is present; in every other case it is rejected, never
    resolved, with [new Error(response.error || 'Unknown plugin error')]:
    the peer's error text when there is a non-empty one, the text
    'Unknown plugin error' when there is none.  A response with [success]
    true and no result takes that path like a failure does. *)
Theorem response_resolves_only_with_success_and_result response pe w :
  JsMap.get (resp_id response) (pendingCommands (bridge w)) = Some pe →
  (∀ result, resp_success response = true → resp_result response = Some result →
     calls (handleResponse response w) =
       calls w ++ [{| promise := resolve pe; caller := ByResponse;
                      outcome := Resolved result |}]) ∧
  (resp_success response = false ∨ resp_result response = None →
     calls (handleResponse response w) =
       calls w ++ [{| promise := reject pe; caller := ByResponse;
                      outcome := Rejected (Error (or_else (resp_error response)
                                                    "Unknown plugin error")) |}]) ∧
  (resp_error response = None ∨ resp_error response = Some "" →
     or_else (resp_error response) "Unknown plugin error" = "Unknown plugin error") ∧
  (∀ text, resp_error response = Some text → text ≠ "" →
     or_else (resp_error response) "Unknown plugin error" = text) ∧
  JsMap.get (resp_id response) (pendingCommands (bridge (handleResponse response w))) = None.
Proof.
  intros Hget. split_and!.
  - intros result Hs Hr. unfold handleResponse. by rewrite Hget, Hs, Hr.
  - intros H. unfold handleResponse. rewrite Hget.
    destruct (resp_success response), (resp_result response); try done.
    by destruct H.
  - by intros [-> | ->].
  - intros text -> Hne. simpl. by rewrite decide_False.
  - unfold handleResponse. rewrite Hget.
    destruct (resp_success response), (resp_result response); simpl;
      apply JsMapFacts.get_delete_eq.
Qed.

Lemma response_resolves_only_with_success_and_result_witness :
  let w := run (boot false None)
             [CallStart; ServerListening 0; ServerConnection 0;
              CallSendCommand {| in_type := "CREATE_FRAME"; in_params := JObject [] |}
                "0.4fzyo82mvyr"] in
  let response := {| resp_id := "0-4fzyo82"; resp_success := true;
                     resp_result := None; resp_error := None |} in
  JsMap.get (resp_id response) (pendingCommands (bridge w)) =
    Some {| resolve := 0; reject := 0; timeout := 0 |} ∧
  calls (handleResponse response w) =
    [{| promise := 0; caller := ByResponse;
        outcome := Rejected (Error "Unknown plugin error") |}].
Proof.
  intros w response.
  assert (H : JsMap.get (resp_id response) (pendingCommands (bridge w)) =
              Some {| resolve := 0; reject := 0; timeout := 0 |}) by reflexivity.
  split; [exact H|].
  destruct (response_resolves_only_with_success_and_result response _ w H)
    as (_ & Hrej & _).
  rewrite Hrej; [reflexivity | by right].
Defined.

(** C10, as stated, fails: a response with [success] true, no result and
    the error text "boom" is rejected with "boom", not with
    'Unknown plugin error'. *)
Lemma success_without_result_keeps_peer_error :
  let w := run (boot false None)
             [CallStart; ServerListening 0; ServerConnection 0;
              CallSendCommand {| in_type := "CREATE_FRAME"; in_params := JObject [] |}
                "0.4fzyo82mvyr"] in
  let response := {| resp_id := "0-4fzyo82"; resp_success := true;
                     resp_result := None; resp_error := Some "boom" |} in
  JsMap.get (resp_id response) (pendingCommands (bridge w)) =
    Some {| resolve := 0; reject := 0; timeout := 0 |} ∧
  settlements 0 (handleResponse response w) =
    [{| promise := 0; caller := ByResponse; outcome := Rejected (Error "boom") |}] ∧
  settlements 0 (handleResponse response w) ≠
    [{| promise := 0; caller := ByResponse;
        outcome := Rejected (Error "Unknown plugin error") |}].
Proof.
  intros w response. split_and!; [reflexivity | reflexivity |].
  intros H. vm_compute in H. discriminate H.
Qed.

(** ** An id drawn twice *)

(** C8, as the code has it.  [sendCommand] does not look the id up before
    [pendingCommands.set]: when the id it draws is already in the table,
    the entry under that id is overwritten by the new command's
    continuations and timer (the key keeps its place, the table its size,
    the other entries stay); the displaced command's timer is not
    cancelled and its continuations are not called; the only logging call
    is the debug line of every send. *)
Theorem colliding_id_overwrites_entry command rnd w old :
  isConnected w = true →
  JsMap.get (generateId (now w) rnd) (pendingCommands (bridge w)) = Some old →
  let id := generateId (now w) rnd in
  let w' := (sendCommand command rnd w).2 in
  (sendCommand command rnd w).1 = inr (promises w) ∧
  JsMap.get id (pendingCommands (bridge w')) =
    Some {| resolve := promises w; reject := promises w; timeout := length (timers w) |} ∧
  JsMap.keys (pendingCommands (bridge w')) = JsMap.keys (pendingCommands (bridge w)) ∧
  JsMap.size (pendingCommands (bridge w')) = JsMap.size (pendingCommands (bridge w)) ∧
  (∀ id', id' ≠ id →
     JsMap.get id' (pendingCommands (bridge w')) = JsMap.get id' (pendingCommands (bridge w))) ∧
  timers w' =
    timers w ++ [{| callback := {| cb_id := id; cb_type := in_type command;
                                   cb_reject := promises w |};
                    delay := COMMAND_TIMEOUT_MS;
                    due := (now w + COMMAND_TIMEOUT_MS)%N;
                    status := Armed |}] ∧
  (∀ tm, timers w !! timeout old = Some tm → timers w' !! timeout old = Some tm) ∧
  calls w' = calls w ∧
  console w' =
    Logger.write (logger w) LDebug ("Sent command: " +:+ in_type command) (DataId id)
      (console w).
Proof.
  intros Hc Hget id w'. unfold w'.
  destruct (sendCommand_connected command rnd w Hc) as (ws & Hws & ->). simpl.
  fold id. split_and!; try done.
  - apply JsMapFacts.get_set_eq.
  - apply JsMapFacts.keys_set_present. by eexists.
  - unfold JsMap.size. rewrite <- !(length_fmap fst).
    change (length (JsMap.keys (JsMap.set id
              {| resolve := promises w; reject := promises w; timeout := length (timers w) |}
              (pendingCommands (bridge w)))) = length (JsMap.keys (pendingCommands (bridge w)))).
    rewrite JsMapFacts.keys_set_present; [done | by eexists].
  - intros id' Hne. by apply JsMapFacts.get_set_ne.
  - intros tm Htm. by apply lookup_app_l_Some.
Qed.

Lemma colliding_id_overwrites_entry_witness :
  let command := {| in_type := "DELETE_NODE"; in_params := JObject [] |} in
  let w := run (boot false None)
             [CallStart; ServerListening 0; ServerConnection 0;
              CallSendCommand command "0.4fzyo82mvyr"] in
  isConnected w = true ∧
  JsMap.get (generateId (now w) "0.4fzyo82mvyr") (pendingCommands (bridge w)) =
    Some {| resolve := 0; reject := 0; timeout := 0 |} ∧
  JsMap.get "0-4fzyo82" (pendingCommands (bridge (sendCommand command "0.4fzyo82mvyr" w).2)) =
    Some {| resolve := 1; reject := 1; timeout := 1 |}.
Proof.
  intros command w.
  assert (H1 : isConnected w = true) by reflexivity.
  assert (H2 : JsMap.get (generateId (now w) "0.4fzyo82mvyr") (pendingCommands (bridge w)) =
               Some {| resolve := 0; reject := 0; timeout := 0 |}) by reflexivity.
  split; [exact H1|]. split; [exact H2|].
  destruct (colliding_id_overwrites_entry command "0.4fzyo82mvyr" w _ H1 H2) as (_ & H & _).
  exact H.
Defined.

(** C8, as stated, fails: two sends in the same millisecond that draw the
    same random text collide, and the second replaces the entry of the
    first instead of leaving it; nothing is logged. *)
Lemma colliding_id_is_not_a_no_op :
  let command := {| in_type := "DELETE_NODE"; in_params := JObject [] |} in
  let w := run (boot false None)
             [CallStart; ServerListening 0; ServerConnection 0;
              CallSendCommand command "0.4fzyo82mvyr"] in
  let w' := (sendCommand command "0.4fzyo82mvyr" w).2 in
  JsMap.get "0-4fzyo82" (pendingCommands (bridge w)) =
    Some {| resolve := 0; reject := 0; timeout := 0 |} ∧
  JsMap.get "0-4fzyo82" (pendingCommands (bridge w')) ≠
    JsMap.get "0-4fzyo82" (pendingCommands (bridge w)) ∧
  console w' = console w.
Proof.
  intros command w w'. split_and!; [reflexivity | | reflexivity].
  intros H. vm_compute in H. discriminate H.
Qed.

(** ** A peer replaces a peer *)

Lemma sendCommand_sockets command rnd w ws :
  isConnected w = true → client (bridge w) = Some ws →
  sockets (sendCommand command rnd w).2 =
  alter (WebSocket_send {| cmd_type := in_type command; cmd_params := in_params command;
                           cmd_id := generateId (now w) rnd; cmd_timestamp := now w |})
    ws (sockets w).
Proof.
  intros Hconn Hws.
  destruct (sendCommand_connected command rnd w Hconn) as (ws' & Hws' & ->).
  rewrite Hws in Hws'. by injection Hws' as <-.
Qed.

Lemma client_valid_step w e : client_valid w → client_valid (step w e).
Proof.
  intros Hw. destruct e; cbn [step].
  - unfold start. by destruct (isRunning (bridge w)).
  - destruct (stop_unfold w) as (w0 & _ & Hb & _ & _ & _ & _ & ->). intros ws. simpl.
    destruct (drain_frame (pendingCommands (bridge w)) w0) as (-> & _). by rewrite Hb.
  - destruct (isConnected w) eqn:Hconn.
    + destruct (sendCommand_connected command rnd w Hconn) as (ws & _ & ->).
      intros ws'. simpl. rewrite length_alter. apply Hw.
    + by rewrite sendCommand_not_connected.
  - by destruct (decide _).
  - by destruct (decide _).
  - destruct (decide _); [|done]. unfold handleConnection. simpl.
    destruct (client (bridge w)); intros ws'; simpl; intros [= <-];
      rewrite ?length_alter, length_app; simpl; lia.
  - destruct (decide _); [|done]. destruct data as [r|]; simpl; [|done].
    unfold handleResponse. destruct (JsMap.get _ _) as [pe|]; [|done].
    by destruct (resp_success r), (resp_result r).
  - destruct (decide _); [|done]. unfold on_close. simpl.
    destruct (decide _); intros ws'; simpl; [done|].
    rewrite length_alter. apply Hw.
  - by destruct (decide _).
  - unfold fire. destruct (timers w !! t) as [tm|]; [|done].
    destruct (decide _); [|done]. by destruct (_ <=? _)%N.
  - done.
Qed.

Lemma client_valid_run es w : client_valid w → client_valid (run w es).
Proof.
  revert w. induction es as [|e es IH]; intros w Hw; simpl; [done|].
  by apply IH, client_valid_step.
Qed.

Lemma client_valid_boot isDebug p : client_valid (boot isDebug p).
Proof. intros ws H. done. Qed.

(** C5. When a connection arrives while a peer [old] is attached, the
    bridge logs the warning, calls [close] on [old] and only then makes the
    new socket [ws] its client: the one peer it talks to; a command sent
    afterwards goes to [ws] and not to [old].  The table of pending
    commands, the timers and the promises are not touched: a response
    bearing a pending id, from whichever socket, and each timer do after
    the replacement what they would have done without it. *)
Theorem peer_replacement_keeps_pending_commands isDebug p es old h :
  let w := run (boot isDebug p) es in
  client (bridge w) = Some old →
  is_Some (servers w !! h) →
  let ws := length (sockets w) in
  let w' := step w (ServerConnection h) in
  (* the old connection is closed, with a warning, and the new one attached *)
  old ≠ ws ∧
  sockets w' =
    alter WebSocket_close old (sockets w) ++
      [{| readyState := OPEN; outbox := []; closeCalls := 0 |}] ∧
  (∀ s, sockets w' !! old = Some s → readyState s ≠ OPEN ∧ (0 < closeCalls s)%nat) ∧
  console w' =
    console w ++ [{| log_prefix := "figmad:plugin-bridge"; log_level := LWarn;
                     log_message := "New connection replacing existing client";
                     log_data := NoData |};
                  {| log_prefix := "figmad:plugin-bridge"; log_level := LInfo;
                     log_message := "Figma plugin connected"; log_data := NoData |}] ∧
  client (bridge w') = Some ws ∧
  isConnected w' = true ∧
  (* only the new peer is addressed *)
  (∀ command rnd,
     sockets (sendCommand command rnd w').2 !! old = sockets w' !! old ∧
     sockets (sendCommand command rnd w').2 !! ws =
       Some {| readyState := OPEN;
               outbox := [{| cmd_type := in_type command; cmd_params := in_params command;
                             cmd_id := generateId (now w) rnd; cmd_timestamp := now w |}];
               closeCalls := 0 |}) ∧
  (* the table, the timers and the continuations are as before *)
  pendingCommands (bridge w') = pendingCommands (bridge w) ∧
  timers w' = timers w ∧
  promises w' = promises w ∧
  calls w' = calls w ∧
  (* and still settle the same way *)
  (∀ sock response, is_Some (sockets w' !! sock) →
     core (step w' (SocketMessage sock (Some response))) = core (handleResponse response w)) ∧
  (∀ t, core (step w' (TimerFires t)) = core (fire t w)).
Proof.
  intros w Hold Hsrv ws w'.
  assert (Hpre : Logger.prefix (logger w) = "figmad:plugin-bridge").
  { unfold w. by rewrite run_logger. }
  assert (Hlt : (old < length (sockets w))%nat).
  { apply (client_valid_run es (boot isDebug p)); [apply client_valid_boot | done]. }
  assert (Hw : Logger.shouldLog (logger w) LWarn = true)
    by (apply bridge_logger_level; auto).
  assert (Hi : Logger.shouldLog (logger w) LInfo = true)
    by (apply bridge_logger_level; auto).
  clearbody w.
  assert (Hstep : w' = handleConnection ws (accept w).2).
  { unfold w'. cbn [step]. by rewrite decide_True. }
  assert (Hcore : core w' = core w).
  { rewrite Hstep. unfold handleConnection. simpl. by rewrite Hold. }
  assert (Hsock : sockets w' = alter WebSocket_close old (sockets w) ++
                    [{| readyState := OPEN; outbox := []; closeCalls := 0 |}]).
  { rewrite Hstep. unfold handleConnection. simpl. rewrite Hold. simpl.
    clear -Hlt. revert old Hlt. induction (sockets w) as [|s l IH]; intros old Hlt;
      simpl in *; [lia|]. destruct old as [|old]; simpl; [done|].
    f_equal. apply IH. lia. }
  assert (Hcl : client (bridge w') = Some ws).
  { by rewrite Hstep. }
  assert (Hnow : now w' = now w).
  { rewrite Hstep. unfold handleConnection. simpl. by destruct (client (bridge w)). }
  assert (Hws : sockets w' !! ws = Some {| readyState := OPEN; outbox := []; closeCalls := 0 |}).
  { rewrite Hsock. rewrite lookup_app_r; rewrite length_alter; [|done].
    unfold ws. by rewrite Nat.sub_diag. }
  assert (Hconn : isConnected w' = true).
  { unfold isConnected. by rewrite Hcl, Hws. }
  split; [lia|]. split; [done|]. split.
  { intros s. rewrite Hsock, lookup_app_l by (by rewrite length_alter).
    rewrite list_lookup_alter_eq.
    destruct (sockets w !! old) as [s0|]; [|done]. intros [= <-]. simpl.
    split; [by destruct (readyState s0) | lia]. }
  split.
  { rewrite Hstep. unfold handleConnection. simpl. rewrite Hold. simpl.
    unfold Logger.write.
    rewrite Hw, Hi, Hpre. by rewrite <- app_assoc. }
  split; [done|]. split; [done|]. split.
  { intros command rnd. rewrite (sendCommand_sockets command rnd w' ws) by done.
    split.
    - rewrite list_lookup_alter_ne; [done | lia].
    - by rewrite list_lookup_alter_eq, Hws, Hnow. }
  pose proof Hcore as Hcore'. unfold core in Hcore'. injection Hcore' as Hp Ht Hn Hc.
  split; [done|]. split; [done|]. split; [done|]. split; [done|]. split.
  - intros sock response Hs. cbn [step]. rewrite decide_True by done.
    by apply handleResponse_core.
  - intros t. cbn [step]. by apply fire_core.
Qed.

Lemma peer_replacement_keeps_pending_commands_witness :
  let es := [CallStart; ServerListening 0; ServerConnection 0;
             CallSendCommand {| in_type := "CREATE_FRAME"; in_params := JObject [] |}
               "0.4fzyo82mvyr"] in
  let w := run (boot false None) es in
  client (bridge w) = Some 0%nat ∧
  is_Some (servers w !! 0%nat) ∧
  pendingCommands (bridge (step w (ServerConnection 0))) = pendingCommands (bridge w) ∧
  client (bridge (step w (ServerConnection 0))) = Some 1%nat.
Proof.
  intros es w.
  assert (H : client (bridge w) = Some 0%nat) by reflexivity.
  assert (H' : is_Some (servers w !! 0%nat)) by (eexists; reflexivity).
  split; [exact H|]. split; [exact H'|].
  destruct (peer_replacement_keeps_pending_commands false None es 0 0 H H')
    as (_ & _ & _ & _ & Hcl & _ & _ & Hp & _).
  split; [exact Hp | exact Hcl].
Defined.

(** ** Responses in any order *)

Lemma handleResponse_known response w pe :
  JsMap.get (resp_id response) (pendingCommands (bridge w)) = Some pe →
  handleResponse response w =
  set_calls (calls w ++ [response_call response pe])
    (with_pending (JsMap.delete (resp_id response) (pendingCommands (bridge w)))
       (clearTimeout (timeout pe) w)).
Proof.
  intros Hget. unfold handleResponse, response_call. rewrite Hget.
  by destruct (resp_success response), (resp_result response).
Qed.

(** C7. Two pending commands A and B with distinct ids: delivering B's
    response and then A's leaves the bridge as delivering A's and then B's
    does, up to the order of the two calls in the log.  Each promise gets
    exactly the one call its own response asks for: resolved with that
    response's result, or rejected with that response's error. *)
Theorem responses_commute isDebug p es ra rb pa pb :
  let w := run (boot isDebug p) es in
  JsMap.get (resp_id ra) (pendingCommands (bridge w)) = Some pa →
  JsMap.get (resp_id rb) (pendingCommands (bridge w)) = Some pb →
  resp_id ra ≠ resp_id rb →
  let wab := handleResponse rb (handleResponse ra w) in
  let wba := handleResponse ra (handleResponse rb w) in
  calls wab = calls w ++ [response_call ra pa; response_call rb pb] ∧
  calls wba = calls w ++ [response_call rb pb; response_call ra pa] ∧
  promise (response_call ra pa) ≠ promise (response_call rb pb) ∧
  (∀ q, settlements q wba = settlements q wab) ∧
  settlements (promise (response_call ra pa)) wba = [response_call ra pa] ∧
  settlements (promise (response_call rb pb)) wba = [response_call rb pb] ∧
  bridge wba = bridge wab ∧
  timers wba = timers wab ∧
  sockets wba = sockets wab ∧
  console wba = console wab ∧
  promises wba = promises wab.
Proof.
  intros w Ha Hb Hne wab wba.
  assert (Hw : consistent w) by (apply consistent_run, consistent_boot).
  clearbody w.
  destruct (c_table _ Hw _ _ Ha) as (Hra & Hja & ta & Hta & Haa & Hia).
  destruct (c_table _ Hw _ _ Hb) as (Hrb & Hjb & tb & Htb & Hab & Hib).
  assert (Hto : timeout pa ≠ timeout pb).
  { intros E. rewrite E, Htb in Hta. injection Hta as <-. congruence. }
  assert (Hpa : promise (response_call ra pa) = timeout pa).
  { unfold response_call. by destruct (resp_success ra), (resp_result ra). }
  assert (Hpb : promise (response_call rb pb) = timeout pb).
  { unfold response_call. by destruct (resp_success rb), (resp_result rb). }
  assert (Eab : wab =
    set_calls (calls w ++ [response_call ra pa; response_call rb pb])
      (with_pending (JsMap.delete (resp_id rb)
                       (JsMap.delete (resp_id ra) (pendingCommands (bridge w))))
         (clearTimeout (timeout pb) (clearTimeout (timeout pa) w)))).
  { unfold wab. rewrite (handleResponse_known ra w pa) by done.
    rewrite (handleResponse_known rb _ pb).
    - simpl. by rewrite <- app_assoc.
    - simpl. by rewrite JsMapFacts.get_delete_ne. }
  assert (Eba : wba =
    set_calls (calls w ++ [response_call rb pb; response_call ra pa])
      (with_pending (JsMap.delete (resp_id ra)
                       (JsMap.delete (resp_id rb) (pendingCommands (bridge w))))
         (clearTimeout (timeout pa) (clearTimeout (timeout pb) w)))).
  { unfold wba. rewrite (handleResponse_known rb w pb) by done.
    rewrite (handleResponse_known ra _ pa).
    - simpl. by rewrite <- app_assoc.
    - simpl. by rewrite JsMapFacts.get_delete_ne. }
  assert (Hs0a : settlements (timeout pa) w = []) by by apply (c_armed _ Hw _ ta).
  assert (Hs0b : settlements (timeout pb) w = []) by by apply (c_armed _ Hw _ tb).
  assert (Hsab : ∀ q, settlements q wab =
            settlements q w ++ (if decide (timeout pa = q) then [response_call ra pa] else [])
              ++ (if decide (timeout pb = q) then [response_call rb pb] else [])).
  { intros q. rewrite Eab. unfold settlements. simpl.
    rewrite filter_app, !filter_cons, filter_nil, Hpa, Hpb.
    by destruct (decide (timeout pa = q)), (decide (timeout pb = q)). }
  assert (Hsba : ∀ q, settlements q wba =
            settlements q w ++ (if decide (timeout pa = q) then [response_call ra pa] else [])
              ++ (if decide (timeout pb = q) then [response_call rb pb] else [])).
  { intros q. rewrite Eba. unfold settlements. simpl.
    rewrite filter_app, !filter_cons, filter_nil, Hpa, Hpb.
    destruct (decide (timeout pa = q)), (decide (timeout pb = q)); try done.
    congruence. }
  split; [by rewrite Eab|]. split; [by rewrite Eba|].
  split; [by rewrite Hpa, Hpb|].
  split; [intros q; by rewrite Hsab, Hsba|].
  split.
  { rewrite Hsba, Hpa, Hs0a, decide_True, decide_False by done. done. }
  split.
  { rewrite Hsba, Hpb, Hs0b, decide_False, decide_True by done. done. }
  rewrite Eab, Eba. simpl.
  rewrite JsMapFacts.delete_comm, list_alter_alter_ne by done. done.
Qed.

Lemma responses_commute_witness :
  let es := [CallStart; ServerListening 0; ServerConnection 0;
             CallSendCommand {| in_type := "CREATE_FRAME"; in_params := JObject [] |}
               "0.aaaaaaaaaaa";
             CallSendCommand {| in_type := "DELETE_NODE"; in_params := JObject [] |}
               "0.bbbbbbbbbbb"] in
  let w := run (boot false None) es in
  let ra := {| resp_id := "0-aaaaaaa"; resp_success := true;
               resp_result := Some [("nodeId", JString "1:23")]; resp_error := None |} in
  let rb := {| resp_id := "0-bbbbbbb"; resp_success := false;
               resp_result := None; resp_error := Some "Node not found" |} in
  let pa := {| resolve := 0; reject := 0; timeout := 0 |} in
  let pb := {| resolve := 1; reject := 1; timeout := 1 |} in
  JsMap.get (resp_id ra) (pendingCommands (bridge w)) = Some pa ∧
  JsMap.get (resp_id rb) (pendingCommands (bridge w)) = Some pb ∧
  resp_id ra ≠ resp_id rb ∧
  settlements 0 (handleResponse ra (handleResponse rb w)) =
    [{| promise := 0; caller := ByResponse;
        outcome := Resolved [("nodeId", JString "1:23")] |}] ∧
  settlements 1 (handleResponse ra (handleResponse rb w)) =
    [{| promise := 1; caller := ByResponse;
        outcome := Rejected (Error "Node not found") |}].
Proof.
  intros es w ra rb pa pb.
  assert (Ha : JsMap.get (resp_id ra) (pendingCommands (bridge w)) = Some pa) by reflexivity.
  assert (Hb : JsMap.get (resp_id rb) (pendingCommands (bridge w)) = Some pb) by reflexivity.
  assert (Hne : resp_id ra ≠ resp_id rb) by (simpl; discriminate).
  split; [exact Ha|]. split; [exact Hb|]. split; [exact Hne|].
  destruct (responses_commute false None es ra rb pa pb Ha Hb Hne)
    as (_ & _ & _ & _ & H1 & H2 & _).
  split; [exact H1 | exact H2].
Defined.

(** ** Stopping the bridge *)

Lemma filter_unique {A B} `{EqDecision B} (f : A → B) (l : list A) (x : A) :
  NoDup (f <$> l) → x ∈ l → filter (λ y, f y = f x) l = [x].
Proof.
  induction l as [|y l IH]; [by intros _ ?%elem_of_nil|].
  rewrite fmap_cons, NoDup_cons. intros [Hnin Hnd] [->|Hin]%elem_of_cons.
  - rewrite filter_cons_True by done. f_equal.
    clear IH Hnd. induction l as [|z l IH]; [done|].
    rewrite fmap_cons, not_elem_of_cons in Hnin. destruct Hnin as [Hne Hnin].
    rewrite filter_cons_False by congruence. by apply IH.
  - rewrite filter_cons_False; [by apply IH|].
    intros E. apply Hnin. rewrite E. apply list_elem_of_fmap. by exists x.
Qed.

(** In a consistent world the entries of the table belong to different promises. *)
Lemma table_promises_NoDup w :
  consistent w → NoDup ((λ e, reject e.2) <$> pendingCommands (bridge w)).
Proof.
  intros Hw.
  set (g := λ t : nat, default "" (cb_id ∘ callback <$> timers w !! t)).
  apply (NoDup_fmap_1 g). rewrite <- list_fmap_compose.
  erewrite list_fmap_ext; [apply (c_wf _ Hw)|].
  intros i [id pe] Hi. simpl.
  assert (Hget : JsMap.get id (pendingCommands (bridge w)) = Some pe).
  { apply JsMapFacts.elem_of_get; [apply Hw|]. by eapply list_elem_of_lookup_2. }
  destruct (c_table _ Hw _ _ Hget) as (_ & Hrej & tm & Htm & _ & Hid).
  unfold g. by rewrite Hrej, Htm.
Qed.

Lemma stop_settles w id pe :
  consistent w →
  JsMap.get id (pendingCommands (bridge w)) = Some pe →
  settlements (reject pe) (stop w) = [stop_call pe].
Proof.
  intros Hw Hget. unfold settlements. rewrite stop_calls, filter_app.
  destruct (c_table _ Hw _ _ Hget) as (_ & Hrej & tm & Htm & Ha & _).
  fold (settlements (reject pe) w). rewrite Hrej, (c_armed _ Hw _ _ Htm Ha), <- Hrej.
  simpl.
  assert (Hin : (id, pe) ∈ pendingCommands (bridge w)) by by apply JsMapFacts.get_Some_elem_of.
  pose proof (filter_unique (λ e : string * PendingCommand, reject e.2)
                (pendingCommands (bridge w)) (id, pe) (table_promises_NoDup w Hw) Hin) as Hf.
  simpl in Hf.
  transitivity ((λ e : string * PendingCommand, stop_call e.2) <$>
                  filter (λ e : string * PendingCommand, reject e.2 = reject pe)
                    (pendingCommands (bridge w))).
  - generalize (pendingCommands (bridge w)). clear. intros l.
    induction l as [|e l IH]; [done|].
    rewrite fmap_cons, filter_cons, (filter_cons _ e l). simpl.
    destruct (decide (reject e.2 = reject pe)); [rewrite fmap_cons|]; by rewrite IH.
  - change [stop_call pe] with ((λ e : string * PendingCommand, stop_call e.2) <$> [(id, pe)]).
    f_equal. exact Hf.
Qed.

Lemma stop_frame w :
  sockets (stop w) = sockets w ∧
  bridge (stop w) =
    {| wss := None; client := None; pendingCommands := []; port := port (bridge w);
       isRunning := false |} ∧
  promises (stop w) = promises w ∧
  now (stop w) = now w ∧
  console (stop w) =
    Logger.write (logger w) LInfo "Plugin bridge stopped" NoData (console w).
Proof.
  destruct (stop_unfold w) as (w0 & Hcore & Hb & Hs & Hl & Hc & Hn & ->). simpl.
  destruct (drain_frame (pendingCommands (bridge w)) w0)
    as (-> & -> & _ & -> & -> & -> & ->).
  rewrite Hb, Hs, Hl, Hc, Hn. unfold core in Hcore. injection Hcore as _ _ -> _.
  done.
Qed.

(** C4, as the code has it.  In every state, [stop()] empties the table
    and, entry by entry in table order, cancels the entry's timer and
    calls its [reject] with [new Error('Plugin bridge stopped')]; in a
    state the bridge can be in, that call is the only one the promise of
    the entry ever got, so no promise of the table stays unsettled.  The
    error is a plain [Error]: it differs from [PluginNotConnectedError] and
    from every [PluginTimeoutError], and it differs from the error made
    for a peer's response exactly when the text that response yields is
    not itself 'Plugin bridge stopped'. *)
Theorem stop_rejects_every_pending_entry w :
  pendingCommands (bridge (stop w)) = [] ∧
  calls (stop w) =
    calls w ++ ((λ entry, {| promise := reject entry.2; caller := ByStop;
                             outcome := Rejected (Error "Plugin bridge stopped") |})
                  <$> pendingCommands (bridge w)) ∧
  (∀ id pe, JsMap.get id (pendingCommands (bridge w)) = Some pe →
     timers (stop w) !! timeout pe = disarm Cleared <$> timers w !! timeout pe ∧
     ∀ tm, timers (stop w) !! timeout pe = Some tm → status tm ≠ Armed) ∧
  (reachable w →
   ∀ id pe, JsMap.get id (pendingCommands (bridge w)) = Some pe →
     settlements (reject pe) (stop w) =
       [{| promise := reject pe; caller := ByStop;
           outcome := Rejected (Error "Plugin bridge stopped") |}]) ∧
  Error "Plugin bridge stopped" ≠ PluginNotConnectedError ∧
  (∀ commandType timeoutMs,
     Error "Plugin bridge stopped" ≠ PluginTimeoutError commandType timeoutMs) ∧
  (∀ response,
     Error (or_else (resp_error response) "Unknown plugin error") ≠
       Error "Plugin bridge stopped" ↔
     or_else (resp_error response) "Unknown plugin error" ≠ "Plugin bridge stopped") ∧
  (∀ response, resp_error response = None →
     Error (or_else (resp_error response) "Unknown plugin error") ≠
       Error "Plugin bridge stopped").
Proof.
  split; [apply stop_pending|]. split; [apply stop_calls|]. split.
  { intros id pe Hget.
    assert (Hin : timeout pe ∈ (λ e : string * PendingCommand, timeout e.2)
                                 <$> pendingCommands (bridge w)).
    { apply list_elem_of_fmap. exists (id, pe). split; [done|].
      by apply JsMapFacts.get_Some_elem_of. }
    rewrite stop_timers, decide_True by done. split; [done|].
    intros tm. destruct (timers w !! timeout pe) as [tm0|]; [|done].
    intros [= <-]. by apply disarm_status. }
  split.
  { intros Hr id pe Hget. by apply (stop_settles w id pe (reachable_consistent w Hr)). }
  split; [done|]. split; [done|]. split.
  { intros response. split; [congruence|]. intros H [= E]. done. }
  intros response ->. done.
Qed.

Lemma stop_rejects_every_pending_entry_witness :
  let w := run (boot false None)
             [CallStart; ServerListening 0; ServerConnection 0;
              CallSendCommand {| in_type := "CREATE_FRAME"; in_params := JObject [] |}
                "0.aaaaaaaaaaa";
              CallSendCommand {| in_type := "DELETE_NODE"; in_params := JObject [] |}
                "0.bbbbbbbbbbb"] in
  let pb := {| resolve := 1; reject := 1; timeout := 1 |} in
  reachable w ∧
  JsMap.get "0-bbbbbbb" (pendingCommands (bridge w)) = Some pb ∧
  settlements 1 (stop w) =
    [{| promise := 1; caller := ByStop;
        outcome := Rejected (Error "Plugin bridge stopped") |}].
Proof.
  intros w pb.
  assert (Hr : reachable w) by (by eexists _, _, _).
  assert (Hg : JsMap.get "0-bbbbbbb" (pendingCommands (bridge w)) = Some pb) by reflexivity.
  split; [exact Hr|]. split; [exact Hg|].
  destruct (stop_rejects_every_pending_entry w) as (_ & _ & _ & H & _).
  exact (H Hr "0-bbbbbbb" pb Hg).
Defined.

(** C4, as stated, fails on the last point: a peer that reports the
    failure text 'Plugin bridge stopped' makes [handleResponse] reject
    with an error equal to the one [stop()] rejects with. *)
Lemma peer_error_can_equal_stop_error :
  let w := run (boot false None)
             [CallStart; ServerListening 0; ServerConnection 0;
              CallSendCommand {| in_type := "DELETE_NODE"; in_params := JObject [] |}
                "0.4fzyo82mvyr"] in
  let response := {| resp_id := "0-4fzyo82"; resp_success := false;
                     resp_result := None;
                     resp_error := Some "Plugin bridge stopped" |} in
  outcome <$> settlements 0 (handleResponse response w) =
    [Rejected (Error "Plugin bridge stopped")] ∧
  outcome <$> settlements 0 (stop w) = [Rejected (Error "Plugin bridge stopped")] ∧
  ¬ (∀ r : PluginResponse,
       Error (or_else (resp_error r) "Unknown plugin error") ≠ Error "Plugin bridge stopped").
Proof.
  intros w response. split_and!; [reflexivity | reflexivity |].
  intros H. by apply (H response).
Qed.

(** [stop()] twice is [stop()] once, but for the second log line. *)
Lemma stop_idempotent w :
  bridge (stop (stop w)) = bridge (stop w) ∧
  sockets (stop (stop w)) = sockets (stop w) ∧
  servers (stop (stop w)) = servers (stop w) ∧
  timers (stop (stop w)) = timers (stop w) ∧
  calls (stop (stop w)) = calls (stop w) ∧
  promises (stop (stop w)) = promises (stop w) ∧
  isConnected (stop (stop w)) = false ∧
  isConnected (stop w) = false.
Proof.
  destruct (stop_frame w) as (Hs & Hb & Hp & Hn & Hc).
  destruct (stop_frame (stop w)) as (Hs' & Hb' & Hp' & Hn' & Hc').
  split_and!; try done.
  - rewrite Hb', Hb. done.
  - unfold stop at 1. rewrite Hb. simpl. done.
  - apply list_eq. intros t. rewrite stop_timers, Hb. simpl. done.
  - rewrite stop_calls, Hb. simpl. by rewrite app_nil_r.
  - unfold isConnected. by rewrite Hb'.
  - unfold isConnected. by rewrite Hb.
Qed.

(** C9 on a bridge with a peer attached: [stop()] closes the listener and
    forgets the peer, but makes no call of [close] on the peer's socket,
    which stays open; the path that replaces a peer does call [close] on
    the socket it drops. *)
Theorem stop_leaves_peer_socket_open :
  let w := run (boot false None) [CallStart; ServerListening 0; ServerConnection 0] in
  client (bridge w) = Some 0%nat ∧
  isConnected w = true ∧
  servers (stop w) = [{| srv_port := 9001; srv_closed := true |}] ∧
  client (bridge (stop w)) = None ∧
  sockets (stop w) = [{| readyState := OPEN; outbox := []; closeCalls := 0 |}] ∧
  sockets (step w (ServerConnection 0)) =
    [{| readyState := CLOSING; outbox := []; closeCalls := 1 |};
     {| readyState := OPEN; outbox := []; closeCalls := 0 |}] ∧
  bridge (stop (stop w)) = bridge (stop w).
Proof. intros w. by split_and!. Qed.

(** ** A command nobody answers times out *)

Lemma append_assoc (a b c : string) : (a +:+ b) +:+ c = a +:+ b +:+ c.
Proof.
  induction a as [|x a IH]; [done|].
  change (String x ((a +:+ b) +:+ c) = String x (a +:+ b +:+ c)). by rewrite IH.
Qed.

Lemma append_empty_r (a : string) : a +:+ "" = a.
Proof.
  induction a as [|x a IH]; [done|].
  change (String x (a +:+ "") = String x a). by rewrite IH.
Qed.

Lemma timeout_message commandType :
  message (PluginTimeoutError commandType COMMAND_TIMEOUT_MS) =
  "Plugin command '" +:+ commandType +:+ "' timed out after 30000ms".
Proof. reflexivity. Qed.

(** C3. A command sent while connected gets a timer of 30000 ms, whatever
    its type and params.  As long as no response bearing its id arrives
    (and the bridge is not stopped) the timer stays armed; it does not
    fire before 30000 ms have passed since the send, and when it fires it
    removes the id from the table and rejects the caller's promise, once,
    with a [PluginTimeoutError] whose message names the command type and
    30000ms. *)
Theorem unanswered_command_times_out isDebug p es0 command rnd es :
  let w := run (boot isDebug p) es0 in
  isConnected w = true →
  let id := generateId (now w) rnd in
  let q := promises w in
  let w1 := (sendCommand command rnd w).2 in
  Forall (quiet id q) es →
  let w2 := run w1 es in
  let w3 := step w2 (TimerFires q) in
  let e := PluginTimeoutError (in_type command) 30000 in
  (sendCommand command rnd w).1 = inr q ∧
  JsMap.get id (pendingCommands (bridge w1)) =
    Some {| resolve := q; reject := q; timeout := q |} ∧
  (∃ tm, timers w2 !! q = Some tm ∧ status tm = Armed ∧
         callback tm = {| cb_id := id; cb_type := in_type command; cb_reject := q |} ∧
         delay tm = 30000%N ∧ due tm = (now w + 30000)%N) ∧
  ((now w2 < now w + 30000)%N → w3 = w2) ∧
  ((now w + 30000 ≤ now w2)%N →
     JsMap.get id (pendingCommands (bridge w3)) = None ∧
     calls w3 = calls w2 ++ [{| promise := q; caller := ByTimeout; outcome := Rejected e |}] ∧
     settlements q w3 = [{| promise := q; caller := ByTimeout; outcome := Rejected e |}] ∧
     ∃ tm, timers w3 !! q = Some tm ∧ status tm = Fired) ∧
  name e = "PluginTimeoutError" ∧
  message e = "Plugin command '" +:+ in_type command +:+ "' timed out after 30000ms" ∧
  contains (in_type command) (message e) ∧
  contains "30000ms" (message e).
Proof.
  intros w Hconn id q w1 Hq w2 w3 e.
  assert (Hw : consistent w) by (apply consistent_run, consistent_boot).
  clearbody w.
  destruct (sendCommand_connected command rnd w Hconn) as (ws & Hws & Hsend).
  assert (Hw1 : consistent w1).
  { unfold w1. by apply consistent_sendCommand. }
  pose proof (c_alloc _ Hw) as Hlen.
  set (tm0 := {| callback := {| cb_id := id; cb_type := in_type command; cb_reject := q |};
                 delay := COMMAND_TIMEOUT_MS;
                 due := (now w + COMMAND_TIMEOUT_MS)%N; status := Armed |}).
  assert (Ht1 : timers w1 !! q = Some tm0).
  { unfold w1. rewrite Hsend. simpl. rewrite lookup_app_r; rewrite Hlen; [|done].
    by rewrite Nat.sub_diag. }
  destruct (run_keeps_armed es w1 id q tm0 Hw1 Ht1 eq_refl eq_refl Hq)
    as (tm & Htm & Ha & (Hcb & Hdl & Hdu & _)).
  fold w2 in Htm.
  assert (Hw2 : consistent w2) by (by apply consistent_run).
  split; [by rewrite Hsend|]. split.
  { unfold w1. rewrite Hsend. simpl. fold id. rewrite JsMapFacts.get_set_eq, Hlen. done. }
  split; [by exists tm|]. split.
  { intros Hlt. unfold w3. cbn [step]. apply fire_idle. intros tm' Htm' _.
    rewrite Htm in Htm'. injection Htm' as <-. rewrite Hdu. simpl.
    apply N.leb_gt. exact Hlt. }
  split.
  { intros Hle. unfold w3. cbn [step].
    rewrite (fire_armed q tm w2 Htm Ha).
    2: { rewrite Hdu. simpl. apply N.leb_le. exact Hle. }
    rewrite Hcb. simpl. split; [apply JsMapFacts.get_delete_eq|]. split; [done|]. split.
    - unfold settlements. simpl. rewrite settlements_snoc. simpl.
      rewrite decide_True by done. by rewrite (c_armed _ Hw2 _ _ Htm Ha).
    - exists (disarm Fired tm). rewrite list_lookup_alter_eq, Htm. simpl.
      split; [done|]. by rewrite Ha. }
  split; [done|]. split; [done|]. split.
  - by exists "Plugin command '", "' timed out after 30000ms".
  - exists ("Plugin command '" +:+ in_type command +:+ "' timed out after "), "".
    rewrite append_empty_r, !append_assoc. done.
Qed.

Lemma unanswered_command_times_out_witness :
  let es0 := [CallStart; ServerListening 0; ServerConnection 0] in
  let command := {| in_type := "DELETE_NODE";
                    in_params := JObject [("nodeId", JString "1:23")] |} in
  let w := run (boot false None) es0 in
  let w3 := run (sendCommand command "0.4fzyo82mvyr" w).2 [Tick 30000; TimerFires 0] in
  isConnected w = true ∧
  Forall (quiet (generateId (now w) "0.4fzyo82mvyr") (promises w)) [Tick 30000] ∧
  settlements 0 w3 =
    [{| promise := 0; caller := ByTimeout;
        outcome := Rejected (PluginTimeoutError "DELETE_NODE" 30000) |}] ∧
  JsMap.get "0-4fzyo82" (pendingCommands (bridge w3)) = None.
Proof.
  intros es0 command w w3.
  assert (Hc : isConnected w = true) by reflexivity.
  assert (Hq : Forall (quiet (generateId (now w) "0.4fzyo82mvyr") (promises w)) [Tick 30000]).
  { by repeat constructor. }
  split; [exact Hc|]. split; [exact Hq|].
  destruct (unanswered_command_times_out false None es0 command "0.4fzyo82mvyr"
              [Tick 30000] Hc Hq) as (_ & _ & _ & _ & Hfire & _).
  destruct Hfire as (Hgone & _ & Hset & _); [by vm_compute|].
  split; [exact Hset | exact Hgone].
Defined.

(** ** Exactly one terminal outcome *)

(** C1. In every state the bridge can reach: no promise has had more than
    one call of its continuations; every command [sendCommand] registered
    has either had exactly one, made by [handleResponse] (resolve, or
    reject with the peer's error), by the timeout callback (reject with
    [PluginTimeoutError]) or by [stop()] (reject with 'Plugin bridge
    stopped'), or has had none and its timer is still armed; the entries of
    the table are among the latter.  Each of the three ends an entry:
    a response bearing the id of an entry removes it, clears its timer and
    makes the one call on its promise, resolving with the result when the
    response has [success] and a result and rejecting with the peer's error
    otherwise; the timer of a command, when it is due, removes the entry
    under its id and rejects with [PluginTimeoutError]; [stop()] empties
    the table and gives each of its entries its one call.  When no id was
    drawn while still pending, every command ever registered has had
    exactly one call once [stop()] has run; and in any case once the timers
    have run out. *)
Theorem pending_entry_settled_exactly_once isDebug p es :
  let w := run (boot isDebug p) es in
  (∀ q, length (settlements q w) ≤ 1) ∧
  (∀ q, promises w ≤ q → settlements q w = []) ∧
  (∀ q, q < promises w →
     ∃ tm, timers w !! q = Some tm ∧ cb_reject (callback tm) = q ∧
           ((status tm = Armed ∧ settlements q w = []) ∨
            (∃ c, settlements q w = [c] ∧ isSettledBy tm c))) ∧
  (∀ id pe, JsMap.get id (pendingCommands (bridge w)) = Some pe →
     resolve pe = reject pe ∧ reject pe < promises w ∧
     settlements (reject pe) w = [] ∧
     ∃ tm, timers w !! timeout pe = Some tm ∧ status tm = Armed ∧
           callback tm = {| cb_id := id; cb_type := cb_type (callback tm);
                            cb_reject := reject pe |}) ∧
  (∀ response pe,
     JsMap.get (resp_id response) (pendingCommands (bridge w)) = Some pe →
     let w' := handleResponse response w in
     JsMap.get (resp_id response) (pendingCommands (bridge w')) = None ∧
     (∃ tm, timers w' !! timeout pe = Some tm ∧ status tm = Cleared) ∧
     settlements (reject pe) w' =
       [{| promise := reject pe; caller := ByResponse;
           outcome :=
             match resp_success response, resp_result response with
             | true, Some result => Resolved result
             | _, _ =>
                 Rejected (Error (or_else (resp_error response) "Unknown plugin error"))
             end |}]) ∧
  (∀ t tm, timers w !! t = Some tm → status tm = Armed → (due tm ≤ now w)%N →
     let w' := fire t w in
     JsMap.get (cb_id (callback tm)) (pendingCommands (bridge w')) = None ∧
     (∃ tm', timers w' !! t = Some tm' ∧ status tm' = Fired) ∧
     settlements t w' =
       [{| promise := t; caller := ByTimeout;
           outcome := Rejected (PluginTimeoutError (cb_type (callback tm))
                                  COMMAND_TIMEOUT_MS) |}]) ∧
  pendingCommands (bridge (stop w)) = [] ∧
  (∀ id pe, JsMap.get id (pendingCommands (bridge w)) = Some pe →
     settlements (reject pe) (stop w) =
       [{| promise := reject pe; caller := ByStop;
           outcome := Rejected (Error "Plugin bridge stopped") |}]) ∧
  (fresh_run (boot isDebug p) es →
   ∀ q, q < promises w →
     ∃ tm c, timers (stop w) !! q = Some tm ∧ settlements q (stop w) = [c] ∧
             isSettledBy tm c) ∧
  (∀ q, q < promises w →
     ∃ tm c, timers (expire w) !! q = Some tm ∧ settlements q (expire w) = [c] ∧
             isSettledBy tm c).
Proof.
  intros w.
  assert (Hw : consistent w) by (apply consistent_run, consistent_boot).
  assert (Ht : timely w) by (apply timely_run, timely_boot).
  assert (Hf : fresh_run (boot isDebug p) es → tracked w).
  { apply tracked_run; [apply consistent_boot | apply tracked_boot]. }
  clearbody w.
  assert (Hstate : ∀ q, q < promises w →
     ∃ tm, timers w !! q = Some tm ∧ cb_reject (callback tm) = q ∧
           ((status tm = Armed ∧ settlements q w = []) ∨
            (∃ c, settlements q w = [c] ∧ isSettledBy tm c))).
  { intros q Hq. rewrite <- (c_alloc _ Hw) in Hq.
    destruct (lookup_lt_is_Some_2 _ _ Hq) as [tm Htm]. exists tm.
    split; [done|]. split; [by apply (c_timer _ Hw)|].
    destruct (decide (status tm = Armed)) as [Ha|Ha].
    - left. split; [done|]. by apply (c_armed _ Hw _ tm).
    - right. by apply (c_done _ Hw). }
  split.
  { intros q. destruct (decide (q < promises w)) as [Hq|Hq].
    - destruct (Hstate q Hq) as (tm & _ & _ & [[_ ->]|(c & -> & _)]); simpl; lia.
    - rewrite (c_future _ Hw) by lia. simpl. lia. }
  split; [apply (c_future _ Hw)|]. split; [done|]. split.
  { intros id pe Hget.
    destruct (c_table _ Hw _ _ Hget) as (Hres & Hrej & tm & Htm & Ha & Hid).
    destruct (c_timer _ Hw _ _ Htm) as [Hcb _].
    split; [congruence|]. split.
    { rewrite Hrej, <- (c_alloc _ Hw). by eapply lookup_lt_Some. }
    split; [rewrite Hrej; by apply (c_armed _ Hw _ tm)|].
    exists tm. split; [done|]. split; [done|].
    destruct (callback tm) as [i ty r]. simpl in *. congruence. }
  split.
  { intros response pe Hget w'.
    destruct (c_table _ Hw _ _ Hget) as (Hres & Hrej & tm & Htm & Ha & Hid).
    unfold w'. rewrite (handleResponse_pending _ _ pe) by congruence.
    split; [apply JsMapFacts.get_delete_eq|]. split.
    - exists (disarm Cleared tm). simpl. rewrite list_lookup_alter_eq, Htm. simpl.
      split; [done|]. by apply disarm_armed.
    - unfold settlements. simpl. rewrite settlements_snoc. simpl.
      rewrite decide_True by done.
      rewrite Hrej, (c_armed _ Hw _ _ Htm Ha). done. }
  split.
  { intros t tm Htm Ha Hdue w'. unfold w'.
    rewrite (fire_armed t tm w Htm Ha) by (by apply N.leb_le).
    destruct (c_timer _ Hw _ _ Htm) as [Hcb _].
    split; [apply JsMapFacts.get_delete_eq|]. split.
    - exists (disarm Fired tm). simpl. rewrite list_lookup_alter_eq, Htm. simpl.
      split; [done|]. by apply disarm_armed.
    - unfold settlements. simpl. rewrite settlements_snoc. simpl.
      rewrite Hcb, decide_True by done.
      by rewrite (c_armed _ Hw _ _ Htm Ha). }
  split; [apply stop_pending|]. split.
  { intros id pe Hget. by apply (stop_settles w id pe). }
  split.
  { intros Hfresh q Hq. specialize (Hf Hfresh).
    assert (Hws : consistent (stop w)) by by apply consistent_stop.
    rewrite <- stop_promises, <- (c_alloc _ Hws) in Hq.
    destruct (lookup_lt_is_Some_2 _ _ Hq) as [tm Htm].
    destruct (c_done _ Hws _ _ Htm (stop_disarms w q tm Hf Htm)) as (c & ? & ?).
    by exists tm, c. }
  intros q Hq. by apply expire_settles.
Qed.

Lemma pending_entry_settled_exactly_once_witness :
  let es := [CallStart; ServerListening 0; ServerConnection 0;
             CallSendCommand {| in_type := "CREATE_FRAME"; in_params := JObject [] |}
               "0.aaaaaaaaaaa";
             CallSendCommand {| in_type := "DELETE_NODE"; in_params := JObject [] |}
               "0.bbbbbbbbbbb";
             SocketMessage 0 (Some {| resp_id := "0-aaaaaaa"; resp_success := true;
                                      resp_result := Some [("nodeId", JString "1:23")];
                                      resp_error := None |})] in
  let w := run (boot false None) es in
  let reply := {| resp_id := "0-bbbbbbb"; resp_success := false;
                  resp_result := None; resp_error := Some "Node not found" |} in
  fresh_run (boot false None) es ∧
  (1 < promises w)%nat ∧
  JsMap.get (resp_id reply) (pendingCommands (bridge w)) =
    Some {| resolve := 1; reject := 1; timeout := 1 |} ∧
  settlements 1 (handleResponse reply w) =
    [{| promise := 1; caller := ByResponse;
        outcome := Rejected (Error "Node not found") |}] ∧
  ∃ tm c, timers (stop w) !! 1%nat = Some tm ∧ settlements 1 (stop w) = [c] ∧
          isSettledBy tm c.
Proof.
  intros es w reply.
  assert (Hf : fresh_run (boot false None) es) by (by repeat split).
  assert (Hq : (1 < promises w)%nat) by (vm_compute; lia).
  assert (Hget : JsMap.get (resp_id reply) (pendingCommands (bridge w)) =
                 Some {| resolve := 1; reject := 1; timeout := 1 |}) by reflexivity.
  split; [exact Hf|]. split; [exact Hq|]. split; [exact Hget|].
  destruct (pending_entry_settled_exactly_once false None es)
    as (_ & _ & _ & _ & Hresp & _ & _ & _ & H & _).
  split; [exact (proj2 (proj2 (Hresp reply _ Hget))) | exact (H Hf 1%nat Hq)].
Defined.

(** C1, as stated, fails: a command whose id is drawn again while it is
    still pending loses its entry to the later command, and [stop()], which
    drains the table, does not reach it.  After [stop()] the table is empty,
    the later command has been rejected, and the earlier one has had no
    call at all: its timer is still armed, and only that timer ends it. *)
Lemma overwritten_command_is_not_settled_by_stop :
  let command := {| in_type := "DELETE_NODE"; in_params := JObject [] |} in
  let w := run (boot false None)
             [CallStart; ServerListening 0; ServerConnection 0;
              CallSendCommand command "0.4fzyo82mvyr";
              CallSendCommand command "0.4fzyo82mvyr";
              CallStop] in
  promises w = 2%nat ∧
  pendingCommands (bridge w) = [] ∧
  settlements 1 w = [{| promise := 1; caller := ByStop;
                        outcome := Rejected (Error "Plugin bridge stopped") |}] ∧
  settlements 0 w = [] ∧
  status <$> timers w !! 0%nat = Some Armed ∧
  settlements 0 (expire w) =
    [{| promise := 0; caller := ByTimeout;
        outcome := Rejected (PluginTimeoutError "DELETE_NODE" 30000) |}].
Proof. intros command w. by vm_compute. Qed.

(** ** Scenarios *)

(** A frame is created: the peer answers with the node id and the caller's
    promise is resolved with it. *)
Example create_frame_scenario :
  let w := run (boot false None)
             [CallStart; ServerListening 0; ServerConnection 0; Tick 1700;
              CallSendCommand
                {| in_type := "CREATE_FRAME";
                   in_params := JObject [("width", JNumber 100); ("height", JNumber 50)] |}
                "0.4fzyo82mvyr";
              Tick 10;
              SocketMessage 0
                (Some {| resp_id := "1700-4fzyo82"; resp_success := true;
                         resp_result := Some [("nodeId", JString "1:23")];
                         resp_error := None |})] in
  calls w = [{| promise := 0; caller := ByResponse;
                outcome := Resolved [("nodeId", JString "1:23")] |}] ∧
  pendingCommands (bridge w) = [] ∧
  status <$> timers w = [Cleared].
Proof. by vm_compute. Qed.

(** Nobody answers a [DELETE_NODE]: the caller gets the timeout after the
    window, and the reply that comes later is dropped with a warning. *)
Example late_reply_scenario :
  let w := run (boot false None)
             [CallStart; ServerListening 0; ServerConnection 0; Tick 1700] in
  let w1 := (deleteNode "1:23" "0.4fzyo82mvyr" w).2 in
  let reply := SocketMessage 0
                 (Some {| resp_id := "1700-4fzyo82"; resp_success := true;
                          resp_result := Some [("nodeId", JString "1:23")];
                          resp_error := None |}) in
  calls (run w1 [Tick 29999; TimerFires 0]) = [] ∧
  calls (run w1 [Tick 30000; TimerFires 0; reply]) =
    [{| promise := 0; caller := ByTimeout;
        outcome := Rejected
          {| name := "PluginTimeoutError";
             message := "Plugin command 'DELETE_NODE' timed out after 30000ms";
             code := Some "PLUGIN_BRIDGE_ERROR" |} |}] ∧
  log_message <$> last (console (run w1 [Tick 30000; TimerFires 0; reply])) =
    Some "Received response for unknown command: 1700-4fzyo82".
Proof. by vm_compute. Qed.

(** Two commands, answered in the other order. *)
Example out_of_order_scenario :
  let w := run (boot false None)
             [CallStart; ServerListening 0; ServerConnection 0;
              CallSendCommand {| in_type := "CREATE_FRAME"; in_params := JObject [] |}
                "0.aaaaaaaaaaa";
              CallSendCommand {| in_type := "CREATE_TEXT"; in_params := JObject [] |}
                "0.bbbbbbbbbbb";
              SocketMessage 0
                (Some {| resp_id := "0-bbbbbbb"; resp_success := true;
                         resp_result := Some [("nodeId", JString "2:2")];
                         resp_error := None |});
              SocketMessage 0
                (Some {| resp_id := "0-aaaaaaa"; resp_success := true;
                         resp_result := Some [("nodeId", JString "1:1")];
                         resp_error := None |})] in
  outcome <$> settlements 0 w = [Resolved [("nodeId", JString "1:1")]] ∧
  outcome <$> settlements 1 w = [Resolved [("nodeId", JString "2:2")]].
Proof. by vm_compute. Qed.

(** ** Further properties: the bridge, the utilities, the configuration
    and the peer *)

(** ** More about the bridge *)

(** X1. A response delivered a second time is dropped: whatever the first
    delivery did, the second only logs the warning for an unknown command;
    no continuation is called again and the table and timers stay. *)
Theorem duplicate_response_is_dropped response w :
  let w1 := handleResponse response w in
  let w2 := handleResponse response w1 in
  w2 = log LWarn ("Received response for unknown command: " +:+ resp_id response) NoData w1 ∧
  calls w2 = calls w1 ∧
  timers w2 = timers w1 ∧
  bridge w2 = bridge w1 ∧
  sockets w2 = sockets w1.
Proof.
  intros w1 w2.
  assert (Hget : JsMap.get (resp_id response) (pendingCommands (bridge w1)) = None).
  { unfold w1, handleResponse.
    destruct (JsMap.get (resp_id response) (pendingCommands (bridge w))) as [pe|] eqn:E.
    - destruct (resp_success response), (resp_result response); simpl;
        apply JsMapFacts.get_delete_eq.
    - done. }
  unfold w2. rewrite handleResponse_unknown by done. done.
Qed.

(** X2. When the socket of the attached peer closes, the bridge forgets
    the peer at once: [isConnected()] is false and a command sent next is
    rejected with [PluginNotConnectedError]; the commands in flight are
    left alone: their entries, timers and promises are as before. *)
Theorem peer_close_detaches_and_keeps_pending isDebug p es ws :
  let w := run (boot isDebug p) es in
  client (bridge w) = Some ws →
  let w' := step w (SocketClose ws) in
  client (bridge w') = None ∧
  isConnected w' = false ∧
  (∀ command rnd, sendCommand command rnd w' = (inl PluginNotConnectedError, w')) ∧
  pendingCommands (bridge w') = pendingCommands (bridge w) ∧
  timers w' = timers w ∧
  calls w' = calls w ∧
  (∀ s, sockets w' !! ws = Some s → readyState s = CLOSED).
Proof.
  intros w Hcl w'.
  assert (Hlt : is_Some (sockets w !! ws)).
  { apply lookup_lt_is_Some.
    apply (client_valid_run es (boot isDebug p)); [apply client_valid_boot | done]. }
  clearbody w.
  assert (Hstep : w' = log LInfo "Figma plugin disconnected" NoData
                         (set_bridge (set_client None (bridge w))
                            (set_sockets (alter closed ws (sockets w)) w))).
  { unfold w'. cbn [step]. rewrite decide_True by done. unfold on_close. simpl.
    by rewrite decide_True. }
  assert (Hc : isConnected w' = false) by by rewrite Hstep.
  split; [by rewrite Hstep|]. split; [done|]. split.
  { intros command rnd. by apply sendCommand_not_connected. }
  rewrite Hstep. simpl. split_and!; try done.
  intros s. rewrite list_lookup_alter_eq. destruct (sockets w !! ws); [|done].
  by intros [= <-].
Qed.

Lemma peer_close_detaches_and_keeps_pending_witness :
  let es := [CallStart; ServerListening 0; ServerConnection 0;
             CallSendCommand {| in_type := "CREATE_FRAME"; in_params := JObject [] |}
               "0.4fzyo82mvyr"] in
  let w := run (boot false None) es in
  client (bridge w) = Some 0%nat ∧
  isConnected (step w (SocketClose 0)) = false ∧
  pendingCommands (bridge (step w (SocketClose 0))) = pendingCommands (bridge w).
Proof.
  intros es w.
  assert (H : client (bridge w) = Some 0%nat) by reflexivity.
  split; [exact H|].
  destruct (peer_close_detaches_and_keeps_pending false None es 0 H)
    as (_ & Hc & _ & Hp & _).
  split; [exact Hc | exact Hp].
Defined.

(** X3. The ['close'] event of a socket that is not the client (one that
    was replaced) changes nothing in the bridge: the current peer stays
    attached and addressable, and nothing is logged. *)
Theorem stale_close_keeps_current_peer w ws stale :
  client (bridge w) = Some ws → stale ≠ ws →
  let w' := step w (SocketClose stale) in
  bridge w' = bridge w ∧
  isConnected w' = isConnected w ∧
  sockets w' !! ws = sockets w !! ws ∧
  console w' = console w ∧
  timers w' = timers w ∧
  calls w' = calls w.
Proof.
  intros Hcl Hne w'. unfold w'. cbn [step].
  destruct (decide (is_Some (sockets w !! stale))); [|done].
  unfold on_close. simpl. rewrite Hcl.
  rewrite decide_False by congruence. simpl.
  unfold isConnected. simpl. rewrite Hcl.
  rewrite list_lookup_alter_ne by done. done.
Qed.

Lemma stale_close_keeps_current_peer_witness :
  let w := run (boot false None)
             [CallStart; ServerListening 0; ServerConnection 0; ServerConnection 0] in
  client (bridge w) = Some 1%nat ∧ 0%nat ≠ 1%nat ∧
  isConnected (step w (SocketClose 0)) = true ∧
  client (bridge (step w (SocketClose 0))) = Some 1%nat.
Proof.
  intros w.
  assert (H : client (bridge w) = Some 1%nat) by reflexivity.
  assert (Hne : 0%nat ≠ 1%nat) by lia.
  split; [exact H|]. split; [exact Hne|].
  destruct (stale_close_keeps_current_peer w 1 0 H Hne) as (Hb & Hc & _).
  split; [rewrite Hc; reflexivity | rewrite Hb; exact H].
Defined.

(** The frame [sendCommand] writes for [command] with the random text [rnd]
    at time [now]. *)
Lemma isConnected_sendCommand command rnd w :
  isConnected w = true → isConnected (sendCommand command rnd w).2 = true.
Proof.
  intros Hc. destruct (sendCommand_connected command rnd w Hc) as (ws & Hws & ->).
  unfold isConnected in *. simpl. rewrite Hws in *. rewrite list_lookup_alter_eq.
  by destruct (sockets w !! ws).
Qed.

Lemma sendCommand_frame_other command rnd w :
  client (bridge (sendCommand command rnd w).2) = client (bridge w) ∧
  now (sendCommand command rnd w).2 = now w.
Proof.
  destruct (isConnected w) eqn:Hc.
  - by destruct (sendCommand_connected command rnd w Hc) as (ws & Hws & ->).
  - by rewrite sendCommand_not_connected.
Qed.

(** X4. Commands sent back to back while a peer is attached are written
    to the peer's socket in call order, one frame per command, and to no
    other socket.  Each frame carries the type and params it was given,
    the time of the send, and the id under which the command is registered
    until then or the next command with that id. *)
Theorem commands_are_written_in_send_order w ws s sends :
  isConnected w = true →
  client (bridge w) = Some ws →
  sockets w !! ws = Some s →
  let w' := foldl (λ w send, (sendCommand send.1 send.2 w).2) w sends in
  sockets w' !! ws =
    Some {| readyState := readyState s;
            outbox := outbox s ++
              ((λ send, {| cmd_type := in_type send.1; cmd_params := in_params send.1;
                           cmd_id := generateId (now w) send.2;
                           cmd_timestamp := now w |}) <$> sends);
            closeCalls := closeCalls s |} ∧
  (∀ other, other ≠ ws → sockets w' !! other = sockets w !! other) ∧
  promises w' = (promises w + length sends)%nat ∧
  (∀ command rnd, sends ≠ [] → last sends = Some (command, rnd) →
     JsMap.get (generateId (now w) rnd) (pendingCommands (bridge w')) =
       Some {| resolve := pred (promises w'); reject := pred (promises w');
               timeout := pred (length (timers w')) |}).
Proof.
  intros Hc Hcl Hs w'. unfold w'. clear w'.
  revert w s Hc Hcl Hs. induction sends as [|[command rnd] sends IH]; intros w s Hc Hcl Hs.
  { simpl. rewrite app_nil_r, Nat.add_0_r. split_and!; try done. by destruct s. }
  cbn [foldl fst snd].
  set (w1 := (sendCommand command rnd w).2).
  assert (Hc1 : isConnected w1 = true) by by apply isConnected_sendCommand.
  destruct (sendCommand_frame_other command rnd w) as [Hcl1 Hnow1]. fold w1 in Hcl1, Hnow1.
  assert (Hs1 : sockets w1 !! ws =
                Some (WebSocket_send {| cmd_type := in_type command;
                                        cmd_params := in_params command;
                                        cmd_id := generateId (now w) rnd;
                                        cmd_timestamp := now w |} s)).
  { unfold w1. rewrite (sendCommand_sockets command rnd w ws) by done.
    by rewrite list_lookup_alter_eq, Hs. }
  assert (Hp1 : promises w1 = S (promises w)).
  { unfold w1. by destruct (sendCommand_connected command rnd w Hc) as (ws' & _ & ->). }
  destruct (IH w1 _ Hc1 (eq_trans Hcl1 Hcl) Hs1) as (Hbox & Hoth & Hprom & Hlast).
  split.
  { rewrite Hbox. simpl. rewrite Hnow1, <- app_assoc. done. }
  split.
  { intros other Hne. rewrite Hoth by done. unfold w1.
    rewrite (sendCommand_sockets command rnd w ws) by done.
    by rewrite list_lookup_alter_ne. }
  split.
  { rewrite Hprom, Hp1. simpl. lia. }
  intros command' rnd' _ Hl.
  destruct sends as [|send sends'].
  - simpl in Hl. injection Hl as <- <-. simpl. fold w1. unfold w1.
    destruct (sendCommand_connected command rnd w Hc) as (ws' & _ & ->). simpl.
    rewrite JsMapFacts.get_set_eq, length_app. simpl.
    by rewrite Nat.add_1_r.
  - rewrite <- Hnow1. apply (Hlast command' rnd'); [done|]. by rewrite last_cons_cons in Hl.
Qed.

Lemma commands_are_written_in_send_order_witness :
  let w := run (boot false None) [CallStart; ServerListening 0; ServerConnection 0; Tick 5] in
  let a := {| in_type := "CREATE_FRAME"; in_params := JObject [] |} in
  let b := {| in_type := "DELETE_NODE"; in_params := JObject [] |} in
  let w' := foldl (λ w send, (sendCommand send.1 send.2 w).2) w
              [(a, "0.aaaaaaaaaaa"); (b, "0.bbbbbbbbbbb")] in
  isConnected w = true ∧
  client (bridge w) = Some 0%nat ∧
  sockets w !! 0%nat = Some {| readyState := OPEN; outbox := []; closeCalls := 0 |} ∧
  (outbox <$> sockets w' !! 0%nat) =
    Some [{| cmd_type := "CREATE_FRAME"; cmd_params := JObject [];
             cmd_id := "5-aaaaaaa"; cmd_timestamp := 5 |};
          {| cmd_type := "DELETE_NODE"; cmd_params := JObject [];
             cmd_id := "5-bbbbbbb"; cmd_timestamp := 5 |}].
Proof.
  intros w a b w'.
  assert (H1 : isConnected w = true) by reflexivity.
  assert (H2 : client (bridge w) = Some 0%nat) by reflexivity.
  assert (H3 : sockets w !! 0%nat =
               Some {| readyState := OPEN; outbox := []; closeCalls := 0 |}) by reflexivity.
  split; [exact H1|]. split; [exact H2|]. split; [exact H3|].
  destruct (commands_are_written_in_send_order w 0 _
              [(a, "0.aaaaaaaaaaa"); (b, "0.bbbbbbbbbbb")] H1 H2 H3) as (H & _).
  fold w' in H. rewrite H. reflexivity.
Defined.

(** X5. After [stop()] the bridge is inert: a command is rejected with
    [PluginNotConnectedError], every response is dropped with the warning
    for an unknown command, and the timer of an entry that was in the
    table does nothing when its time comes. *)
Theorem stopped_bridge_is_inert w :
  isConnected (stop w) = false ∧
  (∀ command rnd,
     sendCommand command rnd (stop w) = (inl PluginNotConnectedError, stop w)) ∧
  (∀ response,
     handleResponse response (stop w) =
       log LWarn ("Received response for unknown command: " +:+ resp_id response) NoData
         (stop w)) ∧
  (∀ id pe, JsMap.get id (pendingCommands (bridge w)) = Some pe →
     fire (timeout pe) (stop w) = stop w).
Proof.
  assert (Hc : isConnected (stop w) = false).
  { unfold isConnected. destruct (stop_frame w) as (_ & -> & _). done. }
  split; [done|]. split.
  { intros command rnd. by apply sendCommand_not_connected. }
  split.
  { intros response. apply handleResponse_unknown. by rewrite stop_pending. }
  intros id pe Hget. apply fire_idle. intros tm Htm Ha. exfalso.
  assert (Hin : timeout pe ∈ (λ e : string * PendingCommand, timeout e.2)
                               <$> pendingCommands (bridge w)).
  { apply list_elem_of_fmap. exists (id, pe). split; [done|].
    by apply JsMapFacts.get_Some_elem_of. }
  rewrite stop_timers, decide_True in Htm by done.
  destruct (timers w !! timeout pe) as [tm0|]; [|done]. injection Htm as <-.
  by apply (disarm_status Cleared tm0).
Qed.

Lemma stopped_bridge_is_inert_witness :
  let w := run (boot false None)
             [CallStart; ServerListening 0; ServerConnection 0;
              CallSendCommand {| in_type := "CREATE_FRAME"; in_params := JObject [] |}
                "0.4fzyo82mvyr"; Tick 30000] in
  JsMap.get "0-4fzyo82" (pendingCommands (bridge w)) =
    Some {| resolve := 0; reject := 0; timeout := 0 |} ∧
  calls (step (stop w) (TimerFires 0)) = calls (stop w).
Proof.
  intros w.
  assert (H : JsMap.get "0-4fzyo82" (pendingCommands (bridge w)) =
              Some {| resolve := 0; reject := 0; timeout := 0 |}) by reflexivity.
  split; [exact H|].
  destruct (stopped_bridge_is_inert w) as (_ & _ & _ & Hf).
  exact (f_equal calls (Hf _ _ H)).
Defined.

Lemma stop_servers w :
  servers (stop w) =
  match wss (bridge w) with
  | Some h => alter WebSocketServer_close h (servers w)
  | None => servers w
  end.
Proof.
  unfold stop.
  destruct (wss (bridge w)) as [h|]; cbn [servers log set_console set_bridge];
    match goal with
    | |- servers (foldl _ ?w0 ?l) = _ =>
        change (servers (foldl drain_step w0 l) = servers w0);
        by destruct (drain_frame l w0) as (_ & _ & -> & _)
    end.
Qed.



Lemma step_servers_shape w e :
  port (bridge (step w e)) = port (bridge w) ∧
  (servers (step w e) = servers w ∨
   servers (step w e) =
     servers w ++ [{| srv_port := port (bridge w); srv_closed := false |}] ∨
   ∃ h, servers (step w e) = alter WebSocketServer_close h (servers w)).
Proof.
  destruct e; cbn [step].
  - unfold start. destruct (isRunning (bridge w)); simpl; [(split; [done|by left])|].
    split; [done|]. by right; left.
  - destruct (stop_frame w) as (_ & -> & _). split; [done|].
    rewrite stop_servers. destruct (wss (bridge w)) as [h|]; [|by left].
    right; right. by exists h.
  - destruct (isConnected w) eqn:Hconn.
    + destruct (sendCommand_connected command rnd w Hconn) as (ws & _ & ->). (split; [done|by left]).
    + rewrite sendCommand_not_connected by done. (split; [done|by left]).
  - destruct (decide _); (split; [done|by left]).
  - destruct (decide _); (split; [done|by left]).
  - destruct (decide _); [|(split; [done|by left])]. unfold handleConnection. simpl.
    destruct (client (bridge w)); (split; [done|by left]).
  - destruct (decide _); [|(split; [done|by left])]. destruct data as [r|]; simpl; [|(split; [done|by left])].
    unfold handleResponse. destruct (JsMap.get _ _) as [pe|]; [|(split; [done|by left])].
    destruct (resp_success r), (resp_result r); (split; [done|by left]).
  - destruct (decide _); [|(split; [done|by left])]. unfold on_close. simpl.
    destruct (decide _); (split; [done|by left]).
  - destruct (decide _); (split; [done|by left]).
  - unfold fire. destruct (timers w !! t) as [tm|]; [|(split; [done|by left])].
    destruct (decide _); [|(split; [done|by left])]. destruct (_ <=? _)%N; (split; [done|by left]).
  - (split; [done|by left]).
Qed.

(** X7. The port is fixed when the bridge is constructed (9001 when none
    is given): every listener the bridge ever creates, at the first start
    or at a restart after [stop()], is created on that port. *)
Theorem every_listener_uses_the_constructor_port isDebug p es :
  let w := run (boot isDebug p) es in
  port (bridge w) = default 9001%N p ∧
  ∀ s, s ∈ servers w → srv_port s = default 9001%N p.
Proof.
  intros w. unfold w. clear w.
  assert (H : ∀ w, port (bridge w) = default 9001%N p →
                   Forall (λ s, srv_port s = default 9001%N p) (servers w) →
                   port (bridge (run w es)) = default 9001%N p ∧
                   Forall (λ s, srv_port s = default 9001%N p) (servers (run w es))).
  { induction es as [|e es IH]; intros w Hp Hs; [done|]. simpl. apply IH.
    - destruct (step_servers_shape w e) as [-> _]. done.
    - destruct (step_servers_shape w e) as [_ [->|[->|(h & ->)]]]; [done| |].
      + apply Forall_app. split; [done|]. by repeat constructor.
      + apply Forall_alter; [done|]. by intros s _. }
  destruct (H (boot isDebug p)) as [Hp Hs]; [done | by constructor |].
  split; [done|]. by apply Forall_forall.
Qed.

Lemma step_calls_grow w e : ∃ l, calls (step w e) = calls w ++ l.
Proof.
  assert (Hsame : ∀ w', calls w' = calls w → ∃ l, calls w' = calls w ++ l).
  { intros w' ->. exists []. by rewrite app_nil_r. }
  destruct e; cbn [step]; try (by apply Hsame).
  - apply Hsame. unfold start. by destruct (isRunning (bridge w)).
  - rewrite stop_calls. by eexists.
  - destruct (isConnected w) eqn:Hconn.
    + destruct (sendCommand_connected command rnd w Hconn) as (ws & _ & ->). by apply Hsame.
    + rewrite sendCommand_not_connected by done. by apply Hsame.
  - destruct (decide _); by apply Hsame.
  - destruct (decide _); by apply Hsame.
  - destruct (decide _); [|by apply Hsame]. unfold handleConnection. simpl.
    destruct (client (bridge w)); by apply Hsame.
  - destruct (decide _); [|by apply Hsame]. destruct data as [r|]; simpl; [|by apply Hsame].
    unfold handleResponse. destruct (JsMap.get _ _) as [pe|]; [|by apply Hsame].
    destruct (resp_success r), (resp_result r); by eexists.
  - destruct (decide _); [|by apply Hsame]. unfold on_close. simpl.
    destruct (decide _); by apply Hsame.
  - destruct (decide _); by apply Hsame.
  - unfold fire. destruct (timers w !! t) as [tm|]; [|by apply Hsame].
    destruct (decide _); [|by apply Hsame]. destruct (_ <=? _)%N; [|by apply Hsame].
    by eexists.
Qed.

Lemma run_calls_grow es w : ∃ l, calls (run w es) = calls w ++ l.
Proof.
  revert w. induction es as [|e es IH]; intros w; simpl.
  - exists []. by rewrite app_nil_r.
  - destruct (IH (step w e)) as (l2 & ->). destruct (step_calls_grow w e) as (l1 & ->).
    exists (l1 ++ l2). by rewrite app_assoc.
Qed.

Lemma consistent_at_most_once w q : consistent w → length (settlements q w) ≤ 1.
Proof.
  intros Hw. destruct (decide (q < promises w)) as [Hq|Hq].
  - rewrite <- (c_alloc _ Hw) in Hq. destruct (lookup_lt_is_Some_2 _ _ Hq) as [tm Htm].
    destruct (decide (status tm = Armed)) as [Ha|Ha].
    + rewrite (c_armed _ Hw _ _ Htm Ha). simpl. lia.
    + destruct (c_done _ Hw _ _ Htm Ha) as (c & -> & _). simpl. lia.
  - rewrite (c_future _ Hw) by lia. simpl. lia.
Qed.

(** X8. The first outcome is final: once a continuation of a promise has
    been called, whatever happens afterwards (late or repeated responses,
    timers, [stop()], new commands, even with the same id) never calls a
    continuation of that promise again. *)
Theorem first_outcome_is_final isDebug p es q c later :
  let w := run (boot isDebug p) es in
  settlements q w = [c] →
  settlements q (run w later) = [c].
Proof.
  intros w Hc.
  assert (Hw : consistent (run w later)).
  { apply consistent_run, consistent_run, consistent_boot. }
  pose proof (consistent_at_most_once _ q Hw) as Hle.
  destruct (run_calls_grow later w) as (l & Hl).
  unfold settlements in *. rewrite Hl, filter_app, Hc in *.
  rewrite length_app in Hle. simpl in Hle.
  destruct (filter _ l); [done | simpl in Hle; lia].
Qed.

Lemma first_outcome_is_final_witness :
  let reply := SocketMessage 0
                 (Some {| resp_id := "0-4fzyo82"; resp_success := true;
                          resp_result := Some [("nodeId", JString "1:23")];
                          resp_error := None |}) in
  let es := [CallStart; ServerListening 0; ServerConnection 0;
             CallSendCommand {| in_type := "CREATE_FRAME"; in_params := JObject [] |}
               "0.4fzyo82mvyr"; reply] in
  let c := {| promise := 0; caller := ByResponse;
              outcome := Resolved [("nodeId", JString "1:23")] |} in
  settlements 0 (run (boot false None) es) = [c] ∧
  settlements 0 (run (run (boot false None) es)
                   [reply; Tick 30000; TimerFires 0; CallStop]) = [c].
Proof.
  intros reply es c.
  assert (H : settlements 0 (run (boot false None) es) = [c]) by reflexivity.
  split; [exact H|].
  exact (first_outcome_is_final false None es 0 c
           [reply; Tick 30000; TimerFires 0; CallStop] H).
Defined.

(** X9. The table never holds more entries than there are commands still
    waiting (commands whose timer is armed); when no id was drawn while
    still pending it holds exactly one entry for each of them. *)
Theorem table_holds_the_waiting_commands isDebug p es :
  let w := run (boot isDebug p) es in
  let waiting := filter (λ t, status <$> timers w !! t = Some Armed)
                   (seq 0 (length (timers w))) in
  JsMap.size (pendingCommands (bridge w)) ≤ length waiting ∧
  (fresh_run (boot isDebug p) es →
   JsMap.size (pendingCommands (bridge w)) = length waiting).
Proof.
  intros w waiting.
  assert (Hw : consistent w) by (apply consistent_run, consistent_boot).
  assert (Hf : fresh_run (boot isDebug p) es → tracked w).
  { apply tracked_run; [apply consistent_boot | apply tracked_boot]. }
  clearbody w.
  set (ts := (λ e : string * PendingCommand, timeout e.2) <$> pendingCommands (bridge w)).
  assert (Hnd : NoDup ts).
  { unfold ts. erewrite list_fmap_ext; [apply (table_promises_NoDup w Hw)|].
    intros i [id pe] Hi. simpl.
    assert (Hget : JsMap.get id (pendingCommands (bridge w)) = Some pe).
    { apply JsMapFacts.elem_of_get; [apply Hw|]. by eapply list_elem_of_lookup_2. }
    by destruct (c_table _ Hw _ _ Hget) as (_ & -> & _). }
  assert (Hsub : ∀ t, t ∈ ts → t ∈ waiting).
  { intros t ([id pe] & -> & Hin)%list_elem_of_fmap. simpl.
    assert (Hget : JsMap.get id (pendingCommands (bridge w)) = Some pe).
    { by apply JsMapFacts.elem_of_get; [apply Hw|]. }
    destruct (c_table _ Hw _ _ Hget) as (_ & _ & tm & Htm & Ha & _).
    apply list_elem_of_filter. split; [by rewrite Htm; simpl; rewrite Ha|].
    apply elem_of_seq. apply lookup_lt_Some in Htm. lia. }
  assert (Hlen : JsMap.size (pendingCommands (bridge w)) = length ts).
  { unfold ts, JsMap.size. by rewrite length_fmap. }
  split.
  - rewrite Hlen. apply submseteq_length. by apply NoDup_submseteq.
  - intros Hfresh. specialize (Hf Hfresh). rewrite Hlen.
    apply Nat.le_antisymm.
    + apply submseteq_length. by apply NoDup_submseteq.
    + apply submseteq_length. apply NoDup_submseteq.
      * apply NoDup_filter, NoDup_seq.
      * intros t [Hst _]%list_elem_of_filter.
        destruct (timers w !! t) as [tm|] eqn:Htm; [|done].
        simpl in Hst. injection Hst as Ha.
        destruct (Hf _ _ Htm Ha) as (pe & Hget & <-).
        apply list_elem_of_fmap. exists (cb_id (callback tm), pe). split; [done|].
        by apply JsMapFacts.get_Some_elem_of.
Qed.

Lemma table_holds_the_waiting_commands_witness :
  let es := [CallStart; ServerListening 0; ServerConnection 0;
             CallSendCommand {| in_type := "CREATE_FRAME"; in_params := JObject [] |}
               "0.aaaaaaaaaaa";
             CallSendCommand {| in_type := "DELETE_NODE"; in_params := JObject [] |}
               "0.bbbbbbbbbbb";
             Tick 30000; TimerFires 0] in
  let w := run (boot false None) es in
  fresh_run (boot false None) es ∧
  JsMap.size (pendingCommands (bridge w)) =
    length (filter (λ t, status <$> timers w !! t = Some Armed) (seq 0 (length (timers w)))).
Proof.
  intros es w.
  assert (Hf : fresh_run (boot false None) es) by (by repeat split).
  split; [exact Hf|].
  destruct (table_holds_the_waiting_commands false None es) as [_ H].
  exact (H Hf).
Defined.

(** ** [lib/utils.ts] *)

Lemma string_of_uint_digits d : string_forall isDigit (NilEmpty.string_of_uint d) = true.
Proof. induction d; simpl; done. Qed.

Lemma number_to_string_digits n : string_forall isDigit (number_to_string n) = true.
Proof.
  unfold number_to_string, NilZero.string_of_uint.
  destruct (N.to_uint n) eqn:E; try apply (string_of_uint_digits (_ _)).
  done.
Qed.

Lemma number_to_string_inj n m : number_to_string n = number_to_string m → n = m.
Proof.
  unfold number_to_string. intros H.
  assert (Hn : N.to_uint n ≠ Decimal.Nil).
  { destruct n; simpl; [done | apply DecimalPos.Unsigned.to_uint_nonnil]. }
  assert (Hm : N.to_uint m ≠ Decimal.Nil).
  { destruct m; simpl; [done | apply DecimalPos.Unsigned.to_uint_nonnil]. }
  apply DecimalN.Unsigned.to_uint_inj.
  apply NilZero.usu in Hn, Hm. rewrite H in Hn. congruence.
Qed.

(** Digits, a dash, a rest: the digits and the rest are determined. *)
Lemma digits_dash_inj (a b s t : string) :
  string_forall isDigit a = true →
  string_forall isDigit b = true →
  a +:+ "-" +:+ s = b +:+ "-" +:+ t → a = b ∧ s = t.
Proof.
  revert b. induction a as [|x a IH]; intros [|y b] Ha Hb H.
  - change (String "-" s = String "-" t) in H. by injection H as ->.
  - exfalso. change (String "-" s = String y (b +:+ "-" +:+ t)) in H.
    injection H as <- _. simpl in Hb. done.
  - exfalso. change (String x (a +:+ "-" +:+ s) = String "-" t) in H.
    injection H as -> _. simpl in Ha. done.
  - change (String x (a +:+ "-" +:+ s) = String y (b +:+ "-" +:+ t)) in H.
    injection H as -> H. simpl in Ha, Hb.
    apply andb_true_iff in Ha as [_ Ha]. apply andb_true_iff in Hb as [_ Hb].
    destruct (IH b Ha Hb H) as [-> ->]. done.
Qed.

Lemma substring_0_length n s : String.length (String.substring 0 n s) = Nat.min n (String.length s).
Proof.
  revert s. induction n as [|n IH]; intros [|c s]; simpl; try done.
  by rewrite IH.
Qed.

Lemma substring_length_le a n s : String.length (String.substring a n s) ≤ n.
Proof.
  revert a s. induction n as [|n IH]; intros a s.
  - revert s. induction a as [|a IHa]; intros [|c s]; simpl; done.
  - revert s. induction a as [|a IHa]; intros [|c s]; simpl; try lia.
    + specialize (IH 0%nat s). lia.
    + apply IHa.
Qed.

(** X10. Two ids are equal only if they were made in the same millisecond
    from the same seven characters of random text: ids made at different
    times never collide.  The random part has at most seven characters. *)
Theorem generateId_collides_only_within_a_millisecond now1 rnd1 now2 rnd2 :
  (generateId now1 rnd1 = generateId now2 rnd2 ↔
   now1 = now2 ∧ js_substring 2 9 rnd1 = js_substring 2 9 rnd2) ∧
  String.length (js_substring 2 9 rnd1) ≤ 7.
Proof.
  split; [split|].
  - intros H. unfold generateId in H.
    apply digits_dash_inj in H as [H1 H2]; try apply number_to_string_digits.
    split; [by apply number_to_string_inj | done].
  - intros [-> H]. unfold generateId. by rewrite H.
  - apply substring_length_le.
Qed.

Lemma length_append (a b : string) :
  String.length (a +:+ b) = String.length a + String.length b.
Proof.
  induction a as [|x a IH]; [done|].
  change (S (String.length (a +:+ b)) = S (String.length a + String.length b)).
  by rewrite IH.
Qed.

Lemma substring_0_prefix n s : String.prefix (String.substring 0 n s) s = true.
Proof.
  revert s. induction n as [|n IH]; intros [|c s]; simpl; try done.
  rewrite IH. by destruct (Ascii.ascii_dec c c).
Qed.

(** X11. [truncate] returns the string itself when it fits; otherwise
    the first [maxLength - 3] characters followed by three dots.  The
    result is never longer than [maxLength], except that it is the three
    dots, longer than asked, when a string is cut to less than 3. *)
Theorem truncate_fits_or_cuts str maxLength :
  ((Z.of_nat (String.length str) ≤ maxLength)%Z → truncate str maxLength = str) ∧
  ((maxLength < Z.of_nat (String.length str))%Z →
     truncate str maxLength = js_substring 0 (Z.to_nat (maxLength - 3)) str +:+ "..." ∧
     String.prefix (js_substring 0 (Z.to_nat (maxLength - 3)) str) str = true ∧
     String.length (truncate str maxLength) = Z.to_nat (maxLength - 3) + 3) ∧
  ((3 ≤ maxLength)%Z → (Z.of_nat (String.length (truncate str maxLength)) ≤ maxLength)%Z) ∧
  ((maxLength < 3)%Z → (maxLength < Z.of_nat (String.length str))%Z →
     truncate str maxLength = "...").
Proof.
  assert (Hcut : (maxLength < Z.of_nat (String.length str))%Z →
     truncate str maxLength = js_substring 0 (Z.to_nat (maxLength - 3)) str +:+ "..." ∧
     String.length (truncate str maxLength) = Z.to_nat (maxLength - 3) + 3).
  { intros H. unfold truncate. rewrite (proj2 (Z.leb_gt _ _)) by done.
    split; [done|]. rewrite length_append. unfold js_substring.
    rewrite Nat.sub_0_r, substring_0_length. simpl. lia. }
  split_and!.
  - intros H. unfold truncate. by rewrite (proj2 (Z.leb_le _ _)).
  - intros H. destruct (Hcut H) as [H1 H2]. split_and!; [done | | done].
    unfold js_substring. rewrite Nat.sub_0_r. apply substring_0_prefix.
  - intros H3. destruct (Z.le_gt_cases (Z.of_nat (String.length str)) maxLength) as [H|H].
    + unfold truncate. by rewrite (proj2 (Z.leb_le _ _)).
    + destruct (Hcut H) as [_ ->]. lia.
  - intros H3 H. destruct (Hcut H) as [-> _].
    replace (Z.to_nat (maxLength - 3)) with 0%nat by lia.
    unfold js_substring. by destruct str.
Qed.

Lemma truncate_fits_or_cuts_witness :
  (11 < Z.of_nat (String.length "hello, world"))%Z ∧
  truncate "hello, world" 11 = "hello, w...".
Proof.
  assert (H : (11 < Z.of_nat (String.length "hello, world"))%Z) by (simpl; lia).
  split; [exact H|].
  destruct (truncate_fits_or_cuts "hello, world" 11) as (_ & Hc & _).
  destruct (Hc H) as (-> & _). reflexivity.
Defined.

(** X12. Truncating twice to the same length is truncating once. *)
Theorem truncate_idempotent str maxLength :
  truncate (truncate str maxLength) maxLength = truncate str maxLength.
Proof.
  destruct (Z.le_gt_cases (Z.of_nat (String.length str)) maxLength) as [H|H].
  { unfold truncate at 2. rewrite (proj2 (Z.leb_le _ _)) by done. done. }
  assert (Hr : truncate str maxLength =
               js_substring 0 (Z.to_nat (maxLength - 3)) str +:+ "...").
  { unfold truncate. by rewrite (proj2 (Z.leb_gt _ _)). }
  assert (Hl : String.length (truncate str maxLength) = Z.to_nat (maxLength - 3) + 3).
  { rewrite Hr, length_append. unfold js_substring.
    rewrite Nat.sub_0_r, substring_0_length. simpl. lia. }
  destruct (Z.le_gt_cases 3 maxLength) as [H3|H3].
  - unfold truncate at 1. rewrite (proj2 (Z.leb_le _ _)); [done|]. rewrite Hl. lia.
  - assert (Hd : truncate str maxLength = "...").
    { rewrite Hr. replace (Z.to_nat (maxLength - 3)) with 0%nat by lia.
      unfold js_substring. by destruct str. }
    rewrite Hd. unfold truncate. rewrite (proj2 (Z.leb_gt _ _)) by (simpl; lia).
    replace (Z.to_nat (maxLength - 3)) with 0%nat by lia. done.
Qed.

Lemma retry_loop_spec {E T} (fn : nat → E + T) n d b r a last :
  a + r = n + 1 →
  let R := retry_loop fn n d b r a last in
  rr_calls R ≤ r ∧
  rr_sleeps R = retry_delay d b <$> seq a (rr_calls R - 1) ∧
  (∀ i, a ≤ i < a + (rr_calls R - 1) → ∃ e, fn i = inl e) ∧
  match rr_result R with
  | inr v => 1 ≤ rr_calls R ∧ fn (a + (rr_calls R - 1)) = inr v
  | inl o =>
      rr_calls R = r ∧
      match r with
      | O => o = last
      | S _ => ∃ e, o = Some e ∧ fn n = inl e
      end
  end.
Proof.
  revert a last. induction r as [|r IH]; intros a last Har R.
  { unfold R. simpl. split; [done|]. split; [done|]. split; [|done]. intros i Hi. lia. }
  unfold R. cbn [retry_loop].
  rewrite (proj2 (Nat.leb_le a n)) by lia.
  destruct (fn a) as [e|v] eqn:Hfn.
  2: { simpl. split; [lia|]. split; [done|]. split; [intros i Hi; lia|].
       split; [lia|]. by rewrite Nat.add_0_r. }
  specialize (IH (S a) (Some e)). cbn zeta in IH.
  destruct IH as (Hc & Hs & Hf & Hr); [lia|].
  set (rest := retry_loop fn n d b r (S a) (Some e)) in *.
  cbn [rr_calls rr_sleeps rr_result].
  split; [lia|]. split.
  { rewrite Hs. destruct r as [|r].
    - assert (rr_calls rest = 0) as -> by lia. simpl.
      rewrite (proj2 (Nat.ltb_ge a n)) by lia. done.
    - rewrite (proj2 (Nat.ltb_lt a n)) by lia.
      destruct (rr_calls rest) as [|k] eqn:Hk.
      + exfalso. destruct (rr_result rest); [destruct Hr; lia | destruct Hr; lia].
      + simpl. rewrite Nat.sub_0_r. done. }
  split.
  { intros i Hi. destruct (decide (i = a)) as [->|Hne]; [by eexists|].
    apply Hf. lia. }
  destruct (rr_result rest) as [o|v].
  - destruct Hr as [Hcr Ho]. split; [lia|].
    destruct r as [|r].
    + exists e. split; [done|]. replace n with a by lia. done.
    + done.
  - destruct Hr as [Hc1 Hv]. split; [lia|].
    replace (a + (S (rr_calls rest) - 1)) with (S a + (rr_calls rest - 1)) by lia. done.
Qed.

(** X13. What [retry] does, for every [fn] and all options in whole
    numbers (defaults: 3 attempts, 1000 ms, backoff): a number of attempts
    from 0 up to below 2^53 and a whole delay whose products with the
    attempt numbers stay within 2^53, so that the counter and the delays
    are the exact numbers JavaScript computes.  It calls [fn] until the
    first call that returns and returns that value, every earlier call
    having thrown; or it calls [fn] [maxAttempts] times and throws what the
    last call threw (with 0 attempts it throws [undefined] without calling
    [fn]).  It sleeps once between two calls and never after the last:
    [delayMs] times the number of the failed attempt with backoff,
    [delayMs] without. *)
Theorem retry_returns_first_success_or_last_error {E T} (fn : nat → E + T) options :
  let n := default 3 (maxAttempts options) in
  let d := default 1000%Z (delayMs options) in
  let b := default true (backoff options) in
  let R := retry fn options in
  (Z.of_nat n < 2 ^ 53)%Z →
  (Z.abs d * Z.max 1 (Z.of_nat n) ≤ 2 ^ 53)%Z →
  rr_calls R ≤ n ∧
  rr_sleeps R = retry_delay d b <$> seq 1 (rr_calls R - 1) ∧
  Forall (λ delay, (Z.abs delay ≤ 2 ^ 53)%Z) (rr_sleeps R) ∧
  (∀ i, 1 ≤ i < rr_calls R → ∃ e, fn i = inl e) ∧
  match rr_result R with
  | inr v => 1 ≤ rr_calls R ∧ fn (rr_calls R) = inr v
  | inl None => n = 0 ∧ rr_calls R = 0
  | inl (Some e) => rr_calls R = n ∧ 1 ≤ n ∧ fn n = inl e
  end.
Proof.
  intros n d b R Hn Hd.
  destruct (retry_loop_spec fn n d b n 1 None) as (Hc & Hs & Hf & Hr); [lia|].
  fold n d b in Hc, Hs, Hf, Hr. change (retry_loop fn n d b n 1 None) with R in *.
  split; [done|]. split; [done|]. split.
  { rewrite Hs. apply Forall_fmap, Forall_forall. intros i Hi%elem_of_seq. simpl.
    unfold retry_delay. destruct b; nia. }
  split.
  { intros i Hi. apply Hf. lia. }
  destruct (rr_result R) as [o|v].
  - destruct Hr as [Hcr Ho]. destruct n as [|n'].
    + by subst o.
    + destruct Ho as (e & -> & He). split_and!; [done | lia | done].
  - destruct Hr as [H1 Hv]. split; [done|].
    replace (rr_calls R) with (1 + (rr_calls R - 1)) at 1 by lia. done.
Qed.

Lemma retry_returns_first_success_or_last_error_witness :
  let fn := λ k : nat, if (k <? 3)%nat then inl "busy" else inr "done" in
  let options := {| maxAttempts := Some 5%nat; delayMs := Some 250%Z; backoff := None |} in
  (Z.of_nat 5 < 2 ^ 53)%Z ∧
  (Z.abs 250 * Z.max 1 (Z.of_nat 5) ≤ 2 ^ 53)%Z ∧
  rr_calls (retry fn options) ≤ 5 ∧
  rr_sleeps (retry fn options) = retry_delay 250 true <$> seq 1 (rr_calls (retry fn options) - 1).
Proof.
  intros fn options.
  assert (Hn : (Z.of_nat 5 < 2 ^ 53)%Z) by (vm_compute; reflexivity).
  assert (Hd : (Z.abs 250 * Z.max 1 (Z.of_nat 5) ≤ 2 ^ 53)%Z)
    by (vm_compute; discriminate).
  split; [exact Hn|]. split; [exact Hd|].
  destruct (retry_returns_first_success_or_last_error fn options Hn Hd)
    as (Hc & Hs & _).
  split; [exact Hc | exact Hs].
Defined.

(** X14. [requestWithRetry] of the API client makes at most three
    requests for one call and sleeps at most 3000 ms in all: 1000 ms after
    a first failure, 2000 ms after a second, nothing after a third; it
    tries again after every error, whatever the error is. *)
Theorem requestWithRetry_at_most_three_requests {E T} (request : nat → E + T) :
  let R := requestWithRetry request in
  rr_calls R ≤ 3 ∧
  (rr_sleeps R = [] ∨ rr_sleeps R = [1000%Z] ∨ rr_sleeps R = [1000%Z; 2000%Z]) ∧
  (∀ e1 e2 e3, request 1 = inl e1 → request 2 = inl e2 → request 3 = inl e3 →
     R = {| rr_result := inl (Some e3); rr_calls := 3; rr_sleeps := [1000%Z; 2000%Z] |}) ∧
  (∀ e1 v, request 1 = inl e1 → request 2 = inr v →
     R = {| rr_result := inr v; rr_calls := 2; rr_sleeps := [1000%Z] |}) ∧
  (∀ v, request 1 = inr v →
     R = {| rr_result := inr v; rr_calls := 1; rr_sleeps := [] |}).
Proof.
  intros R. unfold R, requestWithRetry, retry. simpl.
  destruct (request 1) as [e1|v1] eqn:H1; simpl.
  2: { split_and!; try done; auto. by intros v [= ->]. }
  destruct (request 2) as [e2|v2] eqn:H2; simpl.
  2: { split_and!; try done; auto. by intros e v _ [= ->]. }
  destruct (request 3) as [e3|v3] eqn:H3; simpl.
  - split_and!; try done; auto. by intros ? ? ? _ _ [= ->].
  - split_and!; try done; auto.
Qed.

Lemma requestWithRetry_at_most_three_requests_witness :
  let request := λ k : nat, if (k <? 2)%nat then inl "503" else inr "file" in
  request 1 = inl "503" ∧ request 2 = inr "file" ∧
  requestWithRetry request =
    {| rr_result := inr "file"; rr_calls := 2; rr_sleeps := [1000%Z] |}.
Proof.
  intros request.
  assert (H1 : request 1 = inl "503") by reflexivity.
  assert (H2 : request 2 = inr "file") by reflexivity.
  split; [exact H1|]. split; [exact H2|].
  destruct (requestWithRetry_at_most_three_requests request) as (_ & _ & _ & H & _).
  exact (H _ _ H1 H2).
Defined.

Lemma append_cons c (a b : string) : String c a +:+ b = String c (a +:+ b).
Proof. reflexivity. Qed.

Lemma append_nil_l (b : string) : "" +:+ b = b.
Proof. reflexivity. Qed.

Lemma strip_literal_Some lit s r : strip_literal lit s = Some r ↔ s = lit +:+ r.
Proof.
  revert s. induction lit as [|c lit IH]; intros s.
  - rewrite append_nil_l. simpl. destruct s; split; congruence.
  - rewrite append_cons. destruct s as [|d s]; simpl; [split; congruence|].
    destruct (decide (c = d)) as [->|Hne].
    + rewrite IH. split; congruence.
    + split; congruence.
Qed.

Lemma alnum_run_forall s : string_forall isAlnum (alnum_run s) = true.
Proof.
  induction s as [|c s IH]; [done|]. simpl.
  destruct (isAlnum c) eqn:E; [|done]. simpl. by rewrite E.
Qed.

Lemma alnum_run_split s : ∃ rest, s = alnum_run s +:+ rest ∧ alnum_run rest = "".
Proof.
  induction s as [|c s (rest & IH1 & IH2)].
  - by exists "".
  - simpl. destruct (isAlnum c) eqn:E.
    + exists rest. rewrite append_cons. by rewrite <- IH1.
    + exists (String c s). split; [done|]. simpl. by rewrite E.
Qed.

Lemma alnum_run_app key rest :
  string_forall isAlnum key = true → alnum_run rest = "" → alnum_run (key +:+ rest) = key.
Proof.
  intros Hk Hr. induction key as [|c key IH]; [done|].
  simpl in Hk. apply andb_true_iff in Hk as [Hc Hk].
  rewrite append_cons. simpl. rewrite Hc. by rewrite IH.
Qed.

Lemma match_here_Some lit s key :
  match_here lit s = Some key ↔
  key ≠ "" ∧ ∃ r, s = lit +:+ r ∧ alnum_run r = key.
Proof.
  unfold match_here. split.
  - destruct (strip_literal lit s) as [r|] eqn:E; [|done].
    apply strip_literal_Some in E. destruct (alnum_run r) eqn:Er; [done|].
    intros [= <-]. split; [done|]. by exists r.
  - intros (Hne & r & Hs & Hr). apply strip_literal_Some in Hs. rewrite Hs, Hr.
    by destruct key.
Qed.

Lemma match_here_None lit s :
  match_here lit s = None ↔ ∀ r, s = lit +:+ r → alnum_run r = "".
Proof.
  split.
  - intros H r Hs. destruct (alnum_run r) eqn:Er; [done|]. exfalso.
    assert (match_here lit s = Some (String a s0)); [|congruence].
    apply match_here_Some. split; [done|]. by exists r.
  - intros H. destruct (match_here lit s) as [key|] eqn:E; [|done]. exfalso.
    apply match_here_Some in E as (Hne & r & Hs & Hr). rewrite (H r Hs) in Hr. done.
Qed.

Lemma regex_search_Some lit s key :
  regex_search lit s = Some key →
  ∃ pre r, s = pre +:+ lit +:+ r ∧ alnum_run r = key ∧ key ≠ "".
Proof.
  induction s as [|c s IH].
  - simpl. destruct (match_here lit "") as [k|] eqn:E; [|done]. intros [= ->].
    apply match_here_Some in E as (Hne & r & Hs & Hr). by exists "", r.
  - cbn [regex_search]. destruct (match_here lit (String c s)) as [k|] eqn:E.
    + intros [= ->]. apply match_here_Some in E as (Hne & r & Hs & Hr). by exists "", r.
    + intros (pre & r & -> & Hr & Hne)%IH. exists (String c pre), r. by rewrite append_cons.
Qed.

Lemma regex_search_None lit s :
  regex_search lit s = None ↔ ∀ pre r, s = pre +:+ lit +:+ r → alnum_run r = "".
Proof.
  induction s as [|c s IH].
  - simpl. destruct (match_here lit "") as [k|] eqn:E.
    + split; [done|]. intros H. exfalso.
      apply match_here_Some in E as (Hne & r & Hs & Hr).
      rewrite (H "" r Hs) in Hr. done.
    + split; [|done]. intros _ pre r Hs.
      destruct pre as [|x pre]; [|by rewrite append_cons in Hs].
      rewrite append_nil_l in Hs. by apply (proj1 (match_here_None lit "") E).
  - cbn [regex_search]. destruct (match_here lit (String c s)) as [k|] eqn:E.
    + split; [done|]. intros H. exfalso.
      apply match_here_Some in E as (Hne & r & Hs & Hr).
      rewrite (H "" r Hs) in Hr. done.
    + rewrite IH. split.
      * intros H pre r Hs. destruct pre as [|x pre].
        -- rewrite append_nil_l in Hs. by apply (proj1 (match_here_None _ _) E).
        -- rewrite append_cons in Hs. injection Hs as -> Hs. by apply (H pre r).
      * intros H pre r Hs. apply (H (String c pre) r). by rewrite append_cons, Hs.
Qed.

(** X15. [extractFileKeyFromUrl] finds a key exactly when the URL contains
    "figma.com/file/" or "figma.com/design/" followed by a letter or a
    digit.  The key it returns is never empty, consists of letters and
    digits only, and is the whole run of letters and digits that follows
    one of the two texts in the URL. *)
Theorem extractFileKeyFromUrl_finds_the_key url :
  (∀ key, extractFileKeyFromUrl url = Some key →
     key ≠ "" ∧ string_forall isAlnum key = true ∧
     ∃ lit pre rest, lit ∈ patterns ∧ url = pre +:+ lit +:+ key +:+ rest ∧
                     alnum_run rest = "") ∧
  (extractFileKeyFromUrl url = None ↔
   ∀ lit pre r, lit ∈ patterns → url = pre +:+ lit +:+ r → alnum_run r = "").
Proof.
  unfold extractFileKeyFromUrl, patterns. cbn [first_match]. split.
  - intros key H.
    assert (∃ lit, lit ∈ ["figma.com/file/"; "figma.com/design/"] ∧
                   regex_search lit url = Some key) as (lit & Hlit & Hs).
    { destruct (regex_search "figma.com/file/" url) as [k|] eqn:E1.
      - injection H as ->. eexists. split; [|done]. set_solver.
      - destruct (regex_search "figma.com/design/" url) as [k|] eqn:E2; [|done].
        injection H as ->. eexists. split; [|done]. set_solver. }
    apply regex_search_Some in Hs as (pre & r & -> & Hr & Hne).
    split; [done|]. split; [rewrite <- Hr; apply alnum_run_forall|].
    destruct (alnum_run_split r) as (rest & Hr1 & Hr2).
    exists lit, pre, rest. rewrite <- Hr. by rewrite <- Hr1.
  - split.
    + intros H lit pre r Hlit Hs.
      destruct (regex_search "figma.com/file/" url) as [k|] eqn:E1; [done|].
      destruct (regex_search "figma.com/design/" url) as [k|] eqn:E2; [done|].
      apply elem_of_cons in Hlit as [->|Hlit].
      * by apply (proj1 (regex_search_None _ _) E1 pre r).
      * apply list_elem_of_singleton in Hlit as ->.
        by apply (proj1 (regex_search_None _ _) E2 pre r).
    + intros H.
      rewrite (proj2 (regex_search_None "figma.com/file/" url)).
      2: { intros pre r. apply H. set_solver. }
      rewrite (proj2 (regex_search_None "figma.com/design/" url)); [done|].
      intros pre r. apply H. set_solver.
Qed.

Lemma extractFileKeyFromUrl_finds_the_key_witness :
  extractFileKeyFromUrl "https://www.figma.com/design/AbC123/Home?node-id=1" = Some "AbC123" ∧
  string_forall isAlnum "AbC123" = true.
Proof.
  assert (H : extractFileKeyFromUrl "https://www.figma.com/design/AbC123/Home?node-id=1"
              = Some "AbC123") by reflexivity.
  split; [exact H|].
  destruct (extractFileKeyFromUrl_finds_the_key
              "https://www.figma.com/design/AbC123/Home?node-id=1") as [Hs _].
  destruct (Hs _ H) as (_ & Hk & _). exact Hk.
Defined.

Lemma regex_search_skip lit c s :
  match_here lit (String c s) = None →
  regex_search lit (String c s) = regex_search lit s.
Proof. intros H. cbn [regex_search]. by rewrite H. Qed.

Lemma regex_search_here lit s key :
  match_here lit s = Some key → regex_search lit s = Some key.
Proof. intros H. destruct s; cbn [regex_search]; by rewrite H. Qed.

(** X16. Round trip: in a file URL of the usual form the key that
    was put in is the key that comes out, whatever follows it; the same
    holds for a design URL as long as no "figma.com/file/" key occurs
    later in it, since that pattern is tried first. *)
Theorem extractFileKeyFromUrl_round_trip key rest :
  key ≠ "" → string_forall isAlnum key = true → alnum_run rest = "" →
  extractFileKeyFromUrl ("https://www.figma.com/file/" +:+ key +:+ rest) = Some key ∧
  (regex_search "figma.com/file/" (key +:+ rest) = None →
   extractFileKeyFromUrl ("https://www.figma.com/design/" +:+ key +:+ rest) = Some key).
Proof.
  intros Hne Hk Hr.
  assert (Hrun : alnum_run (key +:+ rest) = key) by by apply alnum_run_app.
  split.
  - unfold extractFileKeyFromUrl, patterns. cbn [first_match].
    rewrite !append_cons, append_nil_l.
    do 12 (rewrite regex_search_skip by done).
    rewrite (regex_search_here _ _ key); [done|].
    apply match_here_Some. split; [done|]. exists (key +:+ rest). done.
  - intros Hfile. unfold extractFileKeyFromUrl, patterns. cbn [first_match].
    rewrite !append_cons, append_nil_l.
    do 29 (rewrite (regex_search_skip "figma.com/file/") by done).
    rewrite Hfile.
    do 12 (rewrite regex_search_skip by done).
    rewrite (regex_search_here _ _ key); [done|].
    apply match_here_Some. split; [done|]. exists (key +:+ rest). done.
Qed.

Lemma extractFileKeyFromUrl_round_trip_witness :
  "AbC123" ≠ "" ∧ string_forall isAlnum "AbC123" = true ∧ alnum_run "/Home" = "" ∧
  extractFileKeyFromUrl ("https://www.figma.com/file/" +:+ "AbC123" +:+ "/Home") =
    Some "AbC123".
Proof.
  assert (H1 : "AbC123" ≠ "") by discriminate.
  assert (H2 : string_forall isAlnum "AbC123" = true) by reflexivity.
  assert (H3 : alnum_run "/Home" = "") by reflexivity.
  split; [exact H1|]. split; [exact H2|]. split; [exact H3|].
  exact (proj1 (extractFileKeyFromUrl_round_trip "AbC123" "/Home" H1 H2 H3)).
Defined.

Lemma digit_run_app s rest :
  string_forall isDigit s = true → digit_run rest = "" → digit_run (s +:+ rest) = s.
Proof.
  intros Hs Hr. induction s as [|c s IH]; [done|].
  simpl in Hs. apply andb_true_iff in Hs as [Hc Hs].
  change (digit_run (String c (s +:+ rest)) = String c s). simpl. rewrite Hc. by rewrite IH.
Qed.

Lemma number_to_string_cons n :
  ∃ c s, number_to_string n = String c s ∧ isDigit c = true.
Proof.
  pose proof (number_to_string_digits n) as Hd.
  destruct (number_to_string n) as [|c s] eqn:E.
  - exfalso. unfold number_to_string, NilZero.string_of_uint in E.
    destruct (N.to_uint n) eqn:En; try done;
      simpl in E; done.
  - simpl in Hd. apply andb_true_iff in Hd as [Hc _]. by exists c, s.
Qed.

Lemma isDigit_cases c :
  isDigit c = true → isWhiteSpace c = false ∧ c ≠ "-"%char ∧ c ≠ "+"%char.
Proof.
  destruct c as [[] [] [] [] [] [] [] []]; intros H; vm_compute in H;
    try discriminate H; (split; [reflexivity|split; discriminate]).
Qed.

Lemma parseInt_number_to_string n rest :
  digit_run rest = "" → parseInt (number_to_string n +:+ rest) = Some (Z.of_N n).
Proof.
  intros Hr. destruct (number_to_string_cons n) as (c & s & E & Hc).
  destruct (isDigit_cases c Hc) as (Hw & Hm & Hp).
  assert (Hrun : digit_run (number_to_string n +:+ rest) = number_to_string n)
    by (apply digit_run_app; [apply number_to_string_digits|done]).
  unfold parseInt.
  assert (Hskip : skip_white_space (number_to_string n +:+ rest) = number_to_string n +:+ rest).
  { rewrite E. change (String c s +:+ rest) with (String c (s +:+ rest)). simpl. by rewrite Hw. }
  rewrite Hskip.
  assert (Hsign : match number_to_string n +:+ rest with
                  | String "-"%char s' => ((-1)%Z, s')
                  | String "+"%char s' => (1%Z, s')
                  | _ => (1%Z, number_to_string n +:+ rest)
                  end = (1%Z, number_to_string n +:+ rest)).
  { rewrite E. change (String c s +:+ rest) with (String c (s +:+ rest)).
    destruct c as [[] [] [] [] [] [] [] []]; try done. }
  rewrite Hsign, Hrun. unfold number_to_string. rewrite NilZero.usu.
  - rewrite DecimalN.Unsigned.of_to. f_equal. lia.
  - destruct n; simpl; [done | apply DecimalPos.Unsigned.to_uint_nonnil].
Qed.

(** X17. A variable that holds a number in decimal is read as that
    number by [getEnvNumber], also when other text follows the digits
    ("9001abc" is 9001); the default is not used. *)
Theorem getEnvNumber_reads_leading_digits key defaultValue (env : Env) n rest :
  (n < 2 ^ 53)%N →
  digit_run rest = "" →
  env !! key = Some (number_to_string n +:+ rest) →
  getEnvNumber key defaultValue env = Z.of_N n.
Proof.
  intros _ Hr Hv. unfold getEnvNumber. rewrite Hv.
  destruct (number_to_string_cons n) as (c & s & E & _).
  destruct (decide _) as [He|_].
  { rewrite E in He. done. }
  by rewrite parseInt_number_to_string.
Qed.

Lemma getEnvNumber_reads_leading_digits_witness :
  getEnvNumber "PLUGIN_BRIDGE_PORT" 9001
    (<["PLUGIN_BRIDGE_PORT" := "9100abc"]> (∅ : Env)) = 9100%Z.
Proof.
  apply (getEnvNumber_reads_leading_digits "PLUGIN_BRIDGE_PORT" 9001%Z
           (<["PLUGIN_BRIDGE_PORT" := "9100abc"]> (∅ : Env)) 9100%N "abc").
  - vm_compute. reflexivity.
  - reflexivity.
  - vm_compute. reflexivity.
Defined.

(** X18. The two readers of DEBUG disagree.  Whenever the module
    logger writes debug lines the configuration has [debug] on, but not
    the other way round: [debug] is on while the logger drops debug lines
    exactly when DEBUG is "1" or "true" in another case than lower case. *)
Theorem config_debug_does_not_imply_debug_logging (env : Env) c :
  (getConfig None env).1 = inr c →
  (Logger.shouldLog (module_logger env) LDebug = true → debug c = true) ∧
  (debug c = true ∧ Logger.shouldLog (module_logger env) LDebug = false ↔
   ∃ v, env !! "DEBUG" = Some v ∧ v ≠ "true" ∧ (toLowerCase v = "true" ∨ v = "1")).
Proof.
  intros Hc. unfold getConfig in Hc.
  destruct (getEnvOrThrow "FIGMA_ACCESS_TOKEN" env) as [e|token]; [done|].
  simpl in Hc. injection Hc as <-. simpl.
  unfold module_logger, Logger.root, Logger.shouldLog, getEnvBool. simpl.
  destruct (env !! "DEBUG") as [v|] eqn:Hv.
  2: { rewrite bool_decide_false by done. simpl. split; [done|].
       split; [by intros [? _] | by intros (? & ? & _)]. }
  destruct (decide (v = "true")) as [->|Hne].
  { rewrite bool_decide_true by done. simpl. split; [done|].
    split; [by intros [_ ?] | by intros (? & [= <-] & ? & _)]. }
  rewrite (bool_decide_false (Some v = Some "true")) by congruence. simpl.
  split; [done|]. destruct (decide (v = "")) as [->|Hne'].
  { split; [by intros [? _]|]. intros (? & [= <-] & _ & [?|?]); done. }
  split.
  - intros [H _]. exists v. split; [done|]. split; [done|].
    apply orb_true_iff in H as [H|H]; apply bool_decide_eq_true in H; auto.
  - intros (? & [= <-] & _ & H). split; [|done].
    apply orb_true_iff. destruct H as [H|H]; [left|right]; by apply bool_decide_eq_true.
Qed.

Lemma config_debug_does_not_imply_debug_logging_witness :
  let env : Env := <["DEBUG" := "1"]> (<["FIGMA_ACCESS_TOKEN" := "figd_token"]> ∅) in
  ∃ c, (getConfig None env).1 = inr c ∧ debug c = true ∧
       Logger.shouldLog (module_logger env) LDebug = false.
Proof.
  intros env.
  set (c := {| figmaAccessToken := "figd_token"; pluginBridgePort := 9001;
               debug := true; captureDir := "./captures" |}).
  assert (H : (getConfig None env).1 = inr c) by (vm_compute; reflexivity).
  exists c. split; [exact H|].
  destruct (config_debug_does_not_imply_debug_logging env c H) as [_ [_ Hm]].
  apply Hm. exists "1". split; [vm_compute; reflexivity|].
  split; [discriminate | right; reflexivity].
Defined.

(** X19. [getConfig] reads the environment once.  A first call fails
    exactly when FIGMA_ACCESS_TOKEN is unset or empty, and then keeps
    nothing, so that a later call reads the environment again.  A call that
    succeeds keeps its result: every later call of [getConfig] and of
    [isDebug] answers from it, whatever the environment has become. *)
Theorem getConfig_reads_the_environment_once (env : Env) :
  ((env !! "FIGMA_ACCESS_TOKEN" = None ∨ env !! "FIGMA_ACCESS_TOKEN" = Some "") ∧
   getConfig None env =
     (inl (Error "Missing required environment variable: FIGMA_ACCESS_TOKEN"), None)) ∨
  (∃ c, getConfig None env = (inr c, Some c) ∧
        figmaAccessToken c ≠ "" ∧
        env !! "FIGMA_ACCESS_TOKEN" = Some (figmaAccessToken c) ∧
        ∀ env' : Env,
          getConfig (Some c) env' = (inr c, Some c) ∧
          isDebug (Some c) env' = (inr (debug c), Some c)).
Proof.
  unfold getConfig at 1 2, getEnvOrThrow.
  destruct (env !! "FIGMA_ACCESS_TOKEN") as [token|] eqn:Ht.
  - destruct (decide (token = "")) as [->|Hne].
    + left. split; [by right | done].
    + right. eexists. split; [done|]. simpl. split; [done|]. split; [done|].
      intros env'. done.
  - left. split; [by left | done].
Qed.

Lemma command_of_known m : in_type (command_of m) ∈ plugin_command_types.
Proof. destruct m; simpl; unfold plugin_command_types; set_solver. Qed.

Lemma handleCommand_id handlers command :
  resp_id (handleCommand handlers command) = cmd_id command.
Proof. unfold handleCommand. by destruct (executeCommand handlers command). Qed.

Lemma handleCommand_outcome handlers command :
  response_outcome (handleCommand handlers command) =
  match executeCommand handlers command with
  | inr result => Resolved result
  | inl text => Rejected (Error (or_else (Some text) "Unknown plugin error"))
  end.
Proof.
  unfold response_outcome, handleCommand. by destruct (executeCommand handlers command).
Qed.

(** A command sent to a connected peer and answered by [handleCommand]. *)
Lemma sendCommand_answered handlers command rnd w :
  isConnected w = true →
  ∃ ws s q frame w1,
    client (bridge w) = Some ws ∧ sockets w !! ws = Some s ∧
    sendCommand command rnd w = (inr q, w1) ∧
    outbox <$> sockets w1 !! ws = Some (outbox s ++ [frame]) ∧
    cmd_type frame = in_type command ∧
    cmd_params frame = in_params command ∧
    let w2 := step w1 (SocketMessage ws (Some (handleCommand handlers frame))) in
    calls w2 =
      calls w1 ++
      [{| promise := q; caller := ByResponse;
          outcome := match executeCommand handlers frame with
                     | inr result => Resolved result
                     | inl text =>
                         Rejected (Error (or_else (Some text) "Unknown plugin error"))
                     end |}] ∧
    JsMap.get (cmd_id frame) (pendingCommands (bridge w2)) = None.
Proof.
  intros Hc.
  destruct (sendCommand_connected command rnd w Hc) as (ws & Hcl & Hsend).
  assert (∃ s, sockets w !! ws = Some s) as [s Hs].
  { unfold isConnected in Hc. rewrite Hcl in Hc. destruct (sockets w !! ws); [by eexists|done]. }
  set (frame := {| cmd_type := in_type command; cmd_params := in_params command;
                   cmd_id := generateId (now w) rnd; cmd_timestamp := now w |}) in *.
  exists ws, s, (promises w), frame. eexists. split; [done|]. split; [done|].
  split; [exact Hsend|].
  split. { simpl. rewrite list_lookup_alter_eq, Hs. done. }
  split; [done|]. split; [done|].
  cbn [step]. rewrite decide_True.
  2: { simpl. rewrite list_lookup_alter_eq, Hs. by eexists. }
  unfold on_message.
  set (pe := {| resolve := promises w; reject := promises w;
                timeout := length (timers w) |}).
  assert (Hid : resp_id (handleCommand handlers frame) = generateId (now w) rnd)
    by apply handleCommand_id.
  rewrite (handleResponse_pending _ _ pe).
  - simpl. split; [|rewrite Hid; apply JsMapFacts.get_delete_eq].
    by rewrite handleCommand_outcome.
  - rewrite Hid. simpl. apply JsMapFacts.get_set_eq.
  - done.
Qed.

(** X20. A call of one of the bridge's methods, answered by the peer.
    The frame the method writes always has a type the peer's dispatcher
    knows, so the reply is what the handler of that type did: when the
    reply arrives the promise of the call is resolved with the handler's
    result, or rejected with the text the handler threw, and the entry of
    the command is gone from the table. *)
Theorem method_call_is_settled_by_the_handler handlers m rnd w :
  isConnected w = true →
  ∃ ws s q frame w1,
    client (bridge w) = Some ws ∧ sockets w !! ws = Some s ∧
    invoke m rnd w = (inr q, w1) ∧
    outbox <$> sockets w1 !! ws = Some (outbox s ++ [frame]) ∧
    cmd_type frame ∈ plugin_command_types ∧
    let w2 := step w1 (SocketMessage ws (Some (handleCommand handlers frame))) in
    calls w2 =
      calls w1 ++
      [{| promise := q; caller := ByResponse;
          outcome := match handlers (in_type (command_of m)) (in_params (command_of m)) with
                     | inr result => Resolved result
                     | inl text =>
                         Rejected (Error (or_else (Some text) "Unknown plugin error"))
                     end |}] ∧
    JsMap.get (cmd_id frame) (pendingCommands (bridge w2)) = None.
Proof.
  intros Hc. unfold invoke.
  destruct (sendCommand_answered handlers (command_of m) rnd w Hc)
    as (ws & s & q & frame & w1 & Hcl & Hs & Hsend & Hout & Hty & Hpar & Hcalls & Hget).
  exists ws, s, q, frame, w1. split_and!; try done.
  - rewrite Hty. apply command_of_known.
  - simpl in *. rewrite Hcalls. unfold executeCommand.
    rewrite decide_True by (rewrite Hty; apply command_of_known).
    by rewrite Hty, Hpar.
Qed.

Lemma method_call_is_settled_by_the_handler_witness :
  let w := run (boot false None) [CallStart; ServerListening 0; ServerConnection 0] in
  isConnected w = true ∧
  ∃ q w1, invoke (DeleteNode "1:2") "0.4fzyo82mvyr" w = (inr q, w1).
Proof.
  intros w.
  assert (H : isConnected w = true) by reflexivity.
  split; [exact H|].
  destruct (method_call_is_settled_by_the_handler
              (λ _ _, inr [("success", JBool true)]) (DeleteNode "1:2") "0.4fzyo82mvyr" w H)
    as (_ & _ & q & _ & w1 & _ & _ & Hi & _).
  exists q, w1. exact Hi.
Defined.

(** X21. A command of a type the peer's dispatcher does not know is not
    left to time out: the peer answers it with an error, and the promise
    of the call is rejected with "Unknown command type: " followed by the
    type; no handler runs. *)
Theorem unknown_command_type_is_rejected_by_the_peer handlers command rnd w :
  isConnected w = true →
  in_type command ∉ plugin_command_types →
  ∃ ws s q frame w1,
    client (bridge w) = Some ws ∧ sockets w !! ws = Some s ∧
    sendCommand command rnd w = (inr q, w1) ∧
    outbox <$> sockets w1 !! ws = Some (outbox s ++ [frame]) ∧
    let w2 := step w1 (SocketMessage ws (Some (handleCommand handlers frame))) in
    calls w2 =
      calls w1 ++
      [{| promise := q; caller := ByResponse;
          outcome := Rejected (Error ("Unknown command type: " +:+ in_type command)) |}] ∧
    JsMap.get (cmd_id frame) (pendingCommands (bridge w2)) = None.
Proof.
  intros Hc Hun.
  destruct (sendCommand_answered handlers command rnd w Hc)
    as (ws & s & q & frame & w1 & Hcl & Hs & Hsend & Hout & Hty & Hpar & Hcalls & Hget).
  exists ws, s, q, frame, w1. split_and!; try done.
  simpl in *. rewrite Hcalls. unfold executeCommand.
  rewrite decide_False by (by rewrite Hty).
  by rewrite Hty.
Qed.

Lemma unknown_command_type_is_rejected_by_the_peer_witness :
  let w := run (boot false None) [CallStart; ServerListening 0; ServerConnection 0] in
  let command := {| in_type := "ROTATE_NODE"; in_params := JObject [] |} in
  isConnected w = true ∧ (in_type command ∉ plugin_command_types) ∧
  ∃ q w1, sendCommand command "0.4fzyo82mvyr" w = (inr q, w1).
Proof.
  intros w command.
  assert (H : isConnected w = true) by reflexivity.
  assert (Hun : in_type command ∉ plugin_command_types).
  { apply (bool_decide_unpack (in_type command ∉ plugin_command_types)). vm_compute. exact I. }
  split; [exact H|]. split; [exact Hun|].
  destruct (unknown_command_type_is_rejected_by_the_peer
              (λ _ _, inr []) command "0.4fzyo82mvyr" w H Hun)
    as (_ & _ & q & _ & w1 & _ & _ & Hi & _).
  exists q, w1. exact Hi.
Defined.

Lemma or_else_nonempty a b : b ≠ "" → or_else a b ≠ "".
Proof. intros Hb. unfold or_else. destruct a as [s|]; [|done]. by destruct (decide (s = "")). Qed.

Lemma step_reported_by_cause w e :
  Forall reported_by_cause (calls w) → Forall reported_by_cause (calls (step w e)).
Proof.
  intros Hw.
  assert (Hsame : ∀ w', calls w' = calls w → Forall reported_by_cause (calls w'))
    by (by intros w' ->).
  destruct e; cbn [step]; try (by apply Hsame).
  - apply Hsame. unfold start. by destruct (isRunning (bridge w)).
  - rewrite stop_calls. apply Forall_app. split; [done|].
    apply Forall_fmap, Forall_forall. intros [id pe] _. by hnf.
  - destruct (isConnected w) eqn:Hconn.
    + destruct (sendCommand_connected command rnd w Hconn) as (ws & _ & ->). by apply Hsame.
    + rewrite sendCommand_not_connected by done. by apply Hsame.
  - destruct (decide _); by apply Hsame.
  - destruct (decide _); by apply Hsame.
  - destruct (decide _); [|by apply Hsame]. unfold handleConnection. simpl.
    destruct (client (bridge w)); by apply Hsame.
  - destruct (decide _); [|by apply Hsame]. destruct data as [r|]; simpl; [|by apply Hsame].
    unfold handleResponse. destruct (JsMap.get _ _) as [pe|]; [|by apply Hsame].
    assert (Hrej : reported_by_cause
                     {| promise := reject pe; caller := ByResponse;
                        outcome := Rejected (Error (or_else (resp_error r)
                                                      "Unknown plugin error")) |}).
    { hnf. simpl. eexists. split; [|reflexivity]. by apply or_else_nonempty. }
    destruct (resp_success r), (resp_result r); simpl;
      apply Forall_app; (split; [done|]); by apply Forall_singleton.
  - destruct (decide _); [|by apply Hsame]. unfold on_close. simpl.
    destruct (decide _); by apply Hsame.
  - destruct (decide _); by apply Hsame.
  - unfold fire. destruct (timers w !! t) as [tm|]; [|by apply Hsame].
    destruct (decide _); [|by apply Hsame]. destruct (_ <=? _)%N; [|by apply Hsame].
    simpl. apply Forall_app. split; [done|]. apply Forall_singleton.
    hnf. simpl. by eexists.
Qed.

Lemma run_reported_by_cause es w :
  Forall reported_by_cause (calls w) → Forall reported_by_cause (calls (run w es)).
Proof.
  revert w. induction es as [|e es IH]; intros w Hw; [done|].
  simpl. by apply IH, step_reported_by_cause.
Qed.

(** X22. What the caller of a tool is told when the bridge fails a
    command depends on where the failure was raised.  A command sent
    without a peer and a command that timed out are reported with the code
    PLUGIN_BRIDGE_ERROR; an error reported by the peer, and the shutdown of
    the bridge, are thrown as plain errors and come out under
    UNKNOWN_ERROR. *)
Theorem rejections_are_reported_by_cause isDebug p es :
  let w := run (boot isDebug p) es in
  (∀ command rnd e w',
     sendCommand command rnd w = (inl e, w') →
     tool_error_text e =
     "Error [PLUGIN_BRIDGE_ERROR]: Figma plugin is not connected. " +:+
     "Please open Figma and run the figmad plugin.") ∧
  (∀ c e, c ∈ calls w → outcome c = Rejected e →
     match caller c with
     | ByTimeout =>
         ∃ commandType,
           tool_error_text e =
           "Error [PLUGIN_BRIDGE_ERROR]: Plugin command '" +:+ commandType +:+
           "' timed out after 30000ms"
     | ByResponse =>
         ∃ text, text ≠ "" ∧ tool_error_text e = "Error [UNKNOWN_ERROR]: " +:+ text
     | ByStop => tool_error_text e = "Error [UNKNOWN_ERROR]: Plugin bridge stopped"
     end).
Proof.
  intros w. split.
  - intros command rnd e w' H. destruct (isConnected w) eqn:Hconn.
    + destruct (sendCommand_connected command rnd w Hconn) as (ws & _ & Hs). congruence.
    + rewrite sendCommand_not_connected in H by done. by injection H as <- _.
  - intros c e Hc Ho.
    assert (Hall : Forall reported_by_cause (calls w)).
    { apply run_reported_by_cause. simpl. constructor. }
    rewrite Forall_forall in Hall. specialize (Hall c Hc).
    unfold reported_by_cause in Hall. by rewrite Ho in Hall.
Qed.

Lemma rejections_are_reported_by_cause_witness :
  let es := [CallStart; ServerListening 0; ServerConnection 0;
             CallSendCommand {| in_type := "CREATE_FRAME"; in_params := JObject [] |}
               "0.4fzyo82mvyr";
             CallStop] in
  let w := run (boot false None) es in
  let c := {| promise := 0; caller := ByStop;
              outcome := Rejected (Error "Plugin bridge stopped") |} in
  c ∈ calls w ∧
  tool_error_text (Error "Plugin bridge stopped") =
    "Error [UNKNOWN_ERROR]: Plugin bridge stopped".
Proof.
  intros es w c.
  assert (Hc : c ∈ calls w) by (vm_compute; apply list_elem_of_here).
  split; [exact Hc|].
  destruct (rejections_are_reported_by_cause false None es) as [_ H].
  exact (H c (Error "Plugin bridge stopped") Hc eq_refl).
Defined.
